(** * Image Resizer (Obsidian plugin): the resize planner, the resize engine,
      the debounce / guard layer and the batch coordinator.

    Shallow embedding of [src/resizer.ts] and [src/main.ts].

    - [Number]   : the JavaScript Number operations the planner uses
                   (IEEE 754 binary64 division and multiplication, [Math.min],
                   [Math.round]) on exact rationals.
    - [JsString] : the string operations of [getExtension], [isImageFile] and
                   of the rename-target derivation.
    - [Resizer]  : [resizer.ts].
    - [Main]     : [main.ts], the plugin state, the timers and the vault.
    - [Props]    : the predicates the theorems are stated with.
    - [Sample]   : a small browser and vault to run the plugin on.

    The theorems follow the definitions: the rounding of Numbers, the
    planner, extensions, the engine, the guard, the write-back, the batch
    coordinator and the debounce scheduler. *)

From Stdlib Require Import ZArith QArith Qround Qabs Qminmax Qpower Lia Lqa.
From Stdlib Require Import String Ascii List.
From Stdlib Require Import Floats.SpecFloat.
From stdpp Require Import gmap strings list fin_maps.

(* ===================================================================== *)
(** * JavaScript Numbers *)
(* ===================================================================== *)

Module Number.
Local Open Scope Q_scope.

(** A finite JavaScript Number is a rational; the arithmetic operations are
    the exact operation followed by rounding to the nearest binary64 value,
    ties to even (ECMAScript "the Number value for x", IEEE 754
    roundTiesToEven).  Infinities and NaN do not occur in the planner: it
    divides only by a strictly positive width or height, and every
    intermediate value is bounded by the original size. *)

(** [ilog2 x] is floor(log2 x) for [0 < x]. *)
Definition ilog2 (x : Q) : Z :=
  let l := (Z.log2 (Qnum x) - Z.log2 (Zpos (Qden x)))%Z in
  if Qle_bool (2 ^ l) x then l else (l - 1)%Z.

(** Exponent of the unit in the last place of the binary64 format at [x]:
    53 significant bits, smallest exponent -1074 (subnormal numbers). *)
Definition ulp_exp (x : Q) : Z := Z.max (ilog2 x - 52) (-1074).

(** Nearest integer, ties to even. *)
Definition rne (x : Q) : Z :=
  let q := Qfloor x in
  match Qcompare (x - inject_Z q) (1 # 2) with
  | Lt => q
  | Gt => (q + 1)%Z
  | Eq => if Z.even q then q else (q + 1)%Z
  end.

Definition fl_pos (x : Q) : Q :=
  let e := ulp_exp x in inject_Z (rne (x / 2 ^ e)) * 2 ^ e.

(** The binary64 value nearest to [x]. *)
Definition fl (x : Q) : Q :=
  match Qnum x with
  | Z0 => 0
  | Zpos _ => fl_pos x
  | Zneg _ => - fl_pos (- x)
  end.

(** [a / b] and [a * b] on Numbers. *)
Definition div (a b : Q) : Q := fl (a / b).
Definition mul (a b : Q) : Q := fl (a * b).

(** [Math.min(a, b)]. *)
Definition Math_min (a b : Q) : Q := Qmin a b.

(** [Math.round(x)]: the nearest integer, ties towards +infinity. *)
Definition Math_round (x : Q) : Z := Qfloor (x + (1 # 2)).

(** Relative rounding error 2^-53 and the absolute error 2^-1075 of the
    subnormal range. *)
Definition u : Q := 1 # 9007199254740992.
Definition eta : Q := 2 ^ (-1075).

(** Absolute error bounds on the ranges the planner works in: 2^-52 for a
    quotient below 1, 2^-20 for a product of pixel size. *)
Definition delta : Q := 1 # 4503599627370496.
Definition eps : Q := 1 # 1048576.

(** ** Agreement with the Standard Library's binary64 specification *)

(** The rational a finite [spec_float] stands for. *)
Definition SF2Q (x : spec_float) : Q :=
  match x with
  | S754_finite s m e =>
      (if s then - inject_Z (Zpos m) else inject_Z (Zpos m)) * 2 ^ e
  | _ => 0
  end.

(** The binary64 number of an integer. *)
Definition SFofZ (z : Z) : spec_float := binary_normalize 53 1024 z 0 false.

(** [div] and [mul] give what [SFdiv] and [SFmul] give. *)
Definition agree_div (a b : Z) : bool :=
  Qeq_bool (SF2Q (SFdiv 53 1024 (SFofZ a) (SFofZ b)))
           (div (inject_Z a) (inject_Z b)).

Definition agree_mul_div (w a b : Z) : bool :=
  Qeq_bool
    (SF2Q (SFmul 53 1024 (SFofZ w) (SFdiv 53 1024 (SFofZ a) (SFofZ b))))
    (mul (inject_Z w) (div (inject_Z a) (inject_Z b))).

(** The pairs [(a, b)] with [1 <= a < b <= n + 1]. *)
Definition grid (n : nat) : list (Z * Z) :=
  flat_map (fun b => map (fun a => (Z.of_nat a, Z.of_nat b)) (seq 1 (b - 1)))
           (seq 2 n).

End Number.

(* ===================================================================== *)
(** * JavaScript strings *)
(* ===================================================================== *)

Module JsString.
Local Open Scope string_scope.

(** Strings are sequences of bytes (UTF-8).  The separator ".", the letters
    A-Z and "$" are single bytes that never occur inside a multi-byte
    character, so splitting and searching on bytes finds the same places as
    on UTF-16 code units. *)

Definition is_dot (c : ascii) : bool := Ascii.eqb c ".".

(** [s.split(".")]: never empty, the empty string gives one empty segment. *)
Fixpoint split_dot (s : string) : list string :=
  match s with
  | EmptyString => [EmptyString]
  | String c rest =>
      if is_dot c then EmptyString :: split_dot rest
      else match split_dot rest with
           | seg :: segs => String c seg :: segs
           | [] => [String c EmptyString]
           end
  end.

(** [arr.pop()]: the last element, [None] (undefined) on an empty array. *)
Fixpoint pop {A : Type} (l : list A) : option A :=
  match l with
  | [] => None
  | [x] => Some x
  | _ :: l' => pop l'
  end.

(** [s.toLowerCase()] on the ASCII letters; other bytes are kept.  The only
    characters outside ASCII whose lower case has an ASCII letter are U+212A
    (k) and U+0130 (i), and no supported extension has a k or an i. *)
Definition lower_char (c : ascii) : ascii :=
  let n := nat_of_ascii c in
  if (65 <=? n)%nat && (n <=? 90)%nat then ascii_of_nat (n + 32) else c.

Fixpoint toLowerCase (s : string) : string :=
  match s with
  | EmptyString => EmptyString
  | String c rest => String (lower_char c) (toLowerCase rest)
  end.

Fixpoint no_dot (s : string) : bool :=
  match s with
  | EmptyString => true
  | String c rest => negb (is_dot c) && no_dot rest
  end.

Definition nonempty (s : string) : bool :=
  match s with EmptyString => false | String _ _ => true end.

(** [s.replace(/\.[^.]+$/, r)] for a replacement [r] without "$": the
    leftmost position where a dot is followed by one or more non-dot
    characters up to the end of the input is replaced by [r]. *)
Fixpoint replace_ext (s r : string) : string :=
  match s with
  | EmptyString => EmptyString
  | String c rest =>
      if is_dot c && nonempty rest && no_dot rest then r
      else String c (replace_ext rest r)
  end.

(** [pat] is a prefix of [s]: the rest of [s] after it. *)
Fixpoint strip_prefix (pat s : string) : option string :=
  match pat, s with
  | EmptyString, _ => Some s
  | String p pat', String c s' =>
      if Ascii.eqb p c then strip_prefix pat' s' else None
  | String _ _, EmptyString => None
  end.

(** The first occurrence of [pat] in [s]: what is before and after it. *)
Fixpoint split_at_first (pat s : string) : option (string * string) :=
  match strip_prefix pat s with
  | Some after => Some (EmptyString, after)
  | None =>
      match s with
      | EmptyString => None
      | String c rest =>
          match split_at_first pat rest with
          | Some (before, after) => Some (String c before, after)
          | None => None
          end
      end
  end.

(** GetSubstitution for a string pattern (no captures): "$$", "$&", "$`"
    and "$'" are expanded, every other character is copied. *)
Fixpoint substitute (repl matched before after : string) : string :=
  match repl with
  | EmptyString => EmptyString
  | String "$" (String "$" r) => String "$" (substitute r matched before after)
  | String "$" (String "&" r) => matched ++ substitute r matched before after
  | String "$" (String "`" r) => before ++ substitute r matched before after
  | String "$" (String "'" r) => after ++ substitute r matched before after
  | String c r => String c (substitute r matched before after)
  end.

(** [s.replace(pat, repl)] with a string pattern: the first occurrence
    only. *)
Definition replace_str (s pat repl : string) : string :=
  match split_at_first pat s with
  | None => s
  | Some (before, after) => before ++ substitute repl pat before after ++ after
  end.

(** The extension in the words of the specification: the substring after
    the last dot, and the entire string when it has no dot. *)
Fixpoint afterLastDot (s : string) : string :=
  match s with
  | EmptyString => EmptyString
  | String c rest =>
      if negb (no_dot rest) then afterLastDot rest
      else if is_dot c then rest
      else s
  end.

(** Truthiness of a [string | null]. *)
Definition truthy (o : option string) : bool :=
  match o with
  | Some s => nonempty s
  | None => false
  end.

End JsString.

(* ===================================================================== *)
(** * resizer.ts *)
(* ===================================================================== *)

Module Resizer.
Import JsString.
Local Open Scope string_scope.

Abbreviation bytes := (list Byte.byte).

(** settings.ts: [ImageResizerSettings]. *)
Record ImageResizerSettings := {
  maxWidth : Z;
  maxHeight : Z;
  jpegQuality : Z;
  convertToJpeg : bool;
  resizeOnPaste : bool;
  resizeOnDrop : bool;
  showNotice : bool;
  skipExtensions : list string;
}.

Definition DEFAULT_SETTINGS : ImageResizerSettings := {|
  maxWidth := 1920;
  maxHeight := 1080;
  jpegQuality := 85;
  convertToJpeg := false;
  resizeOnPaste := true;
  resizeOnDrop := true;
  showNotice := true;
  skipExtensions := [];
|}.

Definition IMAGE_EXTENSIONS : gset string :=
  {[ "png"; "jpg"; "jpeg"; "webp"; "bmp" ]}.

(** [filename.split(".").pop()?.toLowerCase() ?? ""] *)
Definition getExtension (filename : string) : string :=
  match pop (split_dot filename) with
  | Some seg => toLowerCase seg
  | None => ""
  end.

Definition isImageFile (filename : string) : bool :=
  let ext := match pop (split_dot filename) with
             | Some seg => toLowerCase seg
             | None => ""
             end in
  bool_decide (ext ∈ IMAGE_EXTENSIONS).

Record ResizeResult := {
  data : bytes;
  width : Z;
  height : Z;
  originalWidth : Z;
  originalHeight : Z;
  newExtension : option string;
}.

Definition getMimeType (ext : string) : string :=
  if String.eqb ext "png" then "image/png"
  else if String.eqb ext "jpg" then "image/jpeg"
  else if String.eqb ext "jpeg" then "image/jpeg"
  else if String.eqb ext "webp" then "image/webp"
  else if String.eqb ext "bmp" then "image/bmp"
  else "image/png".

Record Dimensions := { dim_width : Z; dim_height : Z }.

(** The value of the local variable [scale] of [calculateDimensions] when
    the function reaches its test [scale >= 1]. *)
Definition computedScale (origWidth origHeight maxWidth maxHeight : Z) : Q :=
  let scale := 1%Q in
  let scale :=
    if (0 <? maxWidth)%Z && (maxWidth <? origWidth)%Z
    then Number.Math_min scale
           (Number.div (inject_Z maxWidth) (inject_Z origWidth))
    else scale in
  let scale :=
    if (0 <? maxHeight)%Z && (maxHeight <? origHeight)%Z
    then Number.Math_min scale
           (Number.div (inject_Z maxHeight) (inject_Z origHeight))
    else scale in
  scale.

(** [calculateDimensions] (resizer.ts 63-88): [None] is the [null] of "no
    resize needed".  The sizes are those of a decoded image
    ([naturalWidth], [naturalHeight]: unsigned 32-bit integers) and the
    limits are the integers of the settings. *)
Definition calculateDimensions (origWidth origHeight maxWidth maxHeight : Z)
  : option Dimensions :=
  let scale := computedScale origWidth origHeight maxWidth maxHeight in
  if Qle_bool 1 scale then None
  else Some {|
    dim_width := Number.Math_round (Number.mul (inject_Z origWidth) scale);
    dim_height := Number.Math_round (Number.mul (inject_Z origHeight) scale);
  |}.

(** The same planner on the Standard Library's binary64 operations
    ([SpecFloat]), to compare the rounding model with. *)
Definition calculateDimensions_binary64
    (origWidth origHeight maxWidth maxHeight : Z) : option Dimensions :=
  let min a b :=
    match Qcompare (Number.SF2Q a) (Number.SF2Q b) with
    | Gt => b
    | _ => a
    end in
  let scale := Number.SFofZ 1 in
  let scale :=
    if (0 <? maxWidth)%Z && (maxWidth <? origWidth)%Z
    then min scale
           (SFdiv 53 1024 (Number.SFofZ maxWidth) (Number.SFofZ origWidth))
    else scale in
  let scale :=
    if (0 <? maxHeight)%Z && (maxHeight <? origHeight)%Z
    then min scale
           (SFdiv 53 1024 (Number.SFofZ maxHeight) (Number.SFofZ origHeight))
    else scale in
  if Qle_bool 1 (Number.SF2Q scale) then None
  else Some {|
    dim_width :=
      Number.Math_round
        (Number.SF2Q (SFmul 53 1024 (Number.SFofZ origWidth) scale));
    dim_height :=
      Number.Math_round
        (Number.SF2Q (SFmul 53 1024 (Number.SFofZ origHeight) scale));
  |}.

Definition same_plan (a b : option Dimensions) : bool :=
  match a, b with
  | None, None => true
  | Some x, Some y =>
      (dim_width x =? dim_width y)%Z && (dim_height x =? dim_height y)%Z
  | _, _ => false
  end.

(** Sizes and limits on which the two planners are compared. *)
Definition sample_sizes : list Z :=
  [1; 3; 7; 1000; 1081; 1921; 2160; 4000; 4294967295]%Z.

Definition sample_limits : list Z :=
  [0; 1; 3; 1080; 1920]%Z.

Definition planners_agree : bool :=
  forallb (fun w =>
    forallb (fun h =>
      forallb (fun mw =>
        forallb (fun mh =>
          same_plan (calculateDimensions w h mw mh)
                    (calculateDimensions_binary64 w h mw mh))
          sample_limits) sample_limits) sample_sizes) sample_sizes.

(** Exceptions of the engine. *)
Inductive error :=
  | LoadFailed          (* "Failed to load image: ..." *)
  | NoContext           (* "Failed to get canvas 2D context" *)
  | ToBlobNull          (* "Canvas toBlob returned null" *)
  | StorageError.       (* a rejected vault call *)

Inductive result (A : Type) :=
  | Ok (a : A)
  | Throw (e : error).
Arguments Ok {A} a.
Arguments Throw {A} e.

(** What [resizeImage] asks of the browser: decoding through an image
    element, a canvas with a 2D context, and [canvas.toBlob]. *)
Class Browser := {
  HTMLImageElement : Type;
  naturalWidth : HTMLImageElement -> Z;
  naturalHeight : HTMLImageElement -> Z;
  (** [loadImage]: [None] when [img.onerror] fires. *)
  loadImage : bytes -> string -> option HTMLImageElement;
  (** [canvas.getContext("2d")] is not null for a canvas of this size. *)
  getContext : Z -> Z -> bool;
  (** [ctx.drawImage] to a canvas of the given size, then [canvas.toBlob]
      with a mime type and a quality ([None] is [undefined]) and
      [blob.arrayBuffer()]; [None] when the blob is null. *)
  toBlob : HTMLImageElement -> Z -> Z -> string -> option Q -> option bytes;
}.

Section Engine.
Context `{Browser}.

(** [resizeImage] (resizer.ts 94-163) *)
Definition resizeImage (input : bytes) (filename : string)
    (settings : ImageResizerSettings) : result (option ResizeResult) :=
  let ext := getExtension filename in
  let mimeType := getMimeType ext in
  match loadImage input mimeType with
  | None => Throw LoadFailed
  | Some img =>
      match calculateDimensions (naturalWidth img) (naturalHeight img)
              (maxWidth settings) (maxHeight settings) with
      | None => Ok None
      | Some newDims =>
          if negb (getContext (dim_width newDims) (dim_height newDims))
          then Throw NoContext
          else
            let '(outputMime, newExt) :=
              if convertToJpeg settings && String.eqb ext "png"
              then ("image/jpeg", Some "jpg")
              else (mimeType, None) in
            let quality :=
              if String.eqb outputMime "image/png" then None
              else Some (Number.div (inject_Z (jpegQuality settings)) 100) in
            match toBlob img (dim_width newDims) (dim_height newDims)
                    outputMime quality with
            | None => Throw ToBlobNull
            | Some resizedBuffer =>
                Ok (Some {|
                  data := resizedBuffer;
                  width := dim_width newDims;
                  height := dim_height newDims;
                  originalWidth := naturalWidth img;
                  originalHeight := naturalHeight img;
                  newExtension := newExt;
                |})
            end
      end
  end.

End Engine.

End Resizer.


(* ===================================================================== *)
(** * main.ts *)
(* ===================================================================== *)

Module Main.
Import JsString Resizer.
Local Open Scope string_scope.

(** ** The host: files, the vault, timers *)

(** The fields of a [TFile] the plugin reads.  A file is the value of
    these fields: the host renaming a file while a timer or an invocation
    holds it is outside the embedding. *)
Record TFile := {
  path : string;
  name : string;
  parent : option string;     (* [file.parent?.path] *)
}.

(** A [TAbstractFile] stored at a path: a file with its bytes, or a
    folder. *)
Inductive entry :=
  | FileEntry (content : bytes)
  | FolderEntry.

(** [vault.readBinary(file)] *)
Definition readBinary (v : gmap string entry) (file : TFile) : result bytes :=
  match v !! path file with
  | Some (FileEntry content) => Ok content
  | _ => Throw StorageError
  end.

(** [vault.modifyBinary(file, data)] *)
Definition modifyBinary (v : gmap string entry) (file : TFile) (d : bytes)
  : result (gmap string entry) :=
  match v !! path file with
  | Some (FileEntry _) => Ok (<[path file := FileEntry d]> v)
  | _ => Throw StorageError
  end.

(** [vault.getAbstractFileByPath(p)]: [None] is [null]. *)
Definition getAbstractFileByPath (v : gmap string entry) (p : string)
  : option entry := v !! p.

(** [fileManager.renameFile(file, newPath)]: the entry moves to the new
    path.  The host also rewrites the links to the file in the notes that
    refer to it; the text of notes is not part of the embedding, so that
    what is said about other entries is said of runs without a rename. *)
Definition renameFile (v : gmap string entry) (file : TFile) (newPath : string)
  : result (gmap string entry) :=
  match v !! path file, v !! newPath with
  | Some e, None => Ok (<[newPath := e]> (delete (path file) v))
  | _, _ => Throw StorageError
  end.

(** [vault.createBinary(p, data)] *)
Definition createBinary (v : gmap string entry) (p : string) (d : bytes)
  : result (gmap string entry) :=
  match v !! p with
  | None => Ok (<[p := FileEntry d]> v)
  | Some _ => Throw StorageError
  end.

(** The closures the plugin hands to [setTimeout]. *)
Inductive callback :=
  | DebounceFire (file : TFile)       (* scheduleResize, 500 ms *)
  | PasteRelease (fullPath : string)  (* pasteFullSize, 2000 ms *)
  | ProcessRelease (file : TFile)     (* processFile finally, 1000 ms *)
  | BatchRelease (file : TFile).      (* batchResize finally, 1000 ms *)

Record Timer := {
  handle : Z;
  deadline : Z;
  action : callback;
}.

Inductive notice :=
  | NoImagesFound (scope : string)
  | Scanning (count : nat) (scope : string)
  | BatchSummary (resizedCount skippedCount errorCount : nat)
  | ImageResized (originalWidth originalHeight width height : Z)
                 (originalKB newKB : Z)
  | FailedToProcess (filename : string)
  | NoImageOnClipboard
  | PastedFullSize (kb : Z)
  | FailedToPaste
  | NoActiveFile
  | NoCurrentFolder.

(** Which path of the plugin calls the resize engine. *)
Inductive caller := EventPath | BatchPath.

(** Calls that leave the plugin, in the order they are made. *)
Inductive effect :=
  | EnterProcessFile (file : TFile)
  | CallReadBinary (file : TFile)
  | CallResizeImage (from : caller) (file : TFile) (input : bytes)
  | CallModifyBinary (file : TFile) (d : bytes)
  | CallRenameFile (file : TFile) (newPath : string)
  | CallCreateBinary (p : string) (d : bytes)
  | ShowNotice (n : notice)
  | ConsoleError (p : string).

(** ** The plugin instance and its surroundings *)

Record World := {
  (* fields of [ImageResizerPlugin] *)
  settings : ImageResizerSettings;
  processing : gset string;
  pending : gmap string Z;
  ready : bool;
  (* the host *)
  vault : gmap string entry;
  timers : list Timer;        (* armed timers, oldest first *)
  nextHandle : Z;
  now : Z;                    (* milliseconds *)
  trace : list effect;
}.

Definition with_processing (f : gset string -> gset string) (w : World) :=
  {| settings := settings w; processing := f (processing w);
     pending := pending w; ready := ready w; vault := vault w;
     timers := timers w; nextHandle := nextHandle w; now := now w;
     trace := trace w |}.

Definition with_pending (f : gmap string Z -> gmap string Z) (w : World) :=
  {| settings := settings w; processing := processing w;
     pending := f (pending w); ready := ready w; vault := vault w;
     timers := timers w; nextHandle := nextHandle w; now := now w;
     trace := trace w |}.

Definition with_ready (b : bool) (w : World) :=
  {| settings := settings w; processing := processing w;
     pending := pending w; ready := b; vault := vault w;
     timers := timers w; nextHandle := nextHandle w; now := now w;
     trace := trace w |}.

Definition with_vault (v : gmap string entry) (w : World) :=
  {| settings := settings w; processing := processing w;
     pending := pending w; ready := ready w; vault := v;
     timers := timers w; nextHandle := nextHandle w; now := now w;
     trace := trace w |}.

Definition with_timers (f : list Timer -> list Timer) (w : World) :=
  {| settings := settings w; processing := processing w;
     pending := pending w; ready := ready w; vault := vault w;
     timers := f (timers w); nextHandle := nextHandle w; now := now w;
     trace := trace w |}.

Definition with_nextHandle (h : Z) (w : World) :=
  {| settings := settings w; processing := processing w;
     pending := pending w; ready := ready w; vault := vault w;
     timers := timers w; nextHandle := h; now := now w;
     trace := trace w |}.

Definition with_now (t : Z) (w : World) :=
  {| settings := settings w; processing := processing w;
     pending := pending w; ready := ready w; vault := vault w;
     timers := timers w; nextHandle := nextHandle w; now := t;
     trace := trace w |}.

Definition with_trace (f : list effect -> list effect) (w : World) :=
  {| settings := settings w; processing := processing w;
     pending := pending w; ready := ready w; vault := vault w;
     timers := timers w; nextHandle := nextHandle w; now := now w;
     trace := f (trace w) |}.

Definition with_settings (s : ImageResizerSettings) (w : World) :=
  {| settings := s; processing := processing w;
     pending := pending w; ready := ready w; vault := vault w;
     timers := timers w; nextHandle := nextHandle w; now := now w;
     trace := trace w |}.

(** ** Computations: state and exceptions *)

(** Every [async] function is run to completion in one turn of the event
    loop: the embedding follows the schedule in which no other callback
    runs while the function awaits. *)
Definition M (A : Type) : Type := World -> result A * World.

#[global] Instance M_ret : MRet M := fun A a w => (Ok a, w).

#[global] Instance M_bind : MBind M := fun A B k m w =>
  match m w with
  | (Ok a, w') => k a w'
  | (Throw e, w') => (Throw e, w')
  end.

Definition get : M World := fun w => (Ok w, w).
Definition update (f : World -> World) : M unit := fun w => (Ok tt, f w).
Definition lift {A : Type} (r : result A) : M A := fun w => (r, w).

(** [try { body } catch (err) { handler }] *)
Definition try_catch {A : Type} (body : M A) (handler : error -> M A) : M A :=
  fun w =>
    match body w with
    | (Ok a, w') => (Ok a, w')
    | (Throw e, w') => handler e w'
    end.

(** [try { body } finally { fin }] for a [fin] that does not throw. *)
Definition finally {A : Type} (body : M A) (fin : M unit) : M A :=
  fun w =>
    match body w with
    | (r, w') => (r, snd (fin w'))
    end.

Definition emit (e : effect) : M unit :=
  update (with_trace (fun t => (t ++ [e])%list)).

(** [this.processing.add(p)] and [this.processing.delete(p)] *)
Definition processing_add (p : string) : M unit :=
  update (with_processing (fun s => {[p]} ∪ s)).
Definition processing_delete (p : string) : M unit :=
  update (with_processing (fun s => s ∖ {[p]})).

(** [setTimeout(cb, delay)]: a fresh positive handle. *)
Definition setTimeout (cb : callback) (delay : Z) : M Z :=
  fun w =>
    let h := nextHandle w in
    (Ok h,
     with_nextHandle (h + 1)
       (with_timers
          (fun ts => (ts ++ [{| handle := h; deadline := now w + delay;
                                action := cb |}])%list) w)).

Definition clearTimeout (h : Z) : M unit :=
  update (with_timers (filter (fun t => handle t ≠ h))).

(** Truthiness of a timer handle taken from the map. *)
Definition truthy_handle (h : Z) : bool := negb (h =? 0)%Z.

Definition vault_readBinary (file : TFile) : M bytes :=
  emit (CallReadBinary file);;
  w ← get;
  lift (readBinary (vault w) file).

Definition vault_modifyBinary (file : TFile) (d : bytes) : M unit :=
  emit (CallModifyBinary file d);;
  w ← get;
  v ← lift (modifyBinary (vault w) file d);
  update (with_vault v).

Definition vault_renameFile (file : TFile) (newPath : string) : M unit :=
  emit (CallRenameFile file newPath);;
  w ← get;
  v ← lift (renameFile (vault w) file newPath);
  update (with_vault v).

Definition vault_createBinary (p : string) (d : bytes) : M unit :=
  emit (CallCreateBinary p d);;
  w ← get;
  v ← lift (createBinary (vault w) p d);
  update (with_vault v).

(** [Math.round(buffer.byteLength / 1024)] *)
Definition kilobytes (d : bytes) : Z :=
  Number.Math_round (Number.div (inject_Z (Z.of_nat (length d))) 1024).

(** [sleep(ms)]: the clock advances.  An [async] function runs as one
    step of the event loop: a timer that falls due during an [await]
    fires once the function has returned. *)
Definition sleep (ms : Z) : M unit :=
  update (fun w => with_now (now w + ms) w).

Section Plugin.
Context `{Browser}.

Definition call_resizeImage (from : caller) (file : TFile) (input : bytes)
  : M (option ResizeResult) :=
  emit (CallResizeImage from file input);;
  w ← get;
  lift (resizeImage input (name file) (settings w)).

(** ** [scheduleResize] (main.ts 116-133) *)
Definition scheduleResize (file : TFile) : M unit :=
  w ← get;
  if negb (ready w) then mret tt
  else if negb (isImageFile (name file)) then mret tt
  else if bool_decide (path file ∈ processing w) then mret tt
  else
    match pending w !! path file with
    | Some existing =>
        if truthy_handle existing then clearTimeout existing else mret tt
    | None => mret tt
    end;;
    timer ← setTimeout (DebounceFire file) 500;
    update (with_pending (fun m => <[path file := timer]> m)).

(** The write-back of [processFile] (main.ts 288-307). *)
Definition writeBack_single (file : TFile) (r : ResizeResult) : M unit :=
  if truthy (newExtension r) then
    let newName :=
      replace_ext (name file) ("." ++ default "" (newExtension r)) in
    let newPath := replace_str (path file) (name file) newName in
    vault_modifyBinary file (data r);;
    w ← get;
    match getAbstractFileByPath (vault w) newPath with
    | None =>
        processing_add newPath;;
        vault_renameFile file newPath
    | Some _ => mret tt
    end
  else vault_modifyBinary file (data r).

(** ** [processFile] (main.ts 267-335) *)
Definition processFile_body (file : TFile) : M unit :=
  w ← get;
  if bool_decide (path file ∈ processing w) then mret tt
  else if negb (isImageFile (name file)) then mret tt
  else if negb (resizeOnPaste (settings w)) && negb (resizeOnDrop (settings w))
  then mret tt
  else
    processing_add (path file);;
    finally
      (try_catch
         (input ← vault_readBinary file;
          result ← call_resizeImage EventPath file input;
          match result with
          | None => mret tt
          | Some r =>
              writeBack_single file r;;
              w ← get;
              if showNotice (settings w)
              then emit (ShowNotice
                           (ImageResized (originalWidth r) (originalHeight r)
                              (width r) (height r)
                              (kilobytes input) (kilobytes (data r))))
              else mret tt
          end)
         (fun err =>
            emit (ConsoleError (path file));;
            w ← get;
            if showNotice (settings w)
            then emit (ShowNotice (FailedToProcess (name file)))
            else mret tt))
      (setTimeout (ProcessRelease file) 1000;; mret tt).

(** The invocation is recorded in the trace, then the body runs. *)
Definition processFile (file : TFile) : M unit :=
  emit (EnterProcessFile file);;
  processFile_body file.

(** ** Timer callbacks *)

(** The release callbacks read [file.path] and [file.name] when they
    fire; here they use the fields the file had when the timer was armed,
    which are the same unless the file was renamed in between. *)
Definition run_callback (cb : callback) : M unit :=
  match cb with
  | DebounceFire file =>
      update (with_pending (fun m => delete (path file) m));;
      processFile file
  | PasteRelease fullPath => processing_delete fullPath
  | ProcessRelease file =>
      processing_delete (path file);;
      w ← get;
      if convertToJpeg (settings w) && String.eqb (getExtension (name file)) "png"
      then processing_delete (replace_ext (path file) ".jpg")
      else mret tt
  | BatchRelease file => processing_delete (path file)
  end.

(** ** [batchResize] (main.ts 371-429) *)

(** The write-back of [batchResize] (main.ts 395-408). *)
Definition writeBack_batch (file : TFile) (r : ResizeResult) : M unit :=
  if truthy (newExtension r) then
    let newPath :=
      replace_ext (path file) ("." ++ default "" (newExtension r)) in
    vault_modifyBinary file (data r);;
    w ← get;
    match getAbstractFileByPath (vault w) newPath with
    | None =>
        processing_add newPath;;
        vault_renameFile file newPath
    | Some _ => mret tt
    end
  else vault_modifyBinary file (data r).

Record counters := {
  resizedCount : nat;
  skippedCount : nat;
  errorCount : nat;
}.

(** Which of the three counters one iteration of the loop increments. *)
Inductive outcome := Resized | Skipped | Errored.

Definition count (o : outcome) (c : counters) : counters :=
  match o with
  | Resized => {| resizedCount := S (resizedCount c);
                  skippedCount := skippedCount c;
                  errorCount := errorCount c |}
  | Skipped => {| resizedCount := resizedCount c;
                  skippedCount := S (skippedCount c);
                  errorCount := errorCount c |}
  | Errored => {| resizedCount := resizedCount c;
                  skippedCount := skippedCount c;
                  errorCount := S (errorCount c) |}
  end.

(** One iteration of [for (const file of files)]: the [try] block ends
    with [resizedCount++] and a [sleep] that cannot throw, or leaves with
    [skippedCount++; continue]; [catch] does [errorCount++]. *)
Definition batchStep (file : TFile) : M outcome :=
  finally
    (try_catch
       (input ← vault_readBinary file;
        result ← call_resizeImage BatchPath file input;
        match result with
        | None => mret Skipped
        | Some r =>
            processing_add (path file);;
            writeBack_batch file r;;
            sleep 100;;
            mret Resized
        end)
       (fun err =>
          emit (ConsoleError (path file));;
          mret Errored))
    (setTimeout (BatchRelease file) 1000;; mret tt).

Fixpoint batchLoop (files : list TFile) (c : counters) : M counters :=
  match files with
  | [] => mret c
  | file :: rest =>
      o ← batchStep file;
      batchLoop rest (count o c)
  end.

Definition batchResize (files : list TFile) (scope : string) : M unit :=
  if (length files =? 0)%nat then emit (ShowNotice (NoImagesFound scope))
  else
    emit (ShowNotice (Scanning (length files) scope));;
    c ← batchLoop files
          {| resizedCount := 0; skippedCount := 0; errorCount := 0 |};
    emit (ShowNotice
            (BatchSummary (resizedCount c) (skippedCount c) (errorCount c))).

(** [resizeAllImages], given what [vault.getFiles()] returns. *)
Definition resizeAllImages (getFiles : list TFile) : M unit :=
  batchResize (filter (fun f => isImageFile (name f) = true) getFiles) "vault".

(** [resizeImagesInCurrentFolder], given [workspace.getActiveFile()] and
    [vault.getFiles()]. *)
Definition resizeImagesInCurrentFolder (activeFile : option TFile)
    (getFiles : list TFile) : M unit :=
  match activeFile with
  | None => emit (ShowNotice NoActiveFile)
  | Some active =>
      match parent active with
      | None => emit (ShowNotice NoCurrentFolder)
      | Some folder =>
          batchResize
            (filter (fun f => parent f = Some folder
                              ∧ isImageFile (name f) = true) getFiles)
            folder
      end
  end.

(** [pasteFullSize] (main.ts 139-207), given the image found on the
    clipboard and the full path built from the attachment folder and the
    generated file name. *)
Definition pasteFullSize (imageBlob : option bytes) (fullPath : string)
  : M unit :=
  try_catch
    (match imageBlob with
     | None => emit (ShowNotice NoImageOnClipboard)
     | Some buffer =>
         processing_add fullPath;;
         vault_createBinary fullPath buffer;;
         w ← get;
         (if showNotice (settings w)
          then emit (ShowNotice (PastedFullSize (kilobytes buffer)))
          else mret tt);;
         setTimeout (PasteRelease fullPath) 2000;;
         mret tt
     end)
    (fun err =>
       emit (ConsoleError fullPath);;
       emit (ShowNotice FailedToPaste)).

(** [onunload] (main.ts 95-102) *)
Definition onunload : M unit :=
  w ← get;
  update (with_timers
            (filter (fun t => handle t ∉ (map_to_list (pending w)).*2)));;
  update (with_pending (fun _ => ∅));;
  update (with_processing (fun _ => ∅)).

(** ** The event loop *)

(** The timer armed under a handle. *)
Definition find_timer (h : Z) (ts : list Timer) : option Timer :=
  List.find (fun t => (handle t =? h)%Z) ts.

(** The timer with handle [h] fires if it is still armed: it is disarmed
    and its callback runs.  What the callback returns or throws is
    dropped, as the event loop does. *)
Definition fire (h : Z) (w : World) : World :=
  match find_timer h (timers w) with
  | Some t =>
      snd (run_callback (action t)
             (with_timers (filter (fun t' => handle t' ≠ h)) w))
  | None => w
  end.

Definition fire_all (hs : list Z) (w : World) : World :=
  fold_left (fun w h => fire h w) hs w.

(** Timers in the order they fire: by deadline, and in the order they were
    armed when the deadlines are equal. *)
Fixpoint insert_timer (t : Timer) (ts : list Timer) : list Timer :=
  match ts with
  | [] => [t]
  | t' :: rest =>
      if (deadline t <? deadline t')%Z then t :: ts
      else t' :: insert_timer t rest
  end.

Definition by_deadline (ts : list Timer) : list Timer :=
  fold_left (fun acc t => insert_timer t acc) ts [].

(** One millisecond passes and the timers that are due fire. *)
Definition tick (w : World) : World :=
  let w1 := with_now (now w + 1) w in
  fire_all
    (handle <$> by_deadline
                  (filter (fun t => (deadline t <=? now w1)%Z = true)
                     (timers w1)))
    w1.

Definition elapse (ms : nat) (w : World) : World := Nat.iter ms tick w.

(** What the host can make the plugin do. *)
Inductive input :=
  | LayoutReady
  | VaultCreate (file : TFile)
  | VaultModify (file : TFile)
  | Elapse (ms : nat)
  | CmdResizeAll (getFiles : list TFile)
  | CmdResizeFolder (activeFile : option TFile) (getFiles : list TFile)
  | CmdPasteFullSize (imageBlob : option bytes) (fullPath : string)
  | Unload
  | SettingsChanged (s : ImageResizerSettings)
  | VaultChanged (v : gmap string entry).

Definition step (w : World) (i : input) : World :=
  match i with
  | LayoutReady => with_ready true w
  | VaultCreate file => snd (scheduleResize file w)
  | VaultModify file => snd (scheduleResize file w)
  | Elapse ms => elapse ms w
  | CmdResizeAll getFiles => snd (resizeAllImages getFiles w)
  | CmdResizeFolder activeFile getFiles =>
      snd (resizeImagesInCurrentFolder activeFile getFiles w)
  | CmdPasteFullSize imageBlob fullPath =>
      snd (pasteFullSize imageBlob fullPath w)
  | Unload => snd (onunload w)
  | SettingsChanged s => with_settings s w
  | VaultChanged v => with_vault v w
  end.

Definition run (w : World) (inputs : list input) : World :=
  fold_left step inputs w.

(** The plugin as constructed, before [onload] has seen the layout ready. *)
Definition initial (s : ImageResizerSettings) (v : gmap string entry) : World :=
  {| settings := s; processing := ∅; pending := ∅; ready := false;
     vault := v; timers := []; nextHandle := 1; now := 0; trace := [] |}.

End Plugin.

End Main.

(* ===================================================================== *)
(** * Properties of computations *)
(* ===================================================================== *)

Module Props.
Import Resizer Main.

(** [m] keeps the property [I] of the world and adds to the trace only
    effects that satisfy [P]. *)
Definition sound {A : Type} (I : World -> Prop) (P : effect -> Prop)
    (m : M A) : Prop :=
  forall w, I w ->
    I (snd (m w)) /\
    exists l, trace (snd (m w)) = trace w ++ l /\ Forall P l.

(** The same for a step of the event loop. *)
Definition wsound (I : World -> Prop) (P : effect -> Prop)
    (f : World -> World) : Prop :=
  forall w, I w ->
    I (f w) /\
    exists l, trace (f w) = trace w ++ l /\ Forall P l.

(** A property of the world that only the debounce timers and the pending
    map can break. *)
Record stable (I : World -> Prop) : Prop := {
  stable_trace : forall f w, I w -> I (with_trace f w);
  stable_processing : forall f w, I w -> I (with_processing f w);
  stable_vault : forall v w, I w -> I (with_vault v w);
  stable_now : forall t w, I w -> I (with_now t w);
  stable_ready : forall b w, I w -> I (with_ready b w);
  stable_settings : forall s w, I w -> I (with_settings s w);
  stable_setTimeout : forall cb delay w,
    (forall f, cb <> DebounceFire f) -> I w -> I (snd (setTimeout cb delay w));
}.

(** [t] is a debounce timer armed for the path [p]. *)
Definition is_debounce (p : string) (t : Timer) : bool :=
  match action t with
  | DebounceFire f => String.eqb (path f) p
  | _ => false
  end.

(** The debounce timers that are armed for a path. *)
Definition debounce_timers (p : string) (w : World) : list Timer :=
  filter (fun t => is_debounce p t = true) (timers w).

(** Handles are positive, fresh and distinct, every armed debounce timer
    is the one the pending map holds for its path, and the pending map
    holds handles that were handed out. *)
Record Inv (w : World) : Prop := {
  inv_next : (0 < nextHandle w)%Z;
  inv_range : forall t, t ∈ timers w -> (0 < handle t < nextHandle w)%Z;
  inv_nodup : NoDup (handle <$> timers w);
  inv_pending : forall t f, t ∈ timers w -> action t = DebounceFire f ->
                            pending w !! path f = Some (handle t);
  inv_recorded : forall p h, pending w !! p = Some h ->
                             (0 < h < nextHandle w)%Z;
}.

(** Every entry of the pending map is the handle of an armed debounce
    timer of its path. *)
Definition Backed (w : World) : Prop :=
  forall p h, pending w !! p = Some h ->
    exists t f, t ∈ timers w /\ handle t = h /\
                action t = DebounceFire f /\ path f = p.

(** No debounce timer is armed. *)
Definition NoDebounce (w : World) : Prop :=
  forall t f, t ∈ timers w -> action t <> DebounceFire f.

(** The files [processFile] was invoked on, in order. *)
Fixpoint invocations (tr : list effect) : list TFile :=
  match tr with
  | [] => []
  | EnterProcessFile f :: rest => f :: invocations rest
  | _ :: rest => invocations rest
  end.

(** What [processFile] can add to the trace after its entry. *)
Definition processFile_effect (file : TFile) (e : effect) : Prop :=
  match e with
  | CallReadBinary f => f = file
  | CallResizeImage from f _ => from = EventPath /\ f = file
  | CallModifyBinary f _ => f = file
  | CallRenameFile f _ => f = file
  | ShowNotice (ImageResized _ _ _ _ _ _) => True
  | ShowNotice (FailedToProcess _) => True
  | ConsoleError _ => True
  | _ => False
  end.

(** What one iteration of the batch loop can add to the trace. *)
Definition batchStep_effect (file : TFile) (e : effect) : Prop :=
  match e with
  | CallReadBinary f => f = file
  | CallResizeImage from f _ => from = BatchPath /\ f = file
  | CallModifyBinary f _ => f = file
  | CallRenameFile f _ => f = file
  | ConsoleError _ => True
  | _ => False
  end.

(** What the batch loop can add to the trace. *)
Definition batch_effect (e : effect) : Prop :=
  exists file, batchStep_effect file e.

(** An effect other than an invocation of [processFile]. *)
Definition not_entry (e : effect) : Prop :=
  forall f, e <> EnterProcessFile f.

(** The aggregate reports of batch runs in a trace: the summary, or the
    notice that there was nothing to scan. *)
Fixpoint reports (tr : list effect) : list notice :=
  match tr with
  | [] => []
  | ShowNotice (BatchSummary r s e) :: rest =>
      BatchSummary r s e :: reports rest
  | ShowNotice (NoImagesFound scope) :: rest =>
      NoImagesFound scope :: reports rest
  | _ :: rest => reports rest
  end.

(** The counters before the loop, and their sum. *)
Definition no_counts : counters :=
  {| resizedCount := 0; skippedCount := 0; errorCount := 0 |}.

Definition total (c : counters) : nat :=
  resizedCount c + skippedCount c + errorCount c.

Section Batch.
Context `{Browser}.

(** Which counter the loop increments for a file, from what the vault and
    the engine answer. *)
Definition classify (w : World) (file : TFile) : outcome :=
  match readBinary (vault w) file with
  | Throw _ => Errored
  | Ok input =>
      match resizeImage input (name file) (settings w) with
      | Throw _ => Errored
      | Ok None => Skipped
      | Ok (Some _) => Resized
      end
  end.

(** The outcomes of a run of the loop, file by file. *)
Fixpoint batchOutcomes (files : list TFile) (w : World) : list outcome :=
  match files with
  | [] => []
  | file :: rest =>
      classify w file :: batchOutcomes rest (snd (batchStep file w))
  end.

End Batch.

(** The rename targets the two paths derive for a PNG turned into JPEG. *)
Definition target_single (file : TFile) : string :=
  JsString.replace_str (path file) (name file)
    (JsString.replace_ext (name file) ".jpg").

Definition target_batch (file : TFile) : string :=
  JsString.replace_ext (path file) ".jpg".

(** The two steps of an accepted [scheduleResize]: the timer the pending
    map holds for the path is cleared, then a new one is armed and
    recorded. *)
Definition disarm_existing (file : TFile) (w : World) : World :=
  match pending w !! path file with
  | Some existing =>
      if truthy_handle existing
      then with_timers (filter (fun t => handle t ≠ existing)) w
      else w
  | None => w
  end.

Definition arm (file : TFile) (w : World) : World :=
  with_pending (fun m => <[path file := nextHandle w]> m)
    (with_nextHandle (nextHandle w + 1)
       (with_timers
          (fun ts => ts ++ [{| handle := nextHandle w;
                               deadline := now w + 500;
                               action := DebounceFire file |}]) w)).

(** The gates of [scheduleResize] are open for a file. *)
Definition open_for (file : TFile) (w : World) : Prop :=
  ready w = true /\ isImageFile (name file) = true /\
  (path file ∉ processing w) /\ (0 < nextHandle w)%Z.

(** The only armed timer is the debounce timer of [file], due at [due]
    and recorded in the pending map. *)
Definition armed_until (file : TFile) (due : Z) (w : World) : Prop :=
  exists t, timers w = [t] /\ action t = DebounceFire file /\
            deadline t = due /\
            pending w !! path file = Some (handle t) /\
            (0 < handle t < nextHandle w)%Z.

(** A burst of events for one file: the first event, then for each gap a
    pause of that many milliseconds and another event. *)
Definition event (create : bool) (file : TFile) : input :=
  if create then VaultCreate file else VaultModify file.

Definition burst (file : TFile) (first : bool) (more : list (nat * bool))
  : list input :=
  event first file
  :: flat_map (fun g => [Elapse (fst g); event (snd g) file]) more.

End Props.

(* ===================================================================== *)
(** * Vocabulary for paths *)
(* ===================================================================== *)

Module Paths.
Local Open Scope string_scope.

(** No "$" occurs in [s]: used as the replacement of [String.replace],
    [s] is then inserted as it is. *)
Fixpoint no_dollar (s : string) : bool :=
  match s with
  | EmptyString => true
  | String c rest => negb (Ascii.eqb c "$") && no_dollar rest
  end.

End Paths.

(* ===================================================================== *)
(** * Vocabulary for whole runs *)
(* ===================================================================== *)

Module Behaviour.
Import Resizer Main.

(** Nothing is armed, nothing is pending and nothing is guarded. *)
Definition idle (w : World) : Prop :=
  timers w = [] /\ pending w = ∅ /\ processing w = ∅.

(** Inputs that come from the vault or from the clock. *)
Definition is_file_event (i : input) : bool :=
  match i with
  | VaultCreate _ | VaultModify _ | Elapse _ => true
  | _ => false
  end.

(** The milliseconds that pass during a list of inputs. *)
Fixpoint elapsed (inputs : list input) : nat :=
  match inputs with
  | [] => 0
  | Elapse ms :: rest => ms + elapsed rest
  | _ :: rest => elapsed rest
  end.

(** A pause, or a file event that meets a closed gate of
    [scheduleResize] in [w]. *)
Definition dropped (w : World) (i : input) : Prop :=
  match i with
  | VaultCreate f | VaultModify f =>
      ready w = false \/ isImageFile (name f) = false
      \/ path f ∈ processing w
  | Elapse _ => True
  | _ => False
  end.

(** A pause, or a file event for the path [p]. *)
Definition about (p : string) (i : input) : Prop :=
  match i with
  | VaultCreate f | VaultModify f => path f = p
  | Elapse _ => True
  | _ => False
  end.

(** The input points the plugin to the path [p]: a file event for it, a
    batch command whose file list has an image stored under it, or a
    change of the vault by the host. *)
Definition names (p : string) (i : input) : Prop :=
  match i with
  | VaultCreate f | VaultModify f => path f = p
  | CmdResizeAll getFiles | CmdResizeFolder _ getFiles =>
      exists f, f ∈ getFiles /\ path f = p /\ isImageFile (name f) = true
  | VaultChanged _ => True
  | _ => False
  end.

(** The invocations of [processFile] on files stored under the path [p],
    in order. *)
Definition invoked (p : string) (tr : list effect) : list TFile :=
  filter (fun f => path f = p) (Props.invocations tr).

(** Inputs during which the events for [file] stay rapid: [since]
    milliseconds have passed since its last event, every pause ends less
    than 500 ms after that event, and every event for the file starts the
    count again.  Events for other paths, pastes, changes of the settings
    and changes of the vault by the host may come in between. *)
Fixpoint rapid (file : TFile) (since : nat) (inputs : list input) : Prop :=
  match inputs with
  | [] => True
  | Elapse ms :: rest => since + ms < 500 /\ rapid file (since + ms) rest
  | VaultCreate f :: rest | VaultModify f :: rest =>
      (f = file /\ rapid file 0 rest) \/
      (path f <> path file /\ rapid file since rest)
  | LayoutReady :: rest | CmdPasteFullSize _ _ :: rest
  | SettingsChanged _ :: rest | VaultChanged _ :: rest =>
      rapid file since rest
  | _ => False
  end.

(** In the middle of a burst: the debounce timer [t] of [file] is armed in
    a world the plugin can be in, and [n] are the invocations for the path
    so far. *)
Definition waiting (file : TFile) (t : Timer) (n : list TFile) (w : World)
  : Prop :=
  Props.Inv w /\ Props.Backed w /\ t ∈ timers w /\
  action t = DebounceFire file /\ invoked (path file) (trace w) = n.

(** After the burst: no debounce timer is armed for the path [p], and [n]
    are the invocations for the path. *)
Definition settled (p : string) (n : list TFile) (w : World) : Prop :=
  Props.Inv w /\ Props.Backed w /\ Props.debounce_timers p w = [] /\
  invoked p (trace w) = n.

(** The input leaves convert-to-JPEG off. *)
Definition keeps_format (i : input) : Prop :=
  match i with
  | SettingsChanged s => convertToJpeg s = false
  | _ => True
  end.

(** Convert-to-JPEG is off. *)
Definition plain (w : World) : Prop := convertToJpeg (settings w) = false.

(** An effect other than a call of [renameFile]. *)
Definition not_rename (e : effect) : Prop :=
  match e with
  | CallRenameFile _ _ => False
  | _ => True
  end.

(** An effect that is neither a rename, nor a creation, nor an invocation
    of [processFile], and that names [file] when it is a call of the vault
    or of the engine. *)
Definition in_place (file : TFile) (e : effect) : Prop :=
  match e with
  | CallRenameFile _ _ | CallCreateBinary _ _ | EnterProcessFile _ => False
  | CallReadBinary f | CallModifyBinary f _ | CallResizeImage _ f _ =>
      f = file
  | ShowNotice _ | ConsoleError _ => True
  end.

(** No debounce timer is armed for the path [p]. *)
Definition unscheduled (p : string) (w : World) : Prop :=
  forall f, DebounceFire f ∈ action <$> timers w -> path f <> p.

(** An invocation of [processFile]. *)
Definition is_entry (e : effect) : Prop :=
  exists f, e = EnterProcessFile f.

(** The files read from the vault, in order. *)
Fixpoint reads (tr : list effect) : list TFile :=
  match tr with
  | [] => []
  | CallReadBinary f :: rest => f :: reads rest
  | _ :: rest => reads rest
  end.

(** The release timer [processFile] arms. *)
Definition release_timer (file : TFile) (w : World) : Timer :=
  {| handle := nextHandle w; deadline := now w + 1000;
     action := ProcessRelease file |}.

(** What the [catch] block of [processFile] logs and shows. *)
Definition failure_log (file : TFile) (w : World) : list effect :=
  ConsoleError (path file)
  :: if showNotice (settings w)
     then [ShowNotice (FailedToProcess (name file))] else [].

(** What [processFile] shows after a write-back. *)
Definition success_log (w : World) (input : bytes) (r : ResizeResult)
  : list effect :=
  if showNotice (settings w)
  then [ShowNotice (ImageResized (originalWidth r) (originalHeight r)
                      (width r) (height r)
                      (kilobytes input) (kilobytes (data r)))]
  else [].

Section Outcomes.
Context `{Browser}.

(** The ways an invocation of [processFile] that passed the gates can
    end: the vault, the guard set and the effects after the read. *)
Inductive accepted_outcome (file : TFile) (w : World)
  : gmap string entry -> gset string -> list effect -> Prop :=
  | ReadFailed (e : error) :
      readBinary (vault w) file = Throw e ->
      accepted_outcome file w (vault w) ({[path file]} ∪ processing w)
        (failure_log file w)
  | EngineFailed (input : bytes) (e : error) :
      readBinary (vault w) file = Ok input ->
      resizeImage input (name file) (settings w) = Throw e ->
      accepted_outcome file w (vault w) ({[path file]} ∪ processing w)
        (CallResizeImage EventPath file input :: failure_log file w)
  | WithinLimits (input : bytes) :
      readBinary (vault w) file = Ok input ->
      resizeImage input (name file) (settings w) = Ok None ->
      accepted_outcome file w (vault w) ({[path file]} ∪ processing w)
        [CallResizeImage EventPath file input]
  | WrittenBack (input : bytes) (r : ResizeResult) :
      readBinary (vault w) file = Ok input ->
      resizeImage input (name file) (settings w) = Ok (Some r) ->
      newExtension r = None
      \/ is_Some (<[path file := FileEntry (data r)]> (vault w)
                    !! Props.target_single file) ->
      accepted_outcome file w
        (<[path file := FileEntry (data r)]> (vault w))
        ({[path file]} ∪ processing w)
        (CallResizeImage EventPath file input
           :: CallModifyBinary file (data r) :: success_log w input r)
  | Renamed (input : bytes) (r : ResizeResult) :
      readBinary (vault w) file = Ok input ->
      resizeImage input (name file) (settings w) = Ok (Some r) ->
      newExtension r = Some "jpg"%string ->
      <[path file := FileEntry (data r)]> (vault w)
        !! Props.target_single file = None ->
      accepted_outcome file w
        (<[Props.target_single file := FileEntry (data r)]>
           (delete (path file)
              (<[path file := FileEntry (data r)]> (vault w))))
        ({[Props.target_single file]} ∪ ({[path file]} ∪ processing w))
        (CallResizeImage EventPath file input
           :: CallModifyBinary file (data r)
           :: CallRenameFile file (Props.target_single file)
           :: success_log w input r).

(** The ways one iteration of the batch loop can end: the vault, the
    guard set, the effects after the read, and the counter it
    increments. *)
Inductive batch_outcome (file : TFile) (w : World)
  : gmap string entry -> gset string -> list effect -> outcome -> Prop :=
  | BatchReadFailed (e : error) :
      readBinary (vault w) file = Throw e ->
      batch_outcome file w (vault w) (processing w)
        [ConsoleError (path file)] Errored
  | BatchEngineFailed (input : bytes) (e : error) :
      readBinary (vault w) file = Ok input ->
      resizeImage input (name file) (settings w) = Throw e ->
      batch_outcome file w (vault w) (processing w)
        [CallResizeImage BatchPath file input; ConsoleError (path file)]
        Errored
  | BatchWithinLimits (input : bytes) :
      readBinary (vault w) file = Ok input ->
      resizeImage input (name file) (settings w) = Ok None ->
      batch_outcome file w (vault w) (processing w)
        [CallResizeImage BatchPath file input] Skipped
  | BatchWrittenBack (input : bytes) (r : ResizeResult) :
      readBinary (vault w) file = Ok input ->
      resizeImage input (name file) (settings w) = Ok (Some r) ->
      newExtension r = None
      \/ is_Some (<[path file := FileEntry (data r)]> (vault w)
                    !! Props.target_batch file) ->
      batch_outcome file w
        (<[path file := FileEntry (data r)]> (vault w))
        ({[path file]} ∪ processing w)
        [CallResizeImage BatchPath file input;
         CallModifyBinary file (data r)] Resized
  | BatchRenamed (input : bytes) (r : ResizeResult) :
      readBinary (vault w) file = Ok input ->
      resizeImage input (name file) (settings w) = Ok (Some r) ->
      newExtension r = Some "jpg"%string ->
      <[path file := FileEntry (data r)]> (vault w)
        !! Props.target_batch file = None ->
      batch_outcome file w
        (<[Props.target_batch file := FileEntry (data r)]>
           (delete (path file)
              (<[path file := FileEntry (data r)]> (vault w))))
        ({[Props.target_batch file]} ∪ ({[path file]} ∪ processing w))
        [CallResizeImage BatchPath file input;
         CallModifyBinary file (data r);
         CallRenameFile file (Props.target_batch file)] Resized.

(** The pause after a write-back of the batch loop. *)
Definition stagger (o : outcome) : Z :=
  match o with
  | Resized => 100
  | _ => 0
  end.

End Outcomes.

End Behaviour.

(* ===================================================================== *)
(** * Pasting at full size: the clipboard and the attachment folder *)
(* ===================================================================== *)

Module Paste.
Import JsString Resizer Main.
Local Open Scope string_scope.

(** [type.startsWith("image/")] *)
Definition is_image_type (type : string) : bool :=
  match strip_prefix "image/" type with
  | Some _ => true
  | None => false
  end.

(** A [ClipboardItem]: its types in order, each with the bytes that
    [item.getType(type)] and [blob.arrayBuffer()] give. *)
Definition ClipboardItem : Type := list (string * bytes).

(** The inner loop of the search: the first type of the item that starts
    with "image/". *)
Definition find_in_item (item : ClipboardItem) : option (string * bytes) :=
  List.find (fun tb => is_image_type (fst tb)) item.

(** The outer loop: the first item that has such a type. *)
Fixpoint find_image (items : list ClipboardItem) : option (string * bytes) :=
  match items with
  | [] => None
  | item :: rest =>
      match find_in_item item with
      | Some found => Some found
      | None => find_image rest
      end
  end.

(** [extMap[mimeType]]: [None] is [undefined]. *)
Definition extMap (mimeType : string) : option string :=
  if String.eqb mimeType "image/png" then Some "png"
  else if String.eqb mimeType "image/jpeg" then Some "jpg"
  else if String.eqb mimeType "image/webp" then Some "webp"
  else if String.eqb mimeType "image/bmp" then Some "bmp"
  else None.

(** [`Pasted image ${timestamp}.${ext}`] with [ext = extMap[mimeType] ??
    "png"]; the timestamp is what [moment().format(...)] or
    [Date.now().toString()] gives. *)
Definition pasted_name (timestamp mimeType : string) : string :=
  "Pasted image " ++ timestamp ++ "." ++ default "png" (extMap mimeType).

(** [folderPath ? `${folderPath}/${filename}` : filename] *)
Definition full_path (folderPath filename : string) : string :=
  if nonempty folderPath then folderPath ++ "/" ++ filename else filename.

(** [s.substring(0, s.lastIndexOf("/"))] when [s] has a "/", else
    [None]. *)
Fixpoint before_last_slash (s : string) : option string :=
  match s with
  | EmptyString => None
  | String c rest =>
      match before_last_slash rest with
      | Some pre => Some (String c pre)
      | None => if Ascii.eqb c "/" then Some EmptyString else None
      end
  end.

(** [vault.createFolder(p)] *)
Definition createFolder (v : gmap string entry) (p : string)
  : result (gmap string entry) :=
  match v !! p with
  | None => Ok (<[p := FolderEntry]> v)
  | Some _ => Throw StorageError
  end.

Definition vault_createFolder (p : string) : M unit :=
  w ← get;
  v ← lift (createFolder (vault w) p);
  update (with_vault v).

(** [if (!vault.getAbstractFileByPath(folder)) await
    vault.createFolder(folder); return folder;] *)
Definition ensure_folder (folder : string) : M string :=
  w ← get;
  match getAbstractFileByPath (vault w) folder with
  | None => vault_createFolder folder
  | Some _ => mret tt
  end;;
  mret folder.

(** [getAttachmentFolder] (main.ts 213-262).  [available] is [None] when
    the vault has no method [getAvailablePathForAttachment], and otherwise
    what awaiting the call gives; [attachmentFolderPath] is
    [config?.attachmentFolderPath], [None] when it is undefined. *)
Definition getAttachmentFolder (available : option (result string))
    (attachmentFolderPath : option string) (activeFile : option TFile)
  : M string :=
  match available with
  | Some (Ok suggestedPath) =>
      mret (default "" (before_last_slash suggestedPath))
  | _ =>
      let attachmentSetting := default "/" attachmentFolderPath in
      if String.eqb attachmentSetting "/" then mret ""
      else
        match strip_prefix "./" attachmentSetting, activeFile ≫= parent with
        | Some relative, Some parentPath =>
            ensure_folder
              (if nonempty relative then parentPath ++ "/" ++ relative
               else parentPath)
        | _, _ => ensure_folder attachmentSetting
        end
  end.

(** [pasteFullSize] (main.ts 139-207) from the clipboard on.
    [clipboard] is what awaiting [navigator.clipboard.read()] gives.  The
    result is the text handed to [editor.replaceSelection], [None] when
    nothing is inserted. *)
Definition pasteFullSize_editor (clipboard : result (list ClipboardItem))
    (timestamp : string) (activeFile : option TFile)
    (available : option (result string))
    (attachmentFolderPath : option string) : M (option string) :=
  try_catch
    (clipboardItems ← lift clipboard;
     match find_image clipboardItems with
     | None => emit (ShowNotice NoImageOnClipboard);; mret None
     | Some (mimeType, buffer) =>
         let filename := pasted_name timestamp mimeType in
         folderPath ← getAttachmentFolder available attachmentFolderPath
                        activeFile;
         let fullPath := full_path folderPath filename in
         processing_add fullPath;;
         vault_createBinary fullPath buffer;;
         w ← get;
         (if showNotice (settings w)
          then emit (ShowNotice (PastedFullSize (kilobytes buffer)))
          else mret tt);;
         setTimeout (PasteRelease fullPath) 2000;;
         mret (Some ("![[" ++ filename ++ "]]"))
     end)
    (fun err =>
       emit (ConsoleError "[Image Resizer] Failed to paste full size image:");;
       emit (ShowNotice FailedToPaste);;
       mret None).

End Paste.

(* ===================================================================== *)
(** * A sample browser and vault *)
(* ===================================================================== *)

Module Sample.
Import Resizer Main.
Local Open Scope string_scope.

Definition byteZ (b : Byte.byte) : Z := Z.of_N (Byte.to_N b).

(** A browser whose images carry their size in their first two bytes, in
    hundreds of pixels, and whose canvas gives a null blob when an axis is
    zero. *)
#[local] Instance browser : Browser := {|
  HTMLImageElement := Z * Z;
  naturalWidth := fst;
  naturalHeight := snd;
  loadImage := fun input _ =>
    match input with
    | a :: b :: _ => Some (100 * byteZ a, 100 * byteZ b)%Z
    | _ => None
    end;
  getContext := fun _ _ => true;
  toBlob := fun _ w h _ _ =>
    if ((0 <? w) && (0 <? h))%Z
    then match Byte.of_N (Z.to_N (w / 100)), Byte.of_N (Z.to_N (h / 100)) with
         | Some a, Some b => Some [a; b]
         | _, _ => None
         end
    else None;
|}.

Definition wide : bytes := [Byte.x28; Byte.x0a].        (* 4000 x 1000 *)
Definition small : bytes := [Byte.x05; Byte.x05].       (* 500 x 500 *)
Definition corrupt : bytes := [].

Definition a_png : TFile :=
  {| path := "img/a.png"; name := "a.png"; parent := Some "img" |}.
Definition b_jpg : TFile :=
  {| path := "img/b.jpg"; name := "b.jpg"; parent := Some "img" |}.
Definition c_png : TFile :=
  {| path := "img/c.png"; name := "c.png"; parent := Some "img" |}.

Definition files : gmap string entry :=
  {[ "img" := FolderEntry;
     "img/a.png" := FileEntry wide;
     "img/b.jpg" := FileEntry small;
     "img/c.png" := FileEntry corrupt;
     "img/a.jpg" := FileEntry small ]}.

Definition converting : ImageResizerSettings := {|
  maxWidth := 1920;
  maxHeight := 1080;
  jpegQuality := 85;
  convertToJpeg := true;
  resizeOnPaste := true;
  resizeOnDrop := true;
  showNotice := true;
  skipExtensions := [];
|}.

(** The plugin after the layout is ready. *)
Definition started (s : ImageResizerSettings) : World :=
  with_ready true (initial s files).

(** Both toggles off: only the commands resize. *)
Definition manual_only : ImageResizerSettings := {|
  maxWidth := 1920;
  maxHeight := 1080;
  jpegQuality := 85;
  convertToJpeg := false;
  resizeOnPaste := false;
  resizeOnDrop := false;
  showNotice := true;
  skipExtensions := [];
|}.

(** A PNG in a folder whose name contains the name of the file. *)
Definition nested_png : TFile :=
  {| path := "pa.png/a.png"; name := "a.png"; parent := Some "pa.png" |}.

(** Its folder, with a JPEG already stored beside the PNG. *)
Definition nested_taken : World :=
  with_ready true
    (initial converting
       {[ "pa.png" := FolderEntry; "pa.png/a.png" := FileEntry wide;
          "pa.png/a.jpg" := FileEntry small ]}).

(** A note next to the images, and an image in the root of the vault. *)
Definition note : TFile :=
  {| path := "img/note.md"; name := "note.md"; parent := Some "img" |}.

Definition root_png : TFile :=
  {| path := "r.png"; name := "r.png"; parent := Some "/" |}.

(** Only a width limit, of 2000 pixels. *)
Definition limit_2000 : ImageResizerSettings := {|
  maxWidth := 2000;
  maxHeight := 0;
  jpegQuality := 85;
  convertToJpeg := false;
  resizeOnPaste := true;
  resizeOnDrop := true;
  showNotice := true;
  skipExtensions := [];
|}.

End Sample.

(** Unfolds the plumbing of [Main.M] computations. *)
Ltac mrun :=
  cbv beta iota zeta delta
    [mbind mret Main.M_bind Main.M_ret Main.get Main.update Main.lift
     Main.emit Main.try_catch Main.finally Main.processing_add
     Main.processing_delete Main.vault_readBinary Main.vault_modifyBinary
     Main.vault_renameFile Main.vault_createBinary Main.call_resizeImage
     Main.sleep Main.setTimeout Main.clearTimeout].

(** Reduces the projections of updated worlds. *)
Ltac wsimpl :=
  cbn [Main.settings Main.processing Main.pending Main.ready Main.vault
       Main.timers Main.nextHandle Main.now Main.trace
       Main.with_processing Main.with_pending Main.with_ready
       Main.with_vault Main.with_timers Main.with_nextHandle Main.with_now
       Main.with_trace Main.with_settings fst snd].

Section NumberFacts.
Import Number.
Local Open Scope Q_scope.

Lemma pow2_pos (e : Z) : 0 < 2 ^ e.
Proof. apply Qpower_0_lt. reflexivity. Qed.

Lemma rne_close (x : Q) :
  inject_Z (rne x) - x <= 1 # 2 /\ x - inject_Z (rne x) <= 1 # 2.
Proof.
  unfold rne.
  pose proof (Qfloor_le x) as Hlo.
  pose proof (Qlt_floor x) as Hhi.
  rewrite inject_Z_plus in Hhi. change (inject_Z 1) with 1 in Hhi.
  destruct (Qcompare_spec (x - inject_Z (Qfloor x)) (1 # 2)) as [E|E|E].
  - destruct (Z.even (Qfloor x)).
    + lra.
    + rewrite inject_Z_plus. change (inject_Z 1) with 1. lra.
  - lra.
  - rewrite inject_Z_plus. change (inject_Z 1) with 1. lra.
Qed.

Lemma pow2_Z (k : Z) : (0 <= k)%Z -> inject_Z (2 ^ k) == 2 ^ k.
Proof. intros Hk. now rewrite Zpower_Qpower. Qed.

Lemma ilog2_le (x : Q) : 0 < x -> 2 ^ ilog2 x <= x.
Proof.
  intros Hx. unfold ilog2.
  destruct (Qle_bool _ x) eqn:E.
  - now apply Qle_bool_imp_le.
  - clear E. destruct x as [n d]. simpl Qnum. simpl Qden.
    assert (Hn : (0 < n)%Z).
    { unfold Qlt in Hx. simpl in Hx. lia. }
    set (a := Z.log2 n). set (b := Z.log2 (Z.pos d)).
    assert (Ha : (2 ^ a <= n)%Z) by (apply Z.log2_spec; lia).
    assert (Hb : (Z.pos d < 2 ^ (b + 1))%Z).
    { pose proof (Z.log2_spec (Z.pos d) ltac:(lia)) as Hs.
      fold b in Hs. replace (b + 1)%Z with (Z.succ b) by lia. lia. }
    assert (Ha0 : (0 <= a)%Z) by apply Z.log2_nonneg.
    assert (Hb0 : (0 <= b)%Z) by apply Z.log2_nonneg.
    replace (a - b - 1)%Z with (a - (b + 1))%Z by lia.
    rewrite Qpower_minus by (intro Hc; discriminate Hc).
    rewrite <- (pow2_Z a), <- (pow2_Z (b + 1)) by lia.
    apply Qle_shift_div_r.
    + change 0 with (inject_Z 0). rewrite <- Zlt_Qlt. lia.
    + rewrite (Qmake_Qdiv n d).
      unfold Qdiv. rewrite <- Qmult_assoc.
      rewrite Zle_Qle in Ha. rewrite Zlt_Qlt in Hb.
      assert (Hd : 0 < inject_Z (Z.pos d)) by reflexivity.
      assert (Hinv : 1 <= / inject_Z (Z.pos d) * inject_Z (2 ^ (b + 1))).
      { rewrite Qmult_comm. apply Qle_shift_div_l; [exact Hd|]. lra. }
      assert (Hn' : 0 <= inject_Z n).
      { change 0 with (inject_Z 0). rewrite <- Zle_Qle. lia. }
      nra.
Qed.

Lemma ilog2_lt (x : Q) : 0 < x -> x < 2 ^ (ilog2 x + 1).
Proof.
  intros Hx. unfold ilog2.
  destruct (Qle_bool _ x) eqn:E.
  - clear E. destruct x as [n d]. simpl Qnum. simpl Qden.
    assert (Hn : (0 < n)%Z).
    { unfold Qlt in Hx. simpl in Hx. lia. }
    set (a := Z.log2 n). set (b := Z.log2 (Z.pos d)).
    assert (Ha : (n < 2 ^ (a + 1))%Z).
    { pose proof (Z.log2_spec n Hn) as Hs. fold a in Hs.
      replace (a + 1)%Z with (Z.succ a) by lia. lia. }
    assert (Hb : (2 ^ b <= Z.pos d)%Z) by (apply Z.log2_spec; lia).
    assert (Ha0 : (0 <= a)%Z) by apply Z.log2_nonneg.
    assert (Hb0 : (0 <= b)%Z) by apply Z.log2_nonneg.
    replace (a - b + 1)%Z with (a + 1 - b)%Z by lia.
    rewrite Qpower_minus by (intro Hc; discriminate Hc).
    rewrite <- (pow2_Z (a + 1)), <- (pow2_Z b) by lia.
    assert (Hpb : 0 < inject_Z (2 ^ b)).
    { change 0 with (inject_Z 0). rewrite <- Zlt_Qlt. lia. }
    apply Qlt_shift_div_l; [exact Hpb|].
    rewrite (Qmake_Qdiv n d).
    rewrite Zlt_Qlt in Ha. rewrite Zle_Qle in Hb.
    assert (Hd : 0 < inject_Z (Z.pos d)) by reflexivity.
    assert (Hn' : 0 < inject_Z n).
    { change 0 with (inject_Z 0). now rewrite <- Zlt_Qlt. }
    assert (Hq : inject_Z n / inject_Z (Z.pos d) * inject_Z (2 ^ b)
                 <= inject_Z n).
    { unfold Qdiv. rewrite <- Qmult_assoc.
      assert (Hinv : / inject_Z (Z.pos d) * inject_Z (2 ^ b) <= 1).
      { rewrite Qmult_comm. apply Qle_shift_div_r; [exact Hd|]. lra. }
      nra. }
    lra.
  - replace (Z.log2 (Qnum x) - Z.log2 (Z.pos (Qden x)) - 1 + 1)%Z
      with (Z.log2 (Qnum x) - Z.log2 (Z.pos (Qden x)))%Z by lia.
    apply Qnot_le_lt. intros Hc. apply Qle_bool_iff in Hc. congruence.
Qed.

(** The rounded value is a binary64 number: an integer significand of at
    most 53 bits times a power of two no smaller than 2^-1074. *)
Lemma fl_pos_format (x : Q) :
  0 < x ->
  exists m : Z,
    fl_pos x = inject_Z m * 2 ^ ulp_exp x /\
    (0 <= m <= 9007199254740992)%Z /\ (-1074 <= ulp_exp x)%Z.
Proof.
  intros Hx. exists (rne (x / 2 ^ ulp_exp x)).
  split; [reflexivity|]. split; [|unfold ulp_exp; lia].
  pose proof (pow2_pos (ulp_exp x)) as Hp.
  set (y := x / 2 ^ ulp_exp x).
  assert (Hy0 : 0 <= y).
  { apply Qle_shift_div_l; [exact Hp|]. lra. }
  assert (Hy1 : y < 9007199254740992).
  { apply Qlt_shift_div_r; [exact Hp|].
    pose proof (ilog2_lt x Hx) as Hlt.
    assert (Hle : 2 ^ (ilog2 x - 52) <= 2 ^ ulp_exp x).
    { apply Qpower_le_compat_l; [unfold ulp_exp; lia|lra]. }
    replace (ilog2 x + 1)%Z with (53 + (ilog2 x - 52))%Z in Hlt by lia.
    rewrite Qpower_plus in Hlt by (intro Hc; discriminate Hc).
    change (2 ^ 53) with 9007199254740992 in Hlt.
    pose proof (pow2_pos (ilog2 x - 52)) as Hq.
    nra. }
  unfold rne.
  assert (Hf0 : (0 <= Qfloor y)%Z).
  { rewrite <- (Qfloor_Z 0). now apply Qfloor_resp_le. }
  assert (Hf1 : (Qfloor y < 9007199254740992)%Z).
  { rewrite Zlt_Qlt. pose proof (Qfloor_le y) as Hfl.
    change (inject_Z 9007199254740992) with 9007199254740992. lra. }
  destruct (Qcompare _ _); [destruct (Z.even _)| |]; lia.
Qed.

Lemma eta_pos : 0 < eta.
Proof. apply pow2_pos. Qed.

Lemma eta_double : 2 ^ (-1074) == 2 * eta.
Proof.
  unfold eta. change (-1074)%Z with (1 + -1075)%Z.
  rewrite Qpower_plus by (intro Hc; discriminate Hc). reflexivity.
Qed.

Lemma eta_small : eta <= 1 # 1267650600228229401496703205376.
Proof. apply Qle_bool_imp_le. vm_compute. reflexivity. Qed.

Lemma ulp_bound (x : Q) : 0 < x -> 2 ^ ulp_exp x <= 2 * (x * u + eta).
Proof.
  intros Hx. unfold ulp_exp.
  pose proof eta_pos as He.
  destruct (Z.max_spec (ilog2 x - 52) (-1074)) as [[_ ->]|[_ ->]].
  - rewrite eta_double. unfold u. generalize dependent eta. intros. lra.
  - rewrite Qpower_minus by (intro Hc; discriminate Hc).
    pose proof (ilog2_le x Hx) as Hl.
    apply Qle_shift_div_r; [apply pow2_pos|].
    change (2 ^ 52) with (4503599627370496 # 1). unfold u.
    generalize dependent eta. intros. lra.
Qed.

Lemma fl_pos_err (x : Q) :
  0 < x -> fl_pos x <= x + (x * u + eta) /\ x - (x * u + eta) <= fl_pos x.
Proof.
  intros Hx. unfold fl_pos.
  pose proof (ulp_bound x Hx) as Hb.
  pose proof (pow2_pos (ulp_exp x)) as Hp.
  set (P := 2 ^ ulp_exp x) in *.
  pose proof (rne_close (x / P)) as [H1 H2].
  set (r := inject_Z (rne (x / P))) in *.
  assert (Hxy : x == x / P * P) by (field; lra).
  set (y := x / P) in *.
  generalize dependent eta. intros.
  split; nra.
Qed.

Lemma fl_err (x : Q) :
  0 <= x -> fl x <= x + (x * u + eta) /\ x - (x * u + eta) <= fl x.
Proof.
  intros Hx. unfold fl. pose proof eta_pos as He.
  destruct x as [n d]. simpl Qnum. destruct n as [|p|p].
  - assert (E : 0 # d == 0) by reflexivity. rewrite E.
    generalize dependent eta. intros. lra.
  - apply fl_pos_err. reflexivity.
  - exfalso. unfold Qle in Hx. simpl in Hx. lia.
Qed.

Lemma fl_nonneg (x : Q) : 0 <= x -> 0 <= fl x.
Proof.
  intros Hx. unfold fl.
  destruct x as [n d]. simpl Qnum. destruct n as [|p|p].
  - lra.
  - unfold fl_pos.
    assert (Hq : 0 < (Z.pos p # d)) by reflexivity.
    pose proof (pow2_pos (ulp_exp (Z.pos p # d))) as Hp.
    set (P := 2 ^ ulp_exp (Z.pos p # d)) in *.
    assert (Hy : 0 <= (Z.pos p # d) / P).
    { apply Qle_shift_div_l; [exact Hp|]. lra. }
    assert (Hr : (0 <= rne ((Z.pos p # d) / P))%Z).
    { unfold rne. set (y := (Z.pos p # d) / P) in *.
      assert (Hf : (0 <= Qfloor y)%Z).
      { rewrite <- (Qfloor_Z 0). now apply Qfloor_resp_le. }
      destruct (Qcompare _ _); [destruct (Z.even _)| |]; lia. }
    rewrite Zle_Qle in Hr. change (inject_Z 0) with 0 in Hr. nra.
  - exfalso. unfold Qle in Hx. simpl in Hx. lia.
Qed.

Lemma fl_unit (x : Q) :
  0 <= x -> x <= 1 -> fl x <= x + delta /\ x - delta <= fl x.
Proof.
  intros H0 H1. pose proof (fl_err x H0) as [Ha Hb].
  pose proof eta_small as He. pose proof eta_pos as Hp.
  unfold u, delta in *. generalize dependent eta. intros. split; lra.
Qed.

Lemma fl_pixels (x : Q) :
  0 <= x -> x <= 6442450944 -> fl x <= x + eps /\ x - eps <= fl x.
Proof.
  intros H0 H1. pose proof (fl_err x H0) as [Ha Hb].
  pose proof eta_small as He. pose proof eta_pos as Hp.
  unfold u, eps in *. generalize dependent eta. intros. split; lra.
Qed.

Lemma round_close (y : Q) :
  y - (1 # 2) < inject_Z (Math_round y) /\ inject_Z (Math_round y) <= y + (1 # 2).
Proof.
  unfold Math_round.
  pose proof (Qfloor_le (y + (1 # 2))) as Hlo.
  pose proof (Qlt_floor (y + (1 # 2))) as Hhi.
  rewrite inject_Z_plus in Hhi. change (inject_Z 1) with 1 in Hhi.
  split; lra.
Qed.

Lemma inject_Z_pos (z : Z) : (0 < z)%Z -> 0 < inject_Z z.
Proof. intros Hz. change 0 with (inject_Z 0). now rewrite <- Zlt_Qlt. Qed.

Lemma inject_Z_nonneg (z : Z) : (0 <= z)%Z -> 0 <= inject_Z z.
Proof. intros Hz. change 0 with (inject_Z 0). now rewrite <- Zle_Qle. Qed.

Lemma inject_Z_lt_inv (a b : Z) : inject_Z a < inject_Z b + 1 -> (a <= b)%Z.
Proof.
  intros Hq. change 1 with (inject_Z 1) in Hq.
  rewrite <- inject_Z_plus, <- Zlt_Qlt in Hq. lia.
Qed.

Lemma inject_Z_gt_inv (a b : Z) : inject_Z b - 1 < inject_Z a -> (b <= a)%Z.
Proof.
  intros Hq. assert (Hq' : inject_Z b < inject_Z a + 1) by lra.
  now apply inject_Z_lt_inv.
Qed.

Lemma div_close (m w : Z) :
  (0 < m < w)%Z ->
  let r := inject_Z m / inject_Z w in
  0 < r /\ r < 1 /\ r * inject_Z w == inject_Z m /\
  div (inject_Z m) (inject_Z w) <= r + delta /\
  r - delta <= div (inject_Z m) (inject_Z w).
Proof.
  intros [Hm Hw] r.
  assert (HM : 0 < inject_Z m) by now apply inject_Z_pos.
  assert (HW : 0 < inject_Z w) by (apply inject_Z_pos; lia).
  assert (HMW : inject_Z m < inject_Z w) by now rewrite <- Zlt_Qlt.
  assert (Hr0 : 0 < r).
  { apply Qlt_shift_div_l; [exact HW|]. lra. }
  assert (Hr1 : r < 1).
  { apply Qlt_shift_div_r; [exact HW|]. lra. }
  assert (Hrw : r * inject_Z w == inject_Z m).
  { unfold r. field. lra. }
  pose proof (fl_unit r ltac:(lra) ltac:(lra)) as [Ha Hb].
  unfold div. fold r. repeat split; assumption.
Qed.

Lemma mul_close (a : Z) (s : Q) :
  (0 <= a <= 4294967296)%Z -> 0 <= s -> s <= 3 # 2 ->
  mul (inject_Z a) s <= inject_Z a * s + eps /\
  inject_Z a * s - eps <= mul (inject_Z a) s /\
  0 <= mul (inject_Z a) s.
Proof.
  intros [Ha0 Ha1] Hs0 Hs1.
  assert (HA0 : 0 <= inject_Z a) by now apply inject_Z_nonneg.
  assert (HA1 : inject_Z a <= 4294967296).
  { change 4294967296 with (inject_Z 4294967296). now rewrite <- Zle_Qle. }
  assert (Hp0 : 0 <= inject_Z a * s) by nra.
  assert (Hp1 : inject_Z a * s <= 6442450944) by nra.
  pose proof (fl_pixels _ Hp0 Hp1) as [Hu Hl].
  unfold mul. repeat split; try assumption. now apply fl_nonneg.
Qed.

End NumberFacts.

Section PlannerFacts.
Import Number Resizer.
Local Open Scope Q_scope.

Lemma Qmin_cases (a b : Q) :
  (Qmin a b = a /\ a <= b) \/ (Qmin a b = b /\ b < a).
Proof.
  unfold Qmin, GenericMinMax.gmin.
  destruct (Qcompare_spec a b) as [E|E|E].
  - left. split; [reflexivity|]. rewrite E. apply Qle_refl.
  - left. split; [reflexivity|]. now apply Qlt_le_weak.
  - right. split; [reflexivity|assumption].
Qed.

Lemma scaled_le_orig (a : Z) (s : Q) :
  (0 <= a <= 4294967296)%Z -> 0 <= s -> s < 1 ->
  (Math_round (mul (inject_Z a) s) <= a)%Z.
Proof.
  intros Ha Hs0 Hs1.
  pose proof (mul_close a s Ha Hs0 ltac:(lra)) as (Hu & _ & _).
  pose proof (round_close (mul (inject_Z a) s)) as [_ Hr].
  pose proof (inject_Z_nonneg a ltac:(lia)) as HA.
  apply inject_Z_lt_inv. unfold eps in *. nra.
Qed.

Lemma scaled_nonneg (a : Z) (s : Q) :
  (0 <= a <= 4294967296)%Z -> 0 <= s -> s <= 3 # 2 ->
  (0 <= Math_round (mul (inject_Z a) s))%Z.
Proof.
  intros Ha Hs0 Hs1.
  pose proof (mul_close a s Ha Hs0 Hs1) as (_ & _ & Hn).
  pose proof (round_close (mul (inject_Z a) s)) as [Hr _].
  apply inject_Z_gt_inv. change (inject_Z 0) with 0. lra.
Qed.

Lemma scaled_near (a : Z) (s : Q) :
  (0 <= a <= 4294967296)%Z -> 0 <= s -> s <= 3 # 2 ->
  inject_Z (Math_round (mul (inject_Z a) s)) - inject_Z a * s < 1 /\
  inject_Z a * s - inject_Z (Math_round (mul (inject_Z a) s)) < 1.
Proof.
  intros Ha Hs0 Hs1.
  pose proof (mul_close a s Ha Hs0 Hs1) as (Hu & Hl & _).
  pose proof (round_close (mul (inject_Z a) s)) as [Hr1 Hr2].
  unfold eps in *. split; lra.
Qed.

Lemma div_range (m w : Z) :
  (0 < m < w)%Z -> (w <= 4294967296)%Z ->
  0 < div (inject_Z m) (inject_Z w) /\ div (inject_Z m) (inject_Z w) <= 3 # 2.
Proof.
  intros Hm Hw.
  pose proof (div_close m w Hm) as (Hr0 & Hr1 & Hrw & Hu & Hl).
  set (r := inject_Z m / inject_Z w) in *.
  assert (HM : 1 <= inject_Z m).
  { change 1 with (inject_Z 1). rewrite <- Zle_Qle. lia. }
  assert (HW : inject_Z w <= 4294967296).
  { change 4294967296 with (inject_Z 4294967296). now rewrite <- Zle_Qle. }
  unfold delta in *. split; nra.
Qed.

Lemma scaled_le_limit (w m : Z) (s : Q) :
  (0 < m < w)%Z -> (w <= 4294967296)%Z ->
  0 <= s -> s <= div (inject_Z m) (inject_Z w) ->
  (Math_round (mul (inject_Z w) s) <= m)%Z.
Proof.
  intros Hm Hw Hs0 Hs1.
  pose proof (div_close m w Hm) as (Hr0 & Hr1 & Hrw & Hu & Hl).
  pose proof (div_range m w Hm Hw) as [_ Hd].
  set (r := inject_Z m / inject_Z w) in *.
  set (sw := div (inject_Z m) (inject_Z w)) in *.
  pose proof (mul_close w s ltac:(lia) Hs0 ltac:(lra)) as (Hmu & _ & _).
  pose proof (round_close (mul (inject_Z w) s)) as [_ Hr].
  assert (HW0 : 0 <= inject_Z w) by (apply inject_Z_nonneg; lia).
  assert (HW : inject_Z w <= 4294967296).
  { change 4294967296 with (inject_Z 4294967296). now rewrite <- Zle_Qle. }
  apply inject_Z_lt_inv. unfold eps, delta in *.
  assert (H1 : inject_Z w * s <= inject_Z w * (r + (1 # 4503599627370496))) by nra.
  nra.
Qed.

Lemma scaled_eq_limit (w m : Z) :
  (0 < m < w)%Z -> (w <= 4294967296)%Z ->
  Math_round (mul (inject_Z w) (div (inject_Z m) (inject_Z w))) = m.
Proof.
  intros Hm Hw.
  pose proof (div_range m w Hm Hw) as [Hd0 Hd1].
  apply Z.le_antisymm.
  - apply scaled_le_limit; try assumption; lra.
  - pose proof (div_close m w Hm) as (Hr0 & Hr1 & Hrw & Hu & Hl).
    set (r := inject_Z m / inject_Z w) in *.
    set (sw := div (inject_Z m) (inject_Z w)) in *.
    pose proof (mul_close w sw ltac:(lia) ltac:(lra) Hd1) as (_ & Hml & _).
    pose proof (round_close (mul (inject_Z w) sw)) as [Hr _].
    assert (HW0 : 0 <= inject_Z w) by (apply inject_Z_nonneg; lia).
    assert (HW : inject_Z w <= 4294967296).
    { change 4294967296 with (inject_Z 4294967296). now rewrite <- Zle_Qle. }
    apply inject_Z_gt_inv. unfold eps, delta in *.
    assert (H1 : inject_Z w * (r - (1 # 4503599627370496)) <= inject_Z w * sw) by nra.
    nra.
Qed.

Lemma active_iff (limit axis : Z) :
  (0 <? limit)%Z && (limit <? axis)%Z = true <-> (0 < limit < axis)%Z.
Proof. rewrite andb_true_iff, !Z.ltb_lt. tauto. Qed.

Lemma computedScale_cases (w h mw mh : Z) :
  let s := computedScale w h mw mh in
  s = 1 \/
  ((0 < mw < w)%Z /\ s = div (inject_Z mw) (inject_Z w) /\
   ((0 < mh < h)%Z -> s <= div (inject_Z mh) (inject_Z h))) \/
  ((0 < mh < h)%Z /\ s = div (inject_Z mh) (inject_Z h) /\
   ((0 < mw < w)%Z -> s <= div (inject_Z mw) (inject_Z w))).
Proof.
  unfold computedScale, Math_min.
  destruct ((0 <? mw)%Z && (mw <? w)%Z) eqn:Ew;
    destruct ((0 <? mh)%Z && (mh <? h)%Z) eqn:Eh;
    try (apply active_iff in Ew); try (apply active_iff in Eh);
    try (assert (Nw : ~ (0 < mw < w)%Z)
           by (rewrite <- active_iff, Ew; discriminate));
    try (assert (Nh : ~ (0 < mh < h)%Z)
           by (rewrite <- active_iff, Eh; discriminate)).
  - set (sw := div (inject_Z mw) (inject_Z w)).
    set (sh := div (inject_Z mh) (inject_Z h)).
    destruct (Qmin_cases 1 sw) as [[-> L1]|[-> L1]];
      destruct (Qmin_cases 1 sh) as [[E2 L2]|[E2 L2]].
    + left. exact E2.
    + right. right. rewrite E2. repeat split; try lia; try reflexivity. intros _. lra.
    + destruct (Qmin_cases sw sh) as [[-> L3]|[-> L3]].
      * right. left. repeat split; try lia; try reflexivity. intros _. lra.
      * right. right. repeat split; try lia; try reflexivity. intros _. lra.
    + destruct (Qmin_cases sw sh) as [[-> L3]|[-> L3]].
      * right. left. repeat split; try lia; try reflexivity. intros _. lra.
      * right. right. repeat split; try lia; try reflexivity. intros _. lra.
  - set (sw := div (inject_Z mw) (inject_Z w)).
    destruct (Qmin_cases 1 sw) as [[-> L1]|[-> L1]].
    + now left.
    + right. left. repeat split; try lia; try reflexivity.
  - set (sh := div (inject_Z mh) (inject_Z h)).
    destruct (Qmin_cases 1 sh) as [[-> L1]|[-> L1]].
    + now left.
    + right. right. repeat split; try lia; try reflexivity.
  - now left.
Qed.

Lemma computedScale_range (w h mw mh : Z) :
  (w <= 4294967296)%Z -> (h <= 4294967296)%Z ->
  0 < computedScale w h mw mh /\ computedScale w h mw mh <= 3 # 2.
Proof.
  intros Hw Hh.
  destruct (computedScale_cases w h mw mh) as [E|[(A & E & _)|(A & E & _)]];
    rewrite E.
  - split; lra.
  - now apply div_range.
  - now apply div_range.
Qed.

Lemma calculateDimensions_Some (w h mw mh : Z) (d : Dimensions) :
  calculateDimensions w h mw mh = Some d ->
  computedScale w h mw mh < 1 /\
  dim_width d = Math_round (mul (inject_Z w) (computedScale w h mw mh)) /\
  dim_height d = Math_round (mul (inject_Z h) (computedScale w h mw mh)).
Proof.
  unfold calculateDimensions.
  destruct (Qle_bool 1 (computedScale w h mw mh)) eqn:E; [discriminate|].
  intros [= <-]. simpl. repeat split; try reflexivity.
  apply Qnot_le_lt. intros Hc. apply Qle_bool_iff in Hc. congruence.
Qed.

Lemma calculateDimensions_None (w h mw mh : Z) :
  1 <= computedScale w h mw mh -> calculateDimensions w h mw mh = None.
Proof.
  intros Hs. unfold calculateDimensions.
  apply Qle_bool_iff in Hs. now rewrite Hs.
Qed.

Lemma computedScale_inactive (w h mw mh : Z) :
  ~ (0 < mw < w)%Z -> ~ (0 < mh < h)%Z -> computedScale w h mw mh = 1.
Proof.
  intros Nw Nh. unfold computedScale.
  destruct ((0 <? mw)%Z && (mw <? w)%Z) eqn:Ew.
  { apply active_iff in Ew. contradiction. }
  destruct ((0 <? mh)%Z && (mh <? h)%Z) eqn:Eh.
  { apply active_iff in Eh. contradiction. }
  reflexivity.
Qed.

Lemma aspect_other_axis (w h m : Z) :
  (0 < m < w)%Z -> (w <= 4294967296)%Z -> (0 <= h <= 4294967296)%Z ->
  (Z.abs (Math_round (mul (inject_Z h) (div (inject_Z m) (inject_Z w))) * w
          - m * h) <= w)%Z.
Proof.
  intros Hm Hw Hh.
  pose proof (div_close m w Hm) as (Hr0 & Hr1 & Hrw & Hu & Hl).
  pose proof (div_range m w Hm Hw) as [Hd0 Hd1].
  set (r := inject_Z m / inject_Z w) in *.
  set (sw := div (inject_Z m) (inject_Z w)) in *.
  pose proof (mul_close h sw Hh ltac:(lra) Hd1) as (Hmu & Hml & _).
  pose proof (round_close (mul (inject_Z h) sw)) as [Hr1' Hr2'].
  set (th := Math_round (mul (inject_Z h) sw)) in *.
  assert (HW0 : 0 < inject_Z w) by (apply inject_Z_pos; lia).
  assert (HW : inject_Z w <= 4294967296).
  { change 4294967296 with (inject_Z 4294967296). now rewrite <- Zle_Qle. }
  assert (HH0 : 0 <= inject_Z h) by (apply inject_Z_nonneg; lia).
  assert (HH : inject_Z h <= 4294967296).
  { change 4294967296 with (inject_Z 4294967296). rewrite <- Zle_Qle. lia. }
  unfold eps, delta in *.
  assert (A1 : inject_Z h * sw <= inject_Z h * r + (1 # 1048576)) by nra.
  assert (A2 : inject_Z h * r - (1 # 1048576) <= inject_Z h * sw) by nra.
  assert (B1 : inject_Z th - inject_Z h * r < 1) by lra.
  assert (B2 : inject_Z h * r - inject_Z th < 1) by lra.
  assert (C1 : inject_Z th * inject_Z w - inject_Z m * inject_Z h < inject_Z w) by nra.
  assert (C2 : inject_Z m * inject_Z h - inject_Z th * inject_Z w < inject_Z w) by nra.
  rewrite <- !inject_Z_mult in C1, C2.
  unfold Qminus in C1, C2. rewrite <- !inject_Z_opp, <- !inject_Z_plus in C1, C2.
  rewrite <- Zlt_Qlt in C1, C2. lia.
Qed.

End PlannerFacts.

(* ===================================================================== *)
(** * The dimension planner *)
(* ===================================================================== *)

Section PlannerClaims.
Import Number Resizer.
Local Open Scope Q_scope.

(** The rounding model gives the results of the Standard Library's
    binary64 operations on the quotients and products of the scenarios. *)
Example binary64_agrees_on_quotients :
  forallb (fun p => agree_div (fst p) (snd p)) (grid 24) = true.
Proof. vm_compute. reflexivity. Qed.

Example binary64_agrees_on_products :
  forallb (fun p => agree_mul_div 4000 (fst p) (snd p)
                    && agree_mul_div 1 (fst p) (snd p)) (grid 16) = true.
Proof. vm_compute. reflexivity. Qed.

Example binary64_agrees_on_scenarios :
  agree_div 1920 4000 && agree_mul_div 4000 1920 4000
  && agree_mul_div 1 1920 4000 && agree_mul_div 1000 1920 4000
  && agree_div 1080 2000 && agree_mul_div 500 1080 2000
  && agree_mul_div 2000 1080 2000 && agree_div 1920 3840
  && agree_mul_div 2160 1920 3840 = true.
Proof. vm_compute. reflexivity. Qed.

Example planner_agrees_with_binary64 : planners_agree = true.
Proof. vm_compute. reflexivity. Qed.

Example plan_4000x1_binary64 :
  calculateDimensions_binary64 4000 1 1920 0
  = Some {| dim_width := 1920; dim_height := 0 |}.
Proof. vm_compute. reflexivity. Qed.

Example plan_3840x2160 :
  calculateDimensions 3840 2160 1920 1080
  = Some {| dim_width := 1920; dim_height := 1080 |}.
Proof. vm_compute. reflexivity. Qed.

Example plan_800x600 : calculateDimensions 800 600 1920 1080 = None.
Proof. vm_compute. reflexivity. Qed.

Example plan_4000x1000 :
  calculateDimensions 4000 1000 1920 0
  = Some {| dim_width := 1920; dim_height := 480 |}.
Proof. vm_compute. reflexivity. Qed.

Example plan_500x2000 :
  calculateDimensions 500 2000 0 1080
  = Some {| dim_width := 270; dim_height := 1080 |}.
Proof. vm_compute. reflexivity. Qed.

Lemma round_ge_1 (y : Q) : (1 <= Math_round y)%Z <-> 1 # 2 <= y.
Proof.
  pose proof (round_close y) as [Hlo Hhi]. split.
  - intros Hr. rewrite Zle_Qle in Hr. change (inject_Z 1) with 1 in Hr. lra.
  - intros Hy. apply inject_Z_gt_inv. change (inject_Z 1) with 1. lra.
Qed.

(** What a plan with a target looks like: the scale is below 1 and is the
    shrink factor of an axis that exceeds its limit, no larger than the
    factor of the other axis when that one exceeds its limit too. *)
Lemma plan_target_inv (w h mw mh : Z) (d : Dimensions) :
  (0 < w < 4294967296)%Z -> (0 < h < 4294967296)%Z ->
  calculateDimensions w h mw mh = Some d ->
  let s := computedScale w h mw mh in
  0 < s /\ s < 1 /\
  dim_width d = Math_round (mul (inject_Z w) s) /\
  dim_height d = Math_round (mul (inject_Z h) s) /\
  (((0 < mw < w)%Z /\ s = div (inject_Z mw) (inject_Z w) /\
    ((0 < mh < h)%Z -> s <= div (inject_Z mh) (inject_Z h))) \/
   ((0 < mh < h)%Z /\ s = div (inject_Z mh) (inject_Z h) /\
    ((0 < mw < w)%Z -> s <= div (inject_Z mw) (inject_Z w)))).
Proof.
  intros Hw Hh Hd s.
  destruct (calculateDimensions_Some _ _ _ _ _ Hd) as (Hs1 & Ew & Eh).
  destruct (computedScale_range w h mw mh ltac:(lia) ltac:(lia)) as [Hs0 _].
  fold s in Hs1, Ew, Eh, Hs0.
  repeat split; try assumption.
  destruct (computedScale_cases w h mw mh) as [E|[C|C]]; fold s in E || fold s in C.
  - rewrite E in Hs1. lra.
  - now left.
  - now right.
Qed.

(** C1 (as the code has it): a planned axis is [Math.round(original *
    scale)] and nothing forces it up to 1.  Both axes are at least 0, an
    axis is at least 1 exactly when [original * scale] is at least 0.5, and
    the axis whose limit fixes the scale is at least 1. *)
Theorem calculateDimensions_axes_unclamped (w h mw mh : Z) (d : Dimensions) :
  (0 < w < 4294967296)%Z -> (0 < h < 4294967296)%Z ->
  calculateDimensions w h mw mh = Some d ->
  let s := computedScale w h mw mh in
  dim_width d = Math_round (mul (inject_Z w) s) /\
  dim_height d = Math_round (mul (inject_Z h) s) /\
  (0 <= dim_width d)%Z /\ (0 <= dim_height d)%Z /\
  ((1 <= dim_width d)%Z <-> 1 # 2 <= mul (inject_Z w) s) /\
  ((1 <= dim_height d)%Z <-> 1 # 2 <= mul (inject_Z h) s) /\
  ((1 <= dim_width d)%Z \/ (1 <= dim_height d)%Z).
Proof.
  intros Hw Hh Hd s.
  destruct (plan_target_inv w h mw mh d Hw Hh Hd) as (Hs0 & Hs1 & Ew & Eh & Hc).
  fold s in Hs0, Hs1, Ew, Eh, Hc.
  rewrite Ew, Eh.
  split; [reflexivity|]. split; [reflexivity|].
  split; [apply scaled_nonneg; [lia|lra|lra]|].
  split; [apply scaled_nonneg; [lia|lra|lra]|].
  split; [apply round_ge_1|]. split; [apply round_ge_1|].
  destruct Hc as [(A & E & _)|(A & E & _)]; rewrite E.
  - left. rewrite scaled_eq_limit by lia. lia.
  - right. rewrite scaled_eq_limit by lia. lia.
Qed.

(** C1 as stated fails: a 4000x1 image under maxWidth 1920 gets the plan
    1920x0. *)
Lemma calculateDimensions_zero_axis :
  exists d, calculateDimensions 4000 1 1920 0 = Some d
            /\ ~ ((1 <= dim_width d)%Z /\ (1 <= dim_height d)%Z).
Proof.
  exists {| dim_width := 1920; dim_height := 0 |}. split.
  - vm_compute. reflexivity.
  - simpl. lia.
Qed.

Lemma calculateDimensions_axes_unclamped_witness :
  (1 <= dim_width {| dim_width := 1920; dim_height := 480 |})%Z
  \/ (1 <= dim_height {| dim_width := 1920; dim_height := 480 |})%Z.
Proof.
  apply (calculateDimensions_axes_unclamped 4000 1000 1920 0
           {| dim_width := 1920; dim_height := 480 |});
    [lia | lia | vm_compute; reflexivity].
Defined.

(** C4: a planned target never exceeds the original on either axis; one
    scale, the smallest shrink factor among the axes over their limit, is
    applied to both axes; each target axis is within one pixel of the
    original axis times that scale; and the target is within one pixel of
    the original aspect ratio: the axis that fixes the scale lands on its
    limit and the other axis is less than a pixel away from the
    proportional value. *)
Theorem calculateDimensions_target_bounds (w h mw mh : Z) (d : Dimensions) :
  (0 < w < 4294967296)%Z -> (0 < h < 4294967296)%Z ->
  (0 <= mw)%Z -> (0 <= mh)%Z ->
  calculateDimensions w h mw mh = Some d ->
  let s := computedScale w h mw mh in
  (dim_width d <= w)%Z /\ (dim_height d <= h)%Z /\
  0 < s /\ s < 1 /\
  dim_width d = Math_round (mul (inject_Z w) s) /\
  dim_height d = Math_round (mul (inject_Z h) s) /\
  ((0 < mw < w)%Z -> s <= div (inject_Z mw) (inject_Z w)) /\
  ((0 < mh < h)%Z -> s <= div (inject_Z mh) (inject_Z h)) /\
  Qabs (inject_Z (dim_width d) - inject_Z w * s) < 1 /\
  Qabs (inject_Z (dim_height d) - inject_Z h * s) < 1 /\
  (((0 < mw < w)%Z /\ s = div (inject_Z mw) (inject_Z w) /\
    dim_width d = mw /\
    (Z.abs (dim_height d * w - dim_width d * h) <= w)%Z) \/
   ((0 < mh < h)%Z /\ s = div (inject_Z mh) (inject_Z h) /\
    dim_height d = mh /\
    (Z.abs (dim_width d * h - dim_height d * w) <= h)%Z)).
Proof.
  intros Hw Hh Hmw Hmh Hd s.
  destruct (plan_target_inv w h mw mh d Hw Hh Hd) as (Hs0 & Hs1 & Ew & Eh & Hc).
  fold s in Hs0, Hs1, Ew, Eh, Hc.
  split; [rewrite Ew; apply scaled_le_orig; [lia|lra|lra]|].
  split; [rewrite Eh; apply scaled_le_orig; [lia|lra|lra]|].
  split; [exact Hs0|]. split; [exact Hs1|].
  split; [exact Ew|]. split; [exact Eh|].
  split; [destruct Hc as [(A & E & L)|(A & E & L)]; [rewrite E; lra | exact L]|].
  split; [destruct Hc as [(A & E & L)|(A & E & L)]; [exact L | rewrite E; lra]|].
  split.
  { rewrite Ew.
    destruct (scaled_near w s ltac:(lia) ltac:(lra) ltac:(lra)) as [N1 N2].
    apply Qabs_case; intros _; lra. }
  split.
  { rewrite Eh.
    destruct (scaled_near h s ltac:(lia) ltac:(lra) ltac:(lra)) as [N1 N2].
    apply Qabs_case; intros _; lra. }
  destruct Hc as [(A & E & L)|(A & E & L)].
  - left. split; [exact A|]. split; [exact E|].
    assert (Tw : dim_width d = mw).
    { rewrite Ew, E. apply scaled_eq_limit; lia. }
    split; [exact Tw|].
    rewrite Tw, Eh, E. apply aspect_other_axis; lia.
  - right. split; [exact A|]. split; [exact E|].
    assert (Th : dim_height d = mh).
    { rewrite Eh, E. apply scaled_eq_limit; lia. }
    split; [exact Th|].
    rewrite Th, Ew, E. apply aspect_other_axis; lia.
Qed.

Lemma calculateDimensions_target_bounds_witness :
  (dim_width {| dim_width := 270; dim_height := 1080 |} <= 500)%Z.
Proof.
  apply (calculateDimensions_target_bounds 500 2000 0 1080
           {| dim_width := 270; dim_height := 1080 |});
    [lia | lia | lia | lia | vm_compute; reflexivity].
Defined.

(** C5: planning is idempotent.  The target of a plan, planned again under
    the same limits, needs no resize. *)
Theorem calculateDimensions_idempotent (w h mw mh : Z) (d : Dimensions) :
  (0 < w < 4294967296)%Z -> (0 < h < 4294967296)%Z ->
  calculateDimensions w h mw mh = Some d ->
  calculateDimensions (dim_width d) (dim_height d) mw mh = None.
Proof.
  intros Hw Hh Hd.
  destruct (plan_target_inv w h mw mh d Hw Hh Hd) as (Hs0 & Hs1 & Ew & Eh & Hc).
  set (s := computedScale w h mw mh) in *.
  assert (Lw : (0 < mw < w)%Z -> s <= div (inject_Z mw) (inject_Z w)).
  { destruct Hc as [(A & E & L)|(A & E & L)]; [rewrite E; lra | exact L]. }
  assert (Lh : (0 < mh < h)%Z -> s <= div (inject_Z mh) (inject_Z h)).
  { destruct Hc as [(A & E & L)|(A & E & L)]; [exact L | rewrite E; lra]. }
  apply calculateDimensions_None.
  rewrite computedScale_inactive; [lra| |].
  - intros [Hm0 Hm1].
    destruct (Z_lt_le_dec mw w) as [Hlt|Hge].
    + assert (Hle : (dim_width d <= mw)%Z).
      { rewrite Ew. apply scaled_le_limit; [lia|lia|lra|]. apply Lw. lia. }
      lia.
    + assert (Hle : (dim_width d <= w)%Z).
      { rewrite Ew. apply scaled_le_orig; [lia|lra|lra]. }
      lia.
  - intros [Hm0 Hm1].
    destruct (Z_lt_le_dec mh h) as [Hlt|Hge].
    + assert (Hle : (dim_height d <= mh)%Z).
      { rewrite Eh. apply scaled_le_limit; [lia|lia|lra|]. apply Lh. lia. }
      lia.
    + assert (Hle : (dim_height d <= h)%Z).
      { rewrite Eh. apply scaled_le_orig; [lia|lra|lra]. }
      lia.
Qed.

Lemma calculateDimensions_idempotent_witness :
  calculateDimensions 1920 1079 1920 1080 = None.
Proof.
  apply (calculateDimensions_idempotent 1921 1080 1920 1080
           {| dim_width := 1920; dim_height := 1079 |});
    [lia | lia | vm_compute; reflexivity].
Defined.

End PlannerClaims.

(* ===================================================================== *)
(** * Extensions *)
(* ===================================================================== *)

Section ExtensionClaims.
Import JsString Resizer.
Local Open Scope string_scope.

Lemma afterLastDot_no_dot (s : string) : no_dot s = true -> afterLastDot s = s.
Proof.
  destruct s as [|c rest]; simpl; [reflexivity|].
  intros Hn. apply andb_true_iff in Hn as [Hc Hr]. rewrite Hr. simpl.
  apply negb_true_iff in Hc. now rewrite Hc.
Qed.

Lemma afterLastDot_app (pre seg : string) :
  no_dot seg = true -> afterLastDot (pre ++ "." ++ seg) = seg.
Proof.
  intros Hseg.
  change ("." ++ seg) with (String "." seg).
  induction pre as [|c pre IH].
  - change ("" ++ String "." seg) with (String "." seg).
    simpl. now rewrite Hseg.
  - change (String c pre ++ String "." seg)
      with (String c (pre ++ String "." seg)).
    assert (Hd : no_dot (pre ++ String "." seg) = false).
    { clear IH. induction pre as [|c' pre IH].
      - reflexivity.
      - change (String c' pre ++ String "." seg)
          with (String c' (pre ++ String "." seg)).
        simpl. rewrite IH. apply andb_false_r. }
    simpl. rewrite Hd. simpl. exact IH.
Qed.

Lemma split_dot_no_dot (s : string) : no_dot s = true -> split_dot s = [s].
Proof.
  induction s as [|c rest IH]; simpl; [reflexivity|].
  intros Hn. apply andb_true_iff in Hn as [Hc Hr].
  apply negb_true_iff in Hc. rewrite Hc, (IH Hr). reflexivity.
Qed.

Lemma split_dot_with_dot (s : string) :
  no_dot s = false -> exists seg seg' segs, split_dot s = seg :: seg' :: segs.
Proof.
  induction s as [|c rest IH]; simpl; [discriminate|].
  destruct (is_dot c) eqn:Ec; simpl.
  - intros _. destruct rest as [|c' rest'].
    + now exists "", "", [].
    + destruct (no_dot (String c' rest')) eqn:En.
      * rewrite (split_dot_no_dot _ En). now exists "", (String c' rest'), [].
      * destruct (IH eq_refl) as (a & b & l & ->). now exists "", a, (b :: l).
  - intros Hn. destruct (IH Hn) as (a & b & l & ->).
    now exists (String c a), b, l.
Qed.

Lemma pop_split_dot (s : string) : pop (split_dot s) = Some (afterLastDot s).
Proof.
  induction s as [|c rest IH]; [reflexivity|].
  cbn [split_dot afterLastDot].
  destruct (no_dot rest) eqn:En; simpl negb; cbv iota.
  - rewrite (split_dot_no_dot _ En). destruct (is_dot c); reflexivity.
  - destruct (split_dot_with_dot _ En) as (a & b & l & E).
    rewrite E in IH |- *. destruct (is_dot c); exact IH.
Qed.

Lemma getExtension_afterLastDot (filename : string) :
  getExtension filename = toLowerCase (afterLastDot filename).
Proof. unfold getExtension. now rewrite pop_split_dot. Qed.

Lemma IMAGE_EXTENSIONS_spec (ext : string) :
  ext ∈ IMAGE_EXTENSIONS <->
  ext = "png" \/ ext = "jpg" \/ ext = "jpeg" \/ ext = "webp" \/ ext = "bmp".
Proof.
  unfold IMAGE_EXTENSIONS.
  rewrite !elem_of_union, !elem_of_singleton. tauto.
Qed.

(** C9: the extension is the lower-cased substring after the last dot, and
    the entire lower-cased filename when there is no dot; so the bare
    names png, jpg, jpeg, webp and bmp are supported images, and a filename
    whose last dot-segment is outside the set is not. *)
Theorem isImageFile_last_segment (filename : string) :
  getExtension filename = toLowerCase (afterLastDot filename) /\
  isImageFile filename
  = bool_decide (toLowerCase (afterLastDot filename) ∈ IMAGE_EXTENSIONS) /\
  (no_dot filename = true -> afterLastDot filename = filename) /\
  (forall pre seg, filename = pre ++ "." ++ seg -> no_dot seg = true ->
                   afterLastDot filename = seg) /\
  (isImageFile filename = true <->
   let ext := toLowerCase (afterLastDot filename) in
   ext = "png" \/ ext = "jpg" \/ ext = "jpeg" \/ ext = "webp" \/ ext = "bmp") /\
  isImageFile "png" = true /\ isImageFile "jpg" = true /\
  isImageFile "jpeg" = true /\ isImageFile "webp" = true /\
  isImageFile "bmp" = true.
Proof.
  assert (E : isImageFile filename
              = bool_decide (toLowerCase (afterLastDot filename)
                             ∈ IMAGE_EXTENSIONS)).
  { unfold isImageFile. now rewrite pop_split_dot. }
  split; [apply getExtension_afterLastDot|].
  split; [exact E|].
  split; [apply afterLastDot_no_dot|].
  split; [intros pre seg -> Hseg; now apply afterLastDot_app|].
  split.
  { rewrite E, bool_decide_eq_true. apply IMAGE_EXTENSIONS_spec. }
  repeat split; vm_compute; reflexivity.
Qed.

Lemma isImageFile_last_segment_witness :
  afterLastDot "photo.v2.PNG" = "PNG" /\ isImageFile "photo.v2.PNG" = true.
Proof.
  destruct (isImageFile_last_segment "photo.v2.PNG")
    as (_ & _ & _ & Hseg & Hin & _).
  split.
  - apply (Hseg "photo.v2" "PNG"); reflexivity.
  - apply Hin. left. reflexivity.
Defined.

Example isImageFile_txt : isImageFile "a.png.txt" = false.
Proof. vm_compute. reflexivity. Qed.

Example isImageFile_trailing_dot : isImageFile "png." = false.
Proof. vm_compute. reflexivity. Qed.

End ExtensionClaims.

(* ===================================================================== *)
(** * The resize engine *)
(* ===================================================================== *)

Section EngineClaims.
Import JsString Resizer Main.
Context `{Browser}.
Local Open Scope string_scope.

Lemma resizeImage_no_plan (input : bytes) (filename : string)
    (s : ImageResizerSettings) (img : HTMLImageElement) :
  loadImage input (getMimeType (getExtension filename)) = Some img ->
  calculateDimensions (naturalWidth img) (naturalHeight img)
    (maxWidth s) (maxHeight s) = None ->
  resizeImage input filename s = Ok None.
Proof. intros Hl Hc. unfold resizeImage. now rewrite Hl, Hc. Qed.

(** When the engine answers [null], [processFile] writes nothing. *)
Lemma processFile_null (file : TFile) (w : World) (input : bytes) :
  readBinary (vault w) file = Ok input ->
  resizeImage input (name file) (settings w) = Ok None ->
  vault (snd (processFile file w)) = vault w /\
  exists l, trace (snd (processFile file w)) = (trace w ++ l)%list /\
            forall e, e ∈ l ->
              e = EnterProcessFile file \/ e = CallReadBinary file \/
              e = CallResizeImage EventPath file input.
Proof.
  intros Hread Hresize. unfold processFile, processFile_body. mrun. wsimpl.
  destruct (bool_decide _).
  { split; [reflexivity|]. eexists. split; [reflexivity|].
    intros e He. apply list_elem_of_singleton in He. auto. }
  destruct (negb (isImageFile _)).
  { split; [reflexivity|]. eexists. split; [reflexivity|].
    intros e He. apply list_elem_of_singleton in He. auto. }
  destruct (negb _ && negb _).
  { split; [reflexivity|]. eexists. split; [reflexivity|].
    intros e He. apply list_elem_of_singleton in He. auto. }
  wsimpl. rewrite Hread, Hresize. wsimpl.
  split; [reflexivity|].
  exists [EnterProcessFile file; CallReadBinary file;
          CallResizeImage EventPath file input].
  split.
  - now rewrite <- !app_assoc.
  - intros e He. rewrite !elem_of_cons, elem_of_nil in He. tauto.
Qed.

(** When the engine answers [null], the batch loop counts the file as
    skipped and writes nothing. *)
Lemma batchStep_null (file : TFile) (w : World) (input : bytes) :
  readBinary (vault w) file = Ok input ->
  resizeImage input (name file) (settings w) = Ok None ->
  fst (batchStep file w) = Ok Skipped /\
  vault (snd (batchStep file w)) = vault w /\
  trace (snd (batchStep file w))
  = (trace w ++ [CallReadBinary file; CallResizeImage BatchPath file input])%list.
Proof.
  intros Hread Hresize. unfold batchStep. mrun. wsimpl.
  rewrite Hread, Hresize. wsimpl.
  repeat split; try reflexivity. now rewrite <- !app_assoc.
Qed.

(** C3: when the computed scale is at least 1 the planner answers "no
    resize needed" and [resizeImage] returns [null]; this is the case when
    both limits are 0 and when the image is at or below every limit that is
    set.  Nothing is written then: the event path and the batch path leave
    the vault as it is, and the batch counts the file as skipped. *)
Theorem no_resize_within_bounds (input : bytes) (filename : string)
    (s : ImageResizerSettings) (img : HTMLImageElement) :
  loadImage input (getMimeType (getExtension filename)) = Some img ->
  let w := naturalWidth img in
  let h := naturalHeight img in
  let scale := computedScale w h (maxWidth s) (maxHeight s) in
  (maxWidth s = 0%Z /\ maxHeight s = 0%Z -> (1 <= scale)%Q) /\
  ((maxWidth s = 0 \/ w <= maxWidth s)%Z /\
   (maxHeight s = 0 \/ h <= maxHeight s)%Z -> (1 <= scale)%Q) /\
  ((1 <= scale)%Q ->
   calculateDimensions w h (maxWidth s) (maxHeight s) = None /\
   resizeImage input filename s = Ok None /\
   forall (file : TFile) (world : World),
     name file = filename -> settings world = s ->
     readBinary (vault world) file = Ok input ->
     vault (snd (processFile file world)) = vault world /\
     fst (batchStep file world) = Ok Skipped /\
     vault (snd (batchStep file world)) = vault world).
Proof.
  intros Hload w h scale.
  assert (Hin : (maxWidth s = 0 \/ w <= maxWidth s)%Z /\
                (maxHeight s = 0 \/ h <= maxHeight s)%Z -> (1 <= scale)%Q).
  { intros [Hw Hh]. unfold scale.
    rewrite computedScale_inactive by lia. apply Qle_refl. }
  split; [intros [Hw Hh]; apply Hin; lia|].
  split; [exact Hin|].
  intros Hscale.
  pose proof (calculateDimensions_None _ _ _ _ Hscale) as Hplan.
  pose proof (resizeImage_no_plan _ _ _ _ Hload Hplan) as Hnull.
  split; [exact Hplan|]. split; [exact Hnull|].
  intros file world <- <- Hread.
  destruct (processFile_null file world input Hread Hnull) as [Hv _].
  destruct (batchStep_null file world input Hread Hnull) as (Ho & Hv' & _).
  auto.
Qed.

Lemma resizeImage_Some (input : bytes) (filename : string)
    (s : ImageResizerSettings) (r : ResizeResult) :
  resizeImage input filename s = Ok (Some r) ->
  newExtension r
  = if convertToJpeg s && String.eqb (getExtension filename) "png"
    then Some "jpg" else None.
Proof.
  unfold resizeImage.
  destruct (loadImage _ _) as [img|]; [|discriminate].
  destruct (calculateDimensions _ _ _ _) as [d|]; [|discriminate].
  destruct (negb (getContext _ _)); [discriminate|].
  destruct (convertToJpeg s && String.eqb (getExtension filename) "png");
    destruct (toBlob _ _ _ _ _); try discriminate;
    intros [= <-]; reflexivity.
Qed.

Lemma writeBack_single_same_extension (file : TFile) (r : ResizeResult) :
  newExtension r = None ->
  writeBack_single file r = vault_modifyBinary file (data r).
Proof. intros E. unfold writeBack_single. now rewrite E. Qed.

Lemma writeBack_batch_same_extension (file : TFile) (r : ResizeResult) :
  newExtension r = None ->
  writeBack_batch file r = vault_modifyBinary file (data r).
Proof. intros E. unfold writeBack_batch. now rewrite E. Qed.

Lemma vault_modifyBinary_spec (file : TFile) (d : bytes) (w : World) :
  trace (snd (vault_modifyBinary file d w))
  = (trace w ++ [CallModifyBinary file d])%list /\
  (vault (snd (vault_modifyBinary file d w)) = vault w \/
   vault (snd (vault_modifyBinary file d w))
   = <[path file := FileEntry d]> (vault w)).
Proof.
  unfold vault_modifyBinary, modifyBinary. mrun. wsimpl.
  destruct (vault w !! path file) as [[c|]|]; wsimpl; auto.
Qed.

(** The call of [canvas.toBlob] behind a successful resize: the decoded
    image, the planned size, the output type and the quality. *)
Lemma resizeImage_export (input : bytes) (filename : string)
    (s : ImageResizerSettings) (r : ResizeResult) :
  resizeImage input filename s = Ok (Some r) ->
  let ext := getExtension filename in
  let outputMime :=
    if convertToJpeg s && String.eqb ext "png"
    then "image/jpeg" else getMimeType ext in
  exists img : HTMLImageElement,
    loadImage input (getMimeType ext) = Some img /\
    toBlob img (width r) (height r) outputMime
      (if String.eqb outputMime "image/png" then None
       else Some (Number.div (inject_Z (jpegQuality s)) 100))
    = Some (data r).
Proof.
  unfold resizeImage. cbv zeta.
  destruct (loadImage _ _) as [img|]; [|discriminate].
  destruct (calculateDimensions _ _ _ _) as [d|]; [|discriminate].
  destruct (negb (getContext _ _)); [discriminate|].
  destruct (convertToJpeg s && String.eqb (getExtension filename) "png");
    destruct (toBlob _ _ _ _ _) eqn:Eb; try discriminate;
    intros [= <-]; exists img; split; try reflexivity; exact Eb.
Qed.

(** C8: after a successful resize [newExtension] is non-null exactly when
    a format conversion happened: the input extension is "png" and
    convert-to-JPEG is on.  The bytes of the result are then the ones
    [canvas.toBlob] gave for the type "image/jpeg" at the quality
    [jpegQuality / 100], from an image decoded as "image/png", and
    [newExtension] is "jpg".  In every other case the bytes are the ones
    [canvas.toBlob] gave for the type the image was decoded as (with no
    quality for "image/png"), [newExtension] is null, and both callers
    write the bytes back under the file's own path, without a rename. *)
Theorem newExtension_iff_conversion (input : bytes) (filename : string)
    (s : ImageResizerSettings) (r : ResizeResult) :
  resizeImage input filename s = Ok (Some r) ->
  let ext := getExtension filename in
  let inputMime := getMimeType ext in
  let quality := Number.div (inject_Z (jpegQuality s)) 100 in
  (newExtension r <> None <-> ext = "png" /\ convertToJpeg s = true) /\
  (ext = "png" /\ convertToJpeg s = true ->
   newExtension r = Some "jpg" /\
   inputMime = "image/png" /\
   exists img : HTMLImageElement,
     loadImage input "image/png" = Some img /\
     toBlob img (width r) (height r) "image/jpeg" (Some quality)
     = Some (data r)) /\
  (~ (ext = "png" /\ convertToJpeg s = true) ->
   newExtension r = None /\
   (exists img : HTMLImageElement,
      loadImage input inputMime = Some img /\
      toBlob img (width r) (height r) inputMime
        (if String.eqb inputMime "image/png" then None else Some quality)
      = Some (data r)) /\
   forall (file : TFile) (w : World),
     let w1 := snd (writeBack_single file r w) in
     let w2 := snd (writeBack_batch file r w) in
     trace w1 = (trace w ++ [CallModifyBinary file (data r)])%list /\
     trace w2 = (trace w ++ [CallModifyBinary file (data r)])%list /\
     (vault w1 = vault w \/
      vault w1 = <[path file := FileEntry (data r)]> (vault w)) /\
     (vault w2 = vault w \/
      vault w2 = <[path file := FileEntry (data r)]> (vault w))).
Proof.
  intros Hr ext inputMime quality.
  pose proof (resizeImage_Some _ _ _ _ Hr) as E.
  destruct (resizeImage_export _ _ _ _ Hr) as (img & Hl & Hb).
  fold ext in E, Hl, Hb. fold inputMime in Hl, Hb. fold quality in Hb.
  assert (Hcond : convertToJpeg s && String.eqb ext "png" = true <->
                  ext = "png" /\ convertToJpeg s = true).
  { rewrite andb_true_iff, String.eqb_eq. tauto. }
  destruct (convertToJpeg s && String.eqb ext "png") eqn:Ec.
  - assert (Hc : ext = "png" /\ convertToJpeg s = true)
      by (now apply Hcond).
    split; [rewrite E; split; [auto|discriminate]|].
    split; [|intros Hn; exfalso; auto].
    intros _. split; [exact E|].
    assert (Hm : inputMime = "image/png").
    { unfold inputMime. destruct Hc as [-> _]. reflexivity. }
    split; [exact Hm|].
    exists img. rewrite <- Hm at 1. split; [exact Hl|exact Hb].
  - assert (N : ~ (ext = "png" /\ convertToJpeg s = true)).
    { intros Hc. apply Hcond in Hc. discriminate. }
    split; [rewrite E; split; [congruence|tauto]|].
    split; [tauto|]. intros _. split; [exact E|].
    split; [exists img; split; [exact Hl|exact Hb]|].
    intros file w.
    rewrite writeBack_single_same_extension, writeBack_batch_same_extension
      by exact E.
    destruct (vault_modifyBinary_spec file (data r) w) as [Ht Hv]. auto.
Qed.

End EngineClaims.

Lemma no_resize_within_bounds_witness :
  Resizer.resizeImage (H := Sample.browser) Sample.small "b.jpg" Resizer.DEFAULT_SETTINGS = Resizer.Ok None /\
  Main.vault (snd (Main.processFile (H := Sample.browser) Sample.b_jpg (Sample.started Resizer.DEFAULT_SETTINGS)))
  = Sample.files.
Proof.
  destruct (no_resize_within_bounds (H := Sample.browser) Sample.small "b.jpg" Resizer.DEFAULT_SETTINGS
              (500, 500)%Z eq_refl) as (_ & Hin & Hnull).
  assert (Hs : (1 <= Resizer.computedScale 500 500 1920 1080)%Q).
  { apply Hin. simpl. lia. }
  destruct (Hnull Hs) as (_ & Hr & Hfile).
  split; [exact Hr|].
  apply (Hfile Sample.b_jpg (Sample.started Resizer.DEFAULT_SETTINGS));
    reflexivity.
Defined.

Lemma newExtension_iff_conversion_witness :
  Resizer.resizeImage (H := Sample.browser) Sample.wide "a.PNG"
    Sample.converting
  = Resizer.Ok (Some
      {| Resizer.data := [Byte.x13; Byte.x04];
         Resizer.width := 1920; Resizer.height := 480;
         Resizer.originalWidth := 4000; Resizer.originalHeight := 1000;
         Resizer.newExtension := Some "jpg"%string |}) /\
  Resizer.toBlob (Browser := Sample.browser) (4000, 1000)%Z 1920 480
    "image/jpeg"
    (Some (Number.div (inject_Z (Resizer.jpegQuality Sample.converting)) 100))
  = Some [Byte.x13; Byte.x04].
Proof.
  assert (Hr : Resizer.resizeImage (H := Sample.browser) Sample.wide "a.PNG"
                 Sample.converting
               = Resizer.Ok (Some
                   {| Resizer.data := [Byte.x13; Byte.x04];
                      Resizer.width := 1920; Resizer.height := 480;
                      Resizer.originalWidth := 4000;
                      Resizer.originalHeight := 1000;
                      Resizer.newExtension := Some "jpg"%string |}))
    by (vm_compute; reflexivity).
  split; [exact Hr|].
  destruct (newExtension_iff_conversion (H := Sample.browser) _ _ _ _ Hr)
    as (_ & Hconv & _).
  destruct Hconv as (_ & _ & img & Hl & Hb); [split; reflexivity|].
  injection Hl as <-. exact Hb.
Defined.

(* ===================================================================== *)
(** * Rules for computations *)
(* ===================================================================== *)

Section SoundRules.
Import Resizer Main Props.
Context `{Browser}.
Variable I : World -> Prop.
Variable P : effect -> Prop.

Lemma sound_ret {A : Type} (a : A) : sound I P (mret a).
Proof.
  intros w Hw. split; [exact Hw|]. exists []. simpl.
  now rewrite app_nil_r.
Qed.

Lemma sound_bind {A B : Type} (m : M A) (k : A -> M B) :
  sound I P m -> (forall a, sound I P (k a)) -> sound I P (m ≫= k).
Proof.
  intros Hm Hk w Hw. destruct (Hm w Hw) as [Hi (l & Et & Fl)].
  unfold mbind, M_bind. destruct (m w) as [[a|e] w']; simpl in *.
  - destruct (Hk a w' Hi) as [Hi' (l' & Et' & Fl')].
    split; [exact Hi'|]. exists (l ++ l'). rewrite Et', Et, app_assoc.
    split; [reflexivity|]. now apply Forall_app.
  - split; [exact Hi|]. now exists l.
Qed.

Lemma sound_get : sound I P get.
Proof.
  intros w Hw. split; [exact Hw|]. exists []. simpl. now rewrite app_nil_r.
Qed.

Lemma sound_lift {A : Type} (r : result A) : sound I P (lift r).
Proof.
  intros w Hw. split; [exact Hw|]. exists []. simpl. now rewrite app_nil_r.
Qed.

Lemma sound_update (f : World -> World) :
  (forall w, I w -> I (f w)) -> (forall w, trace (f w) = trace w) ->
  sound I P (update f).
Proof.
  intros Hf Ht w Hw. split; [now apply Hf|]. exists []. simpl.
  now rewrite app_nil_r.
Qed.

Lemma sound_try_catch {A : Type} (body : M A) (handler : error -> M A) :
  sound I P body -> (forall e, sound I P (handler e)) ->
  sound I P (try_catch body handler).
Proof.
  intros Hb Hh w Hw. destruct (Hb w Hw) as [Hi (l & Et & Fl)].
  unfold try_catch. destruct (body w) as [[a|e] w']; simpl in *.
  - split; [exact Hi|]. now exists l.
  - destruct (Hh e w' Hi) as [Hi' (l' & Et' & Fl')].
    split; [exact Hi'|]. exists (l ++ l'). rewrite Et', Et, app_assoc.
    split; [reflexivity|]. now apply Forall_app.
Qed.

Lemma sound_finally {A : Type} (body : M A) (fin : M unit) :
  sound I P body -> sound I P fin -> sound I P (finally body fin).
Proof.
  intros Hb Hf w Hw. destruct (Hb w Hw) as [Hi (l & Et & Fl)].
  unfold finally. destruct (body w) as [r w']; simpl in *.
  destruct (Hf w' Hi) as [Hi' (l' & Et' & Fl')].
  split; [exact Hi'|]. exists (l ++ l'). rewrite Et', Et, app_assoc.
  split; [reflexivity|]. now apply Forall_app.
Qed.

Hypothesis I_stable : stable I.

Lemma sound_emit (e : effect) : P e -> sound I P (emit e).
Proof.
  intros He w Hw. split.
  - now apply (stable_trace I I_stable).
  - exists [e]. split; [reflexivity|]. now constructor.
Qed.

Lemma sound_processing_add (p : string) : sound I P (processing_add p).
Proof.
  apply sound_update; [|reflexivity].
  intros w. apply (stable_processing I I_stable).
Qed.

Lemma sound_processing_delete (p : string) : sound I P (processing_delete p).
Proof.
  apply sound_update; [|reflexivity].
  intros w. apply (stable_processing I I_stable).
Qed.

Lemma sound_with_vault (v : gmap string entry) : sound I P (update (with_vault v)).
Proof.
  apply sound_update; [|reflexivity].
  intros w. apply (stable_vault I I_stable).
Qed.

Lemma sound_sleep (ms : Z) : sound I P (sleep ms).
Proof.
  apply sound_update; [|reflexivity].
  intros w. apply (stable_now I I_stable).
Qed.

Lemma sound_setTimeout (cb : callback) (delay : Z) :
  (forall f, cb <> DebounceFire f) -> sound I P (setTimeout cb delay).
Proof.
  intros Hcb w Hw. split.
  - now apply (stable_setTimeout I I_stable).
  - exists []. simpl. now rewrite app_nil_r.
Qed.

Lemma sound_vault_readBinary (file : TFile) :
  P (CallReadBinary file) -> sound I P (vault_readBinary file).
Proof.
  intros Hp. unfold vault_readBinary.
  apply sound_bind; [now apply sound_emit|]. intros _.
  apply sound_bind; [apply sound_get|]. intros w. apply sound_lift.
Qed.

Lemma sound_vault_modifyBinary (file : TFile) (d : bytes) :
  P (CallModifyBinary file d) -> sound I P (vault_modifyBinary file d).
Proof.
  intros Hp. unfold vault_modifyBinary.
  apply sound_bind; [now apply sound_emit|]. intros _.
  apply sound_bind; [apply sound_get|]. intros w.
  apply sound_bind; [apply sound_lift|]. intros v. apply sound_with_vault.
Qed.

Lemma sound_vault_renameFile (file : TFile) (newPath : string) :
  P (CallRenameFile file newPath) -> sound I P (vault_renameFile file newPath).
Proof.
  intros Hp. unfold vault_renameFile.
  apply sound_bind; [now apply sound_emit|]. intros _.
  apply sound_bind; [apply sound_get|]. intros w.
  apply sound_bind; [apply sound_lift|]. intros v. apply sound_with_vault.
Qed.

Lemma sound_vault_createBinary (p : string) (d : bytes) :
  P (CallCreateBinary p d) -> sound I P (vault_createBinary p d).
Proof.
  intros Hp. unfold vault_createBinary.
  apply sound_bind; [now apply sound_emit|]. intros _.
  apply sound_bind; [apply sound_get|]. intros w.
  apply sound_bind; [apply sound_lift|]. intros v. apply sound_with_vault.
Qed.

Lemma sound_call_resizeImage (from : caller) (file : TFile) (input : bytes) :
  P (CallResizeImage from file input) ->
  sound I P (call_resizeImage from file input).
Proof.
  intros Hp. unfold call_resizeImage.
  apply sound_bind; [now apply sound_emit|]. intros _.
  apply sound_bind; [apply sound_get|]. intros w. apply sound_lift.
Qed.

End SoundRules.

Lemma sound_weaken `{Resizer.Browser} {A : Type} (I : Main.World -> Prop)
    (P Q : Main.effect -> Prop) (m : Main.M A) :
  (forall e, P e -> Q e) -> Props.sound I P m -> Props.sound I Q m.
Proof.
  intros Hpq Hm w Hw. destruct (Hm w Hw) as [Hi (l & Et & Fl)].
  split; [exact Hi|]. exists l. split; [exact Et|].
  eapply Forall_impl; eauto.
Qed.

(** Applies the rule that fits the head of the computation. *)
Ltac sound_step :=
  match goal with
  | |- Props.sound _ _ (mbind _ _) => apply sound_bind; [|intros ?]
  | |- Props.sound _ _ (mret _) => apply sound_ret
  | |- Props.sound _ _ Main.get => apply sound_get
  | |- Props.sound _ _ (Main.lift _) => apply sound_lift
  | |- Props.sound _ _ (Main.emit _) => apply sound_emit; [assumption|]
  | |- Props.sound _ _ (Main.processing_add _) =>
      apply sound_processing_add; assumption
  | |- Props.sound _ _ (Main.processing_delete _) =>
      apply sound_processing_delete; assumption
  | |- Props.sound _ _ (Main.sleep _) => apply sound_sleep; assumption
  | |- Props.sound _ _ (Main.setTimeout _ _) =>
      apply sound_setTimeout; [assumption|intros ?; discriminate]
  | |- Props.sound _ _ (Main.vault_readBinary _) =>
      apply sound_vault_readBinary; [assumption|]
  | |- Props.sound _ _ (Main.vault_modifyBinary _ _) =>
      apply sound_vault_modifyBinary; [assumption|]
  | |- Props.sound _ _ (Main.vault_renameFile _ _) =>
      apply sound_vault_renameFile; [assumption|]
  | |- Props.sound _ _ (Main.vault_createBinary _ _) =>
      apply sound_vault_createBinary; [assumption|]
  | |- Props.sound _ _ (Main.call_resizeImage _ _ _) =>
      apply sound_call_resizeImage; [assumption|]
  | |- Props.sound _ _ (Main.try_catch _ _) =>
      apply sound_try_catch; [|intros ?]
  | |- Props.sound _ _ (Main.finally _ _) => apply sound_finally
  | |- Props.sound _ _ (if ?b then _ else _) => destruct b
  | |- Props.sound _ _ (match ?x with _ => _ end) => destruct x
  end.

Section PluginSound.
Import JsString Resizer Main Props.
Context `{Browser}.
Variable I : World -> Prop.
Hypothesis I_stable : stable I.

Lemma writeBack_single_sound (file : TFile) (r : ResizeResult) :
  sound I (processFile_effect file) (writeBack_single file r).
Proof.
  unfold writeBack_single, getAbstractFileByPath.
  repeat sound_step; simpl; auto.
Qed.

Lemma processFile_body_sound (file : TFile) :
  sound I (processFile_effect file) (processFile_body file).
Proof.
  unfold processFile_body.
  repeat (apply writeBack_single_sound || sound_step); simpl; auto.
Qed.

Lemma writeBack_batch_sound (file : TFile) (r : ResizeResult) :
  sound I (batchStep_effect file) (writeBack_batch file r).
Proof.
  unfold writeBack_batch, getAbstractFileByPath.
  repeat sound_step; simpl; auto.
Qed.

Lemma batchStep_sound (file : TFile) :
  sound I (batchStep_effect file) (batchStep file).
Proof.
  unfold batchStep.
  repeat (apply writeBack_batch_sound || sound_step); simpl; auto.
Qed.

Lemma batchLoop_sound (files : list TFile) (c : counters) :
  sound I batch_effect (batchLoop files c).
Proof.
  revert c. induction files as [|file rest IH]; intros c; simpl.
  - apply sound_ret.
  - apply sound_bind; [|intros o; apply IH].
    eapply sound_weaken; [|apply batchStep_sound].
    intros e He. now exists file.
Qed.

Lemma processFile_effect_not_entry (file : TFile) (e : effect) :
  processFile_effect file e -> not_entry e.
Proof. intros He f ->. exact He. Qed.

Lemma batchStep_effect_not_entry (file : TFile) (e : effect) :
  batchStep_effect file e -> not_entry e.
Proof. intros He f ->. exact He. Qed.

Lemma not_entry_notice (n : notice) : not_entry (ShowNotice n).
Proof. intros f. discriminate. Qed.

Lemma batchResize_sound (files : list TFile) (scope : string) :
  sound I not_entry (batchResize files scope).
Proof.
  unfold batchResize. destruct (length files =? 0)%nat.
  - apply sound_emit; [assumption|apply not_entry_notice].
  - apply sound_bind; [apply sound_emit; [assumption|apply not_entry_notice]|].
    intros _. apply sound_bind.
    + eapply sound_weaken; [|apply batchLoop_sound].
      intros e [file He]. now apply (batchStep_effect_not_entry file).
    + intros c. apply sound_emit; [assumption|apply not_entry_notice].
Qed.

Lemma resizeAllImages_sound (getFiles : list TFile) :
  sound I not_entry (resizeAllImages getFiles).
Proof. apply batchResize_sound. Qed.

Lemma resizeImagesInCurrentFolder_sound (activeFile : option TFile)
    (getFiles : list TFile) :
  sound I not_entry (resizeImagesInCurrentFolder activeFile getFiles).
Proof.
  unfold resizeImagesInCurrentFolder.
  destruct activeFile as [active|].
  - destruct (parent active).
    + apply batchResize_sound.
    + apply sound_emit; [assumption|apply not_entry_notice].
  - apply sound_emit; [assumption|apply not_entry_notice].
Qed.

Lemma pasteFullSize_sound (imageBlob : option bytes) (fullPath : string) :
  sound I not_entry (pasteFullSize imageBlob fullPath).
Proof.
  unfold pasteFullSize.
  repeat sound_step; try apply not_entry_notice; intros f; discriminate.
Qed.

(** The callbacks that release the guard add nothing to the trace. *)
Lemma release_sound (cb : callback) :
  (forall f, cb <> DebounceFire f) ->
  sound I (fun _ => False) (run_callback cb).
Proof.
  intros Hcb. destruct cb as [file|fullPath|file|file]; simpl.
  - exfalso. now apply (Hcb file).
  - now apply sound_processing_delete.
  - repeat sound_step.
  - now apply sound_processing_delete.
Qed.

Lemma processFile_sound (file : TFile) :
  sound I (fun e => e = EnterProcessFile file \/ processFile_effect file e)
    (processFile file).
Proof.
  unfold processFile. apply sound_bind.
  - apply sound_emit; [assumption|now left].
  - intros _. eapply sound_weaken; [|apply processFile_body_sound].
    intros e He. now right.
Qed.

End PluginSound.

(* ===================================================================== *)
(** * The processing guard *)
(* ===================================================================== *)

Section GuardClaims.
Import JsString Resizer Main Props.
Context `{Browser}.
Local Open Scope string_scope.

Lemma stable_True : stable (fun _ => True).
Proof. constructor; auto. Qed.

Lemma scheduleResize_guarded (file : TFile) (w : World) :
  path file ∈ processing w -> scheduleResize file w = (Ok tt, w).
Proof.
  intros Hg. unfold scheduleResize. mrun.
  destruct (negb (ready w)); [reflexivity|].
  destruct (negb (isImageFile (name file))); [reflexivity|].
  now rewrite bool_decide_eq_true_2.
Qed.

Lemma scheduleResize_trace (file : TFile) (w : World) :
  trace (snd (scheduleResize file w)) = trace w.
Proof.
  unfold scheduleResize. mrun.
  destruct (negb (ready w)); [reflexivity|].
  destruct (negb (isImageFile (name file))); [reflexivity|].
  destruct (bool_decide _); [reflexivity|].
  destruct (pending w !! path file) as [h|]; [destruct (truthy_handle h)|];
    reflexivity.
Qed.

Lemma processFile_guarded (file : TFile) (w : World) :
  path file ∈ processing w ->
  processFile file w
  = (Ok tt, with_trace (fun t => (t ++ [EnterProcessFile file])%list) w).
Proof.
  intros Hg. unfold processFile, processFile_body. mrun. wsimpl.
  now rewrite bool_decide_eq_true_2.
Qed.

(** The trace of an invocation: the entry, then effects of this file. *)
Lemma processFile_trace (file : TFile) (w : World) :
  exists l,
    trace (snd (processFile file w))
    = (trace w ++ EnterProcessFile file :: l)%list /\
    Forall (processFile_effect file) l.
Proof.
  unfold processFile.
  change ((emit (EnterProcessFile file);; processFile_body file) w)
    with (processFile_body file
            (with_trace (fun t => (t ++ [EnterProcessFile file])%list) w)).
  destruct (processFile_body_sound (fun _ => True) stable_True file
              (with_trace (fun t => (t ++ [EnterProcessFile file])%list) w)
              Logic.I) as [_ (l & Et & Fl)].
  exists l. split; [|exact Fl].
  rewrite Et. wsimpl. now rewrite <- app_assoc.
Qed.

(** C2: a file whose path is in the guard set is neither scheduled nor
    processed.  [scheduleResize] (the handler of create and modify events)
    leaves the plugin as it is, so no timer is armed; [processFile] returns
    at its first test, before the file is read or handed to the engine; and
    whatever timer callback runs, every engine call it makes on the event
    path is for a file whose path was not in the guard set when the
    callback started. *)
Theorem guarded_path_never_resized (w : World) :
  (forall file, path file ∈ processing w ->
     scheduleResize file w = (Ok tt, w) /\
     step w (VaultCreate file) = w /\
     step w (VaultModify file) = w /\
     processFile file w
     = (Ok tt, with_trace (fun t => (t ++ [EnterProcessFile file])%list) w) /\
     run_callback (DebounceFire file) w
     = (Ok tt,
        with_trace (fun t => (t ++ [EnterProcessFile file])%list)
          (with_pending (fun m => delete (path file) m) w))) /\
  (forall file, trace (snd (scheduleResize file w)) = trace w) /\
  (forall cb, exists l,
     trace (snd (run_callback cb w)) = (trace w ++ l)%list /\
     forall f input, CallResizeImage EventPath f input ∈ l ->
                     path f ∉ processing w).
Proof.
  split; [|split].
  - intros file Hg.
    pose proof (scheduleResize_guarded file w Hg) as Hs.
    split; [exact Hs|].
    split; [simpl; now rewrite Hs|].
    split; [simpl; now rewrite Hs|].
    split; [now apply processFile_guarded|].
    unfold run_callback.
    change ((update (with_pending (fun m => delete (path file) m));;
             processFile file) w)
      with (processFile file
              (with_pending (fun m => delete (path file) m) w)).
    now rewrite processFile_guarded.
  - intros file. apply scheduleResize_trace.
  - intros [file|fullPath|file|file].
    + unfold run_callback.
      change ((update (with_pending (fun m => delete (path file) m));;
               processFile file) w)
        with (processFile file
                (with_pending (fun m => delete (path file) m) w)).
      set (w1 := with_pending (fun m => delete (path file) m) w).
      destruct (decide (path file ∈ processing w)) as [Hg|Hg].
      * rewrite (processFile_guarded file w1 Hg). wsimpl.
        exists [EnterProcessFile file]. split; [reflexivity|].
        intros f input Hin. apply list_elem_of_singleton in Hin.
        discriminate.
      * destruct (processFile_trace file w1) as (l & Et & Fl).
        exists (EnterProcessFile file :: l). split; [exact Et|].
        intros f input Hin. apply elem_of_cons in Hin as [Hin|Hin];
          [discriminate|].
        rewrite Forall_forall in Fl. apply Fl in Hin.
        destruct Hin as [_ ->]. exact Hg.
    + exists []. split; [simpl; now rewrite app_nil_r|].
      intros f input Hin. now apply elem_of_nil in Hin.
    + exists []. split.
      * unfold run_callback. mrun. wsimpl.
        destruct (convertToJpeg _ && _); simpl; now rewrite app_nil_r.
      * intros f input Hin. now apply elem_of_nil in Hin.
    + exists []. split; [simpl; now rewrite app_nil_r|].
      intros f input Hin. now apply elem_of_nil in Hin.
Qed.

End GuardClaims.

Lemma guarded_path_never_resized_witness :
  Main.scheduleResize Sample.a_png
    (Main.with_processing (fun s => {["img/a.png"%string]} ∪ s)
       (Sample.started Resizer.DEFAULT_SETTINGS))
  = (Resizer.Ok tt,
     Main.with_processing (fun s => {["img/a.png"%string]} ∪ s)
       (Sample.started Resizer.DEFAULT_SETTINGS)).
Proof.
  apply (guarded_path_never_resized (H := Sample.browser)).
  simpl. apply elem_of_union_l, elem_of_singleton. reflexivity.
Defined.

(* ===================================================================== *)
(** * The write-back of a converted image *)
(* ===================================================================== *)

Section WriteBackClaims.
Import JsString Resizer Main Props.
Context `{Browser}.
Local Open Scope string_scope.

Lemma writeBack_single_target_exists (file : TFile) (r : ResizeResult)
    (w : World) (old : bytes) (e : entry) :
  newExtension r = Some "jpg" ->
  vault w !! path file = Some (FileEntry old) ->
  vault w !! target_single file = Some e ->
  writeBack_single file r w
  = (Ok tt,
     with_vault (<[path file := FileEntry (data r)]> (vault w))
       (with_trace (fun t => (t ++ [CallModifyBinary file (data r)])%list) w)).
Proof.
  intros Hx Hfile Htarget. unfold writeBack_single. rewrite Hx.
  change (truthy (Some "jpg")) with true. cbv iota.
  change ("." ++ default "" (Some "jpg")) with ".jpg".
  fold (target_single file).
  mrun. wsimpl. unfold modifyBinary. rewrite Hfile. wsimpl.
  unfold getAbstractFileByPath.
  destruct (decide (path file = target_single file)) as [E|E].
  - rewrite <- E, lookup_insert_eq. reflexivity.
  - rewrite lookup_insert_ne by exact E. rewrite Htarget. reflexivity.
Qed.

Lemma writeBack_batch_target_exists (file : TFile) (r : ResizeResult)
    (w : World) (old : bytes) (e : entry) :
  newExtension r = Some "jpg" ->
  vault w !! path file = Some (FileEntry old) ->
  vault w !! target_batch file = Some e ->
  writeBack_batch file r w
  = (Ok tt,
     with_vault (<[path file := FileEntry (data r)]> (vault w))
       (with_trace (fun t => (t ++ [CallModifyBinary file (data r)])%list) w)).
Proof.
  intros Hx Hfile Htarget. unfold writeBack_batch. rewrite Hx.
  change (truthy (Some "jpg")) with true. cbv iota.
  change ("." ++ default "" (Some "jpg")) with ".jpg".
  fold (target_batch file).
  mrun. wsimpl. unfold modifyBinary. rewrite Hfile. wsimpl.
  unfold getAbstractFileByPath.
  destruct (decide (path file = target_batch file)) as [E|E].
  - rewrite <- E, lookup_insert_eq. reflexivity.
  - rewrite lookup_insert_ne by exact E. rewrite Htarget. reflexivity.
Qed.

Lemma batchStep_target_exists (file : TFile) (r : ResizeResult)
    (w : World) (old : bytes) (e : entry) :
  newExtension r = Some "jpg" ->
  vault w !! path file = Some (FileEntry old) ->
  vault w !! target_batch file = Some e ->
  resizeImage old (name file) (settings w) = Ok (Some r) ->
  fst (batchStep file w) = Ok Resized /\
  vault (snd (batchStep file w))
  = <[path file := FileEntry (data r)]> (vault w) /\
  trace (snd (batchStep file w))
  = (trace w ++ [CallReadBinary file; CallResizeImage BatchPath file old;
                 CallModifyBinary file (data r)])%list.
Proof.
  intros Hx Hfile Htarget Hres. unfold batchStep. mrun. wsimpl.
  unfold readBinary. rewrite Hfile, Hres. wsimpl.
  erewrite writeBack_batch_target_exists by (wsimpl; eassumption).
  wsimpl. repeat split; try reflexivity. now rewrite <- !app_assoc.
Qed.

Lemma processFile_target_exists (file : TFile) (r : ResizeResult)
    (w : World) (old : bytes) (e : entry) :
  newExtension r = Some "jpg" ->
  vault w !! path file = Some (FileEntry old) ->
  vault w !! target_single file = Some e ->
  resizeImage old (name file) (settings w) = Ok (Some r) ->
  path file ∉ processing w ->
  isImageFile (name file) = true ->
  resizeOnPaste (settings w) || resizeOnDrop (settings w) = true ->
  vault (snd (processFile file w))
  = <[path file := FileEntry (data r)]> (vault w) /\
  trace (snd (processFile file w))
  = (trace w ++ [EnterProcessFile file; CallReadBinary file;
                 CallResizeImage EventPath file old;
                 CallModifyBinary file (data r)]
             ++ (if showNotice (settings w)
                 then [ShowNotice
                         (ImageResized (originalWidth r) (originalHeight r)
                            (width r) (height r)
                            (kilobytes old) (kilobytes (data r)))]
                 else []))%list.
Proof.
  intros Hx Hfile Htarget Hres Hg Himg Htog.
  unfold processFile, processFile_body. mrun. wsimpl.
  rewrite bool_decide_eq_false_2 by exact Hg. rewrite Himg. cbn [negb].
  assert (Ht : negb (resizeOnPaste (settings w))
               && negb (resizeOnDrop (settings w)) = false).
  { destruct (resizeOnPaste _), (resizeOnDrop _); simpl in *; congruence. }
  rewrite Ht. cbv beta iota. wsimpl.
  unfold readBinary. rewrite Hfile, Hres. wsimpl.
  erewrite writeBack_single_target_exists by (wsimpl; eassumption).
  wsimpl.
  destruct (showNotice (settings w)); wsimpl; split; try reflexivity;
    rewrite <- ?app_assoc; reflexivity.
Qed.

(** When something already exists at the path a write-back computes as
    the rename target of a PNG that was converted to JPEG, that write-back
    skips the rename.  The JPEG bytes are stored under the original path,
    that write is the only change to the vault (so what is at the target
    stays as it was), the target is not added to the guard set, and
    [renameFile] is not called.  The event path computes the target with
    [file.path.replace(file.name, newName)], the batch with
    [file.path.replace(/\.[^.]+$/, ".jpg")]. *)
Lemma rename_skipped_at_computed_target (file : TFile) (r : ResizeResult)
    (w : World) (old : bytes) (e : entry) :
  newExtension r = Some "jpg" ->
  vault w !! path file = Some (FileEntry old) ->
  (vault w !! target_single file = Some e ->
   let w' := snd (writeBack_single file r w) in
   fst (writeBack_single file r w) = Ok tt /\
   vault w' = <[path file := FileEntry (data r)]> (vault w) /\
   vault w' !! path file = Some (FileEntry (data r)) /\
   (target_single file <> path file ->
    vault w' !! target_single file = Some e) /\
   processing w' = processing w /\
   trace w' = (trace w ++ [CallModifyBinary file (data r)])%list /\
   (resizeImage old (name file) (settings w) = Ok (Some r) ->
    path file ∉ processing w -> isImageFile (name file) = true ->
    resizeOnPaste (settings w) || resizeOnDrop (settings w) = true ->
    vault (snd (processFile file w))
    = <[path file := FileEntry (data r)]> (vault w))) /\
  (vault w !! target_batch file = Some e ->
   let w' := snd (writeBack_batch file r w) in
   fst (writeBack_batch file r w) = Ok tt /\
   vault w' = <[path file := FileEntry (data r)]> (vault w) /\
   vault w' !! path file = Some (FileEntry (data r)) /\
   (target_batch file <> path file ->
    vault w' !! target_batch file = Some e) /\
   processing w' = processing w /\
   trace w' = (trace w ++ [CallModifyBinary file (data r)])%list /\
   (resizeImage old (name file) (settings w) = Ok (Some r) ->
    fst (batchStep file w) = Ok Resized /\
    vault (snd (batchStep file w))
    = <[path file := FileEntry (data r)]> (vault w))).
Proof.
  intros Hx Hfile. split.
  - intros Htarget.
    rewrite (writeBack_single_target_exists file r w old e Hx Hfile Htarget).
    wsimpl. split; [reflexivity|]. split; [reflexivity|].
    split; [apply lookup_insert_eq|].
    split; [intros Hne; rewrite lookup_insert_ne by auto; exact Htarget|].
    split; [reflexivity|]. split; [reflexivity|].
    intros Hres Hg Himg Htog.
    now destruct (processFile_target_exists file r w old e).
  - intros Htarget.
    rewrite (writeBack_batch_target_exists file r w old e Hx Hfile Htarget).
    wsimpl. split; [reflexivity|]. split; [reflexivity|].
    split; [apply lookup_insert_eq|].
    split; [intros Hne; rewrite lookup_insert_ne by auto; exact Htarget|].
    split; [reflexivity|]. split; [reflexivity|].
    intros Hres.
    destruct (batchStep_target_exists file r w old e) as (Ho & Hv & _); auto.
Qed.

End WriteBackClaims.

Example rename_skipped_beside_existing_jpg :
  Main.vault
    (snd (Main.processFile (H := Sample.browser) Sample.a_png
            (Sample.started Sample.converting)))
  = <["img/a.png"%string := Main.FileEntry [Byte.x13; Byte.x04]]> Sample.files.
Proof.
  destruct (rename_skipped_at_computed_target (H := Sample.browser)
              Sample.a_png
              {| Resizer.data := [Byte.x13; Byte.x04];
                 Resizer.width := 1920; Resizer.height := 480;
                 Resizer.originalWidth := 4000;
                 Resizer.originalHeight := 1000;
                 Resizer.newExtension := Some "jpg"%string |}
              (Sample.started Sample.converting)
              Sample.wide (Main.FileEntry Sample.small)
              eq_refl eq_refl) as [Hsingle _].
  destruct (Hsingle eq_refl) as (_ & _ & _ & _ & _ & _ & Hfull).
  apply Hfull.
  - vm_compute. reflexivity.
  - apply not_elem_of_empty.
  - vm_compute. reflexivity.
  - reflexivity.
Qed.

(** C10: the rename is not always skipped when a file exists at the path
    with the extension replaced by ".jpg".  With the PNG "pa.png/a.png"
    and a JPEG stored at "pa.png/a.jpg", the batch computes the target
    "pa.png/a.jpg", finds the JPEG and skips the rename.  The event path
    computes "pa.jpg/a.png" (the first occurrence of the file's name in its
    path is in the folder's name), finds nothing there, marks that path in
    the guard set and calls [renameFile] with it, although its own release
    callback uses "pa.png/a.jpg" as the target. *)
Theorem rename_not_skipped_when_name_repeats :
  let file := Sample.nested_png in
  let w := Sample.nested_taken in
  let jpeg := [Byte.x13; Byte.x04] in
  Main.vault w !! Main.path file = Some (Main.FileEntry Sample.wide) /\
  JsString.replace_ext (Main.path file) ".jpg" = "pa.png/a.jpg"%string /\
  Main.vault w !! "pa.png/a.jpg"%string = Some (Main.FileEntry Sample.small) /\
  Props.target_batch file = "pa.png/a.jpg"%string /\
  Props.target_single file = "pa.jpg/a.png"%string /\
  Main.trace (snd (Main.batchStep (H := Sample.browser) file w))
  = [Main.CallReadBinary file;
     Main.CallResizeImage Main.BatchPath file Sample.wide;
     Main.CallModifyBinary file jpeg] /\
  take 5 (Main.trace (snd (Main.processFile (H := Sample.browser) file w)))
  = [Main.EnterProcessFile file;
     Main.CallReadBinary file;
     Main.CallResizeImage Main.EventPath file Sample.wide;
     Main.CallModifyBinary file jpeg;
     Main.CallRenameFile file "pa.jpg/a.png"%string] /\
  Main.processing (snd (Main.processFile (H := Sample.browser) file w))
  = {[ "pa.png/a.png"%string; "pa.jpg/a.png"%string ]}.
Proof.
  cbv zeta. repeat split; try (vm_compute; reflexivity).
Qed.

(* ===================================================================== *)
(** * The batch coordinator *)
(* ===================================================================== *)

Section BatchClaims.
Import JsString Resizer Main Props.
Context `{Browser}.
Local Open Scope string_scope.

Lemma writeBack_batch_ok (file : TFile) (r : ResizeResult) (w : World)
    (old : bytes) :
  vault w !! path file = Some (FileEntry old) ->
  fst (writeBack_batch file r w) = Ok tt.
Proof.
  intros Hfile. unfold writeBack_batch.
  destruct (truthy (newExtension r)).
  - mrun. wsimpl. unfold modifyBinary. rewrite Hfile. wsimpl.
    unfold getAbstractFileByPath.
    destruct (_ !! replace_ext _ _) eqn:Et; [reflexivity|].
    wsimpl. unfold renameFile. rewrite Et, lookup_insert_eq. reflexivity.
  - mrun. wsimpl. unfold modifyBinary. rewrite Hfile. reflexivity.
Qed.

(** One iteration never throws, and which counter it increments is decided
    by what the vault and the engine answer. *)
Lemma batchStep_outcome (file : TFile) (w : World) :
  fst (batchStep file w) = Ok (classify w file).
Proof.
  unfold batchStep, classify. mrun. wsimpl. unfold readBinary.
  destruct (vault w !! path file) as [[old|]|] eqn:Hfile; [|reflexivity..].
  destruct (resizeImage old (name file) (settings w)) as [[r|]|e];
    [|reflexivity..].
  wsimpl.
  pose proof (writeBack_batch_ok file r
                (with_processing (fun s => {[path file]} ∪ s)
                   (with_trace
                      (fun t => (t ++ [CallResizeImage BatchPath file old])%list)
                      (with_trace
                         (fun t => (t ++ [CallReadBinary file])%list) w)))
                old Hfile) as Hok.
  destruct (writeBack_batch file r _) as [[[]|e] w']; simpl in Hok;
    [reflexivity|discriminate].
Qed.

Lemma batchLoop_cons (file : TFile) (rest : list TFile) (c : counters)
    (w : World) :
  batchLoop (file :: rest) c w
  = batchLoop rest (count (classify w file) c) (snd (batchStep file w)).
Proof.
  simpl. unfold mbind, M_bind.
  pose proof (batchStep_outcome file w) as Ho.
  destruct (batchStep file w) as [[o|e] w']; simpl in *; congruence.
Qed.

Lemma total_count (o : outcome) (c : counters) :
  total (count o c) = S (total c).
Proof. destruct o; unfold total; simpl; lia. Qed.

Lemma batchLoop_result (files : list TFile) (c : counters) (w : World) :
  exists w',
    batchLoop files c w
    = (Ok (fold_left (fun c o => count o c) (batchOutcomes files w) c), w').
Proof.
  revert c w. induction files as [|file rest IH]; intros c w.
  - now exists w.
  - rewrite batchLoop_cons. simpl. apply IH.
Qed.

Lemma total_fold (os : list outcome) (c : counters) :
  total (fold_left (fun c o => count o c) os c) = total c + length os.
Proof.
  revert c. induction os as [|o os IH]; intros c; simpl; [lia|].
  rewrite IH, total_count. lia.
Qed.

Lemma batchOutcomes_length (files : list TFile) (w : World) :
  length (batchOutcomes files w) = length files.
Proof.
  revert w. induction files as [|file rest IH]; intros w; simpl;
    [reflexivity|]. now rewrite IH.
Qed.

Lemma reports_app (l1 l2 : list effect) :
  reports (l1 ++ l2) = (reports l1 ++ reports l2)%list.
Proof.
  induction l1 as [|e l1 IH]; [reflexivity|].
  simpl. destruct e as [| | | | | |[]|]; simpl; now rewrite ?IH.
Qed.

Lemma reports_batch_effect (l : list effect) :
  Forall batch_effect l -> reports l = [].
Proof.
  induction 1 as [|e l [file He] _ IH]; [reflexivity|].
  destruct e as [| | | | | |n|]; simpl in *; try exact IH; contradiction.
Qed.

Lemma batchStep_counts (file : TFile) (rest : list TFile) (c : counters)
    (w : World) (o : outcome) :
  classify w file = o ->
  fst (batchStep file w) = Ok o /\
  batchLoop (file :: rest) c w
  = batchLoop rest (count o c) (snd (batchStep file w)).
Proof.
  intros <-. split; [apply batchStep_outcome|apply batchLoop_cons].
Qed.

Lemma batchLoop_reports (files : list TFile) (c : counters) (w : World) :
  reports (trace (snd (batchLoop files c w))) = reports (trace w).
Proof.
  destruct (batchLoop_sound (fun _ => True) stable_True files c w Logic.I)
    as [_ (l & Et & Fl)].
  rewrite Et, reports_app, (reports_batch_effect l Fl).
  apply app_nil_r.
Qed.

(** C7: the batch loop ends for every list of files, never throws, and
    increments exactly one counter per file, so the three counters add up
    to the number of files.  An iteration whose engine result is null
    increments [skippedCount]; one whose read or whose engine throws
    increments [errorCount]; one that resized increments [resizedCount];
    in each case the loop goes on with the next file.  [batchResize]
    never throws, and shows exactly one aggregate report, as its last
    effect: the summary with the three counters the loop ended with, or,
    for an empty list, the notice that no image was found. *)
Theorem batch_counts_every_file (files : list TFile) (scope : string)
    (w : World) :
  (forall c0 w0, exists w',
     batchLoop files c0 w0
     = (Ok (fold_left (fun c o => count o c) (batchOutcomes files w0) c0), w')
     /\ total (fold_left (fun c o => count o c) (batchOutcomes files w0) c0)
        = total c0 + length files) /\
  (forall file rest c0 w0,
     batchLoop (file :: rest) c0 w0
     = batchLoop rest (count (classify w0 file) c0)
         (snd (batchStep file w0))) /\
  (forall file w0, exists o, fst (batchStep file w0) = Ok o) /\
  (forall file rest c0 w0 input,
     readBinary (vault w0) file = Ok input ->
     resizeImage input (name file) (settings w0) = Ok None ->
     fst (batchStep file w0) = Ok Skipped /\
     batchLoop (file :: rest) c0 w0
     = batchLoop rest
         {| resizedCount := resizedCount c0;
            skippedCount := S (skippedCount c0);
            errorCount := errorCount c0 |}
         (snd (batchStep file w0))) /\
  (forall file rest c0 w0 e,
     readBinary (vault w0) file = Throw e ->
     fst (batchStep file w0) = Ok Errored /\
     batchLoop (file :: rest) c0 w0
     = batchLoop rest
         {| resizedCount := resizedCount c0;
            skippedCount := skippedCount c0;
            errorCount := S (errorCount c0) |}
         (snd (batchStep file w0))) /\
  (forall file rest c0 w0 input e,
     readBinary (vault w0) file = Ok input ->
     resizeImage input (name file) (settings w0) = Throw e ->
     fst (batchStep file w0) = Ok Errored /\
     batchLoop (file :: rest) c0 w0
     = batchLoop rest
         {| resizedCount := resizedCount c0;
            skippedCount := skippedCount c0;
            errorCount := S (errorCount c0) |}
         (snd (batchStep file w0))) /\
  (forall file rest c0 w0 input r,
     readBinary (vault w0) file = Ok input ->
     resizeImage input (name file) (settings w0) = Ok (Some r) ->
     fst (batchStep file w0) = Ok Resized /\
     batchLoop (file :: rest) c0 w0
     = batchLoop rest
         {| resizedCount := S (resizedCount c0);
            skippedCount := skippedCount c0;
            errorCount := errorCount c0 |}
         (snd (batchStep file w0))) /\
  fst (batchResize files scope w) = Ok tt /\
  match files with
  | [] =>
      trace (snd (batchResize files scope w))
      = (trace w ++ [ShowNotice (NoImagesFound scope)])%list /\
      reports (trace (snd (batchResize files scope w)))
      = (reports (trace w) ++ [NoImagesFound scope])%list
  | _ :: _ =>
      let w1 :=
        with_trace
          (fun t => (t ++ [ShowNotice (Scanning (length files) scope)])%list)
          w in
      exists (c : counters) (w2 : World),
        batchLoop files
          {| resizedCount := 0; skippedCount := 0; errorCount := 0 |} w1
        = (Ok c, w2) /\
        (resizedCount c + skippedCount c + errorCount c = length files)%nat /\
        trace (snd (batchResize files scope w))
        = (trace w2 ++
           [ShowNotice (BatchSummary (resizedCount c) (skippedCount c)
                          (errorCount c))])%list /\
        reports (trace (snd (batchResize files scope w)))
        = (reports (trace w) ++
           [BatchSummary (resizedCount c) (skippedCount c)
              (errorCount c)])%list
  end.
Proof.
  split.
  { intros c0 w0. destruct (batchLoop_result files c0 w0) as [w' Hloop].
    exists w'. split; [exact Hloop|].
    now rewrite total_fold, batchOutcomes_length. }
  split; [intros; apply batchLoop_cons|].
  split; [intros file w0; eexists; apply batchStep_outcome|].
  split.
  { intros file rest c0 w0 input Hr He.
    apply (batchStep_counts file rest c0 w0 Skipped).
    unfold classify. now rewrite Hr, He. }
  split.
  { intros file rest c0 w0 e Hr.
    apply (batchStep_counts file rest c0 w0 Errored).
    unfold classify. now rewrite Hr. }
  split.
  { intros file rest c0 w0 input e Hr He.
    apply (batchStep_counts file rest c0 w0 Errored).
    unfold classify. now rewrite Hr, He. }
  split.
  { intros file rest c0 w0 input r Hr He.
    apply (batchStep_counts file rest c0 w0 Resized).
    unfold classify. now rewrite Hr, He. }
  destruct files as [|file rest].
  - split; [reflexivity|]. split; [reflexivity|].
    unfold batchResize. simpl. unfold emit, update. wsimpl.
    now rewrite reports_app.
  - unfold batchResize.
    change (length (file :: rest) =? 0)%nat with false. cbv iota.
    unfold mbind, M_bind, emit, update. cbv zeta.
    set (w1 := with_trace _ w).
    destruct (batchLoop_result (file :: rest) no_counts w1) as [w1' Hloop].
    set (c := fold_left (fun c o => count o c)
                (batchOutcomes (file :: rest) w1) no_counts) in *.
    pose proof (batchLoop_reports (file :: rest) no_counts w1) as Hrep.
    unfold no_counts in Hloop, Hrep. rewrite Hloop in Hrep |- *.
    simpl in Hrep. wsimpl.
    split; [reflexivity|].
    exists c, w1'.
    split; [reflexivity|].
    split.
    { pose proof (total_fold (batchOutcomes (file :: rest) w1) no_counts)
        as Ht.
      fold c in Ht. rewrite batchOutcomes_length in Ht.
      unfold total in Ht. simpl in Ht. exact Ht. }
    split; [reflexivity|].
    rewrite reports_app, Hrep. unfold w1. wsimpl.
    rewrite reports_app. simpl. now rewrite app_nil_r.
Qed.

End BatchClaims.

Example batch_with_a_corrupt_image :
  Props.reports
    (Main.trace
       (Main.run (H := Sample.browser)
          (Sample.started Resizer.DEFAULT_SETTINGS)
          [Main.CmdResizeAll [Sample.a_png; Sample.b_jpg; Sample.c_png]]))
  = [Main.BatchSummary 1 1 1].
Proof. vm_compute. reflexivity. Qed.

(* ===================================================================== *)
(** * The debounce scheduler *)
(* ===================================================================== *)

Section TimerInvariant.
Import JsString Resizer Main Props.
Context `{Browser}.
Local Open Scope string_scope.

Lemma Inv_same_timers (w w' : World) :
  timers w' = timers w -> nextHandle w' = nextHandle w ->
  pending w' = pending w -> Inv w -> Inv w'.
Proof.
  intros Et En Ep [I1 I2 I3 I4 I5].
  constructor; rewrite ?Et, ?En, ?Ep; assumption.
Qed.

Lemma stable_Inv : stable Inv.
Proof.
  constructor.
  1-6: intros x w Hi; eapply Inv_same_timers; [| | |exact Hi]; reflexivity.
  intros cb delay w Hcb [I1 I2 I3 I4 I5]. unfold setTimeout. wsimpl.
  constructor; wsimpl;
    [| | | |intros p h Hp; specialize (I5 p h Hp); lia].
  - lia.
  - intros t Ht. apply elem_of_app in Ht as [Ht|Ht].
    + specialize (I2 t Ht). lia.
    + apply list_elem_of_singleton in Ht. subst t. simpl. lia.
  - rewrite fmap_app. simpl. apply NoDup_app. split; [exact I3|]. split.
    + intros h Hh Hn. apply list_elem_of_singleton in Hn. subst h.
      apply list_elem_of_fmap in Hh as (t & Eh & Ht).
      specialize (I2 t Ht). lia.
    + apply NoDup_singleton.
  - intros t f Ht Ha. apply elem_of_app in Ht as [Ht|Ht].
    + now apply I4.
    + apply list_elem_of_singleton in Ht. subst t. simpl in Ha.
      exfalso. exact (Hcb f Ha).
Qed.

Lemma stable_NoDebounce : stable NoDebounce.
Proof.
  constructor.
  1-6: intros x w Hi; exact Hi.
  intros cb delay w Hcb Hi t f Ht Ha. unfold setTimeout in Ht.
  simpl in Ht. apply elem_of_app in Ht as [Ht|Ht].
  - exact (Hi t f Ht Ha).
  - apply list_elem_of_singleton in Ht. subst t. simpl in Ha.
    exact (Hcb f Ha).
Qed.

Lemma stable_and (I J : World -> Prop) :
  stable I -> stable J -> stable (fun w => I w /\ J w).
Proof.
  intros [a1 a2 a3 a4 a5 a6 a7] [b1 b2 b3 b4 b5 b6 b7].
  constructor.
  1-6: intros x w [Hi Hj]; split; auto.
  intros cb delay w Hcb [Hi Hj]; split; auto.
Qed.

Lemma find_timer_Some (h : Z) (ts : list Timer) (t : Timer) :
  find_timer h ts = Some t -> t ∈ ts /\ handle t = h.
Proof.
  unfold find_timer. intros Hf. apply find_some in Hf as [Hin Heq].
  split; [now apply list_elem_of_In|]. now apply Z.eqb_eq.
Qed.

Lemma Inv_disarm (h : Z) (w : World) :
  Inv w -> Inv (with_timers (filter (fun t' => handle t' ≠ h)) w).
Proof.
  intros [I1 I2 I3 I4 I5]. constructor; wsimpl.
  - exact I1.
  - intros t Ht. apply list_elem_of_filter in Ht as [_ Ht]. now apply I2.
  - eapply sublist_NoDup; [exact I3|].
    apply fmap_sublist, sublist_filter.
  - intros t f Ht Ha. apply list_elem_of_filter in Ht as [_ Ht].
    now apply I4.
  - exact I5.
Qed.

Lemma scheduleResize_accepted (file : TFile) (w : World) :
  ready w = true -> isImageFile (name file) = true ->
  path file ∉ processing w ->
  scheduleResize file w = (Ok tt, arm file (disarm_existing file w)).
Proof.
  intros Hr Hi Hg. unfold scheduleResize, disarm_existing. mrun.
  rewrite Hr, Hi. cbn [negb]. rewrite bool_decide_eq_false_2 by exact Hg.
  destruct (pending w !! path file) as [existing|];
    [destruct (truthy_handle existing)|]; reflexivity.
Qed.

Lemma scheduleResize_cases (file : TFile) (w : World) :
  scheduleResize file w = (Ok tt, w) \/
  scheduleResize file w = (Ok tt, arm file (disarm_existing file w)).
Proof.
  unfold scheduleResize, disarm_existing. mrun.
  destruct (negb (ready w)); [now left|].
  destruct (negb (isImageFile (name file))); [now left|].
  destruct (bool_decide _); [now left|]. right.
  destruct (pending w !! path file) as [existing|];
    [destruct (truthy_handle existing)|]; reflexivity.
Qed.

Lemma disarm_existing_Inv (file : TFile) (w : World) :
  Inv w ->
  Inv (disarm_existing file w) /\
  pending (disarm_existing file w) = pending w /\
  forall t f, t ∈ timers (disarm_existing file w) ->
              action t = DebounceFire f -> path f <> path file.
Proof.
  intros Hi. pose proof Hi as [I1 I2 I3 I4 I5]. unfold disarm_existing.
  destruct (pending w !! path file) as [existing|] eqn:Ep.
  - destruct (truthy_handle existing) eqn:Et.
    + split; [now apply Inv_disarm|]. split; [reflexivity|].
      intros t f Ht Ha Hp. wsimpl.
      apply list_elem_of_filter in Ht as [Hne Ht].
      specialize (I4 t f Ht Ha). rewrite Hp, Ep in I4.
      injection I4 as ->. now apply Hne.
    + split; [exact Hi|]. split; [reflexivity|].
      intros t f Ht Ha Hp.
      specialize (I4 t f Ht Ha). rewrite Hp, Ep in I4.
      injection I4 as ->. specialize (I2 t Ht).
      unfold truthy_handle in Et. apply negb_false_iff, Z.eqb_eq in Et. lia.
  - split; [exact Hi|]. split; [reflexivity|].
    intros t f Ht Ha Hp.
    specialize (I4 t f Ht Ha). rewrite Hp, Ep in I4. discriminate.
Qed.

Lemma arm_Inv (file : TFile) (w : World) :
  Inv w ->
  (forall t f, t ∈ timers w -> action t = DebounceFire f ->
               path f <> path file) ->
  Inv (arm file w).
Proof.
  intros [I1 I2 I3 I4 I5] Hother. unfold arm. constructor; wsimpl;
    [| | | |intros p h Hp; apply lookup_insert_Some in Hp as [[_ <-]|[_ Hp]];
            [lia|specialize (I5 p h Hp); lia]].
  - lia.
  - intros t Ht. apply elem_of_app in Ht as [Ht|Ht].
    + specialize (I2 t Ht). lia.
    + apply list_elem_of_singleton in Ht. subst t. simpl. lia.
  - rewrite fmap_app. simpl. apply NoDup_app. split; [exact I3|]. split.
    + intros h Hh Hn. apply list_elem_of_singleton in Hn. subst h.
      apply list_elem_of_fmap in Hh as (t & Eh & Ht).
      specialize (I2 t Ht). lia.
    + apply NoDup_singleton.
  - intros t f Ht Ha. apply elem_of_app in Ht as [Ht|Ht].
    + rewrite lookup_insert_ne by (intros Hc; now apply (Hother t f Ht Ha)).
      now apply I4.
    + apply list_elem_of_singleton in Ht. subst t. simpl in Ha.
      injection Ha as <-. simpl. apply lookup_insert_eq.
Qed.

Lemma scheduleResize_Inv (file : TFile) (w : World) :
  Inv w -> Inv (snd (scheduleResize file w)).
Proof.
  intros Hi. destruct (scheduleResize_cases file w) as [->| ->]; [exact Hi|].
  destruct (disarm_existing_Inv file w Hi) as (Hi1 & _ & Hother).
  now apply arm_Inv.
Qed.

Lemma sound_Inv {A : Type} (P : effect -> Prop) (m : M A) (w : World) :
  sound Inv P m -> Inv w -> Inv (snd (m w)).
Proof. intros Hs Hi. now destruct (Hs w Hi). Qed.

Lemma fire_Inv (h : Z) (w : World) : Inv w -> Inv (fire h w).
Proof.
  intros Hi. unfold fire.
  destruct (find_timer h (timers w)) as [t|] eqn:Ef; [|exact Hi].
  apply find_timer_Some in Ef as [Ht Eh].
  pose proof (Inv_disarm h w Hi) as Hi1.
  set (w1 := with_timers (filter (fun t' => handle t' ≠ h)) w) in *.
  destruct (action t) as [file|fullPath|file|file] eqn:Ea.
  - (* the debounce timer of [file] fires *)
    unfold run_callback.
    change ((update (with_pending (fun m => delete (path file) m));;
             processFile file) w1)
      with (processFile file
              (with_pending (fun m => delete (path file) m) w1)).
    apply (sound_Inv _ _ _ (processFile_sound Inv stable_Inv file)).
    destruct Hi as [I1 I2 I3 I4 I5]. destruct Hi1 as [J1 J2 J3 J4 J5].
    constructor; wsimpl; try assumption;
      [|intros p h' Hp; apply lookup_delete_Some in Hp as [_ Hp];
        exact (J5 p h' Hp)].
    intros t' f Ht' Ha'.
    assert (Hne : path f <> path file).
    { intros Hp. unfold w1 in Ht'. wsimpl.
      apply list_elem_of_filter in Ht' as [Hne Ht'].
      pose proof (I4 t' f Ht' Ha') as E1.
      pose proof (I4 t file Ht Ea) as E2.
      rewrite Hp, E2 in E1. injection E1 as E1. congruence. }
    rewrite lookup_delete_ne by congruence. now apply J4.
  - apply (sound_Inv (fun _ => False)); [|exact Hi1].
    apply release_sound; [apply stable_Inv|intros f; discriminate].
  - apply (sound_Inv (fun _ => False)); [|exact Hi1].
    apply release_sound; [apply stable_Inv|intros f; discriminate].
  - apply (sound_Inv (fun _ => False)); [|exact Hi1].
    apply release_sound; [apply stable_Inv|intros f; discriminate].
Qed.

Lemma fire_all_Inv (hs : list Z) (w : World) : Inv w -> Inv (fire_all hs w).
Proof.
  revert w. induction hs as [|h hs IH]; intros w Hi; [exact Hi|].
  simpl. apply IH. now apply fire_Inv.
Qed.

Lemma tick_Inv (w : World) : Inv w -> Inv (tick w).
Proof.
  intros Hi. unfold tick. apply fire_all_Inv.
  now apply (stable_now Inv stable_Inv).
Qed.

Lemma elapse_Inv (ms : nat) (w : World) : Inv w -> Inv (elapse ms w).
Proof.
  intros Hi. induction ms as [|ms IH]; [exact Hi|].
  simpl. now apply tick_Inv.
Qed.

Lemma onunload_Inv (w : World) : Inv w -> Inv (snd (onunload w)).
Proof.
  intros [I1 I2 I3 I4 I5]. unfold onunload. mrun. wsimpl.
  constructor; wsimpl;
    [| | | |intros p h Hp; now rewrite lookup_empty in Hp].
  - exact I1.
  - intros t Ht. apply list_elem_of_filter in Ht as [_ Ht]. now apply I2.
  - eapply sublist_NoDup; [exact I3|].
    apply fmap_sublist, sublist_filter.
  - intros t f Ht Ha. apply list_elem_of_filter in Ht as [Hn Ht].
    exfalso. apply Hn.
    apply list_elem_of_fmap. exists (path f, handle t).
    split; [reflexivity|]. apply elem_of_map_to_list. now apply I4.
Qed.

Lemma step_Inv (w : World) (i : input) : Inv w -> Inv (step w i).
Proof.
  intros Hi. destruct i; simpl.
  - now apply (stable_ready Inv stable_Inv).
  - now apply scheduleResize_Inv.
  - now apply scheduleResize_Inv.
  - now apply elapse_Inv.
  - apply (sound_Inv not_entry); [|exact Hi].
    apply resizeAllImages_sound, stable_Inv.
  - apply (sound_Inv not_entry); [|exact Hi].
    apply resizeImagesInCurrentFolder_sound, stable_Inv.
  - apply (sound_Inv not_entry); [|exact Hi].
    apply pasteFullSize_sound, stable_Inv.
  - now apply onunload_Inv.
  - now apply (stable_settings Inv stable_Inv).
  - now apply (stable_vault Inv stable_Inv).
Qed.

Lemma initial_Inv (s : ImageResizerSettings) (v : gmap string entry) :
  Inv (initial s v).
Proof.
  constructor; simpl.
  - lia.
  - intros t Ht. now apply elem_of_nil in Ht.
  - apply NoDup_nil_2.
  - intros t f Ht. now apply elem_of_nil in Ht.
  - intros p h Hp. now rewrite lookup_empty in Hp.
Qed.

Lemma run_Inv (inputs : list input) (w : World) : Inv w -> Inv (run w inputs).
Proof.
  revert w. induction inputs as [|i inputs IH]; intros w Hi; [exact Hi|].
  simpl. apply IH. now apply step_Inv.
Qed.

Lemma is_debounce_true (p : string) (t : Timer) :
  is_debounce p t = true <-> exists f, action t = DebounceFire f /\ path f = p.
Proof.
  unfold is_debounce. destruct (action t) as [f| | |]; split;
    try discriminate; try (intros (f' & Hc & _); discriminate).
  - intros E. apply String.eqb_eq in E. now exists f.
  - intros (f' & [= <-] & <-). apply String.eqb_refl.
Qed.

Lemma NoDup_all_equal {A : Type} (l : list A) :
  NoDup l -> (forall x y, x ∈ l -> y ∈ l -> x = y) -> length l <= 1.
Proof.
  intros Hn Heq. destruct l as [|a [|b l]]; simpl; try lia.
  exfalso. apply NoDup_cons in Hn as [Hn _]. apply Hn.
  rewrite (Heq a b); [left| left | right; left].
Qed.

(** At most one debounce timer is armed per path, and it is the one the
    pending map holds. *)
Lemma Inv_one_timer (w : World) (p : string) :
  Inv w ->
  length (debounce_timers p w) <= 1 /\
  forall t, t ∈ debounce_timers p w -> pending w !! p = Some (handle t).
Proof.
  intros [I1 I2 I3 I4 I5].
  assert (Hp : forall t, t ∈ debounce_timers p w ->
                         pending w !! p = Some (handle t)).
  { intros t Ht. apply list_elem_of_filter in Ht as [Hd Ht].
    apply is_debounce_true in Hd as (f & Ha & <-). now apply I4. }
  split; [|exact Hp].
  rewrite <- (length_fmap handle). apply NoDup_all_equal.
  - eapply sublist_NoDup; [exact I3|].
    apply fmap_sublist, sublist_filter.
  - intros x y Hx Hy.
    apply list_elem_of_fmap in Hx as (tx & -> & Hx).
    apply list_elem_of_fmap in Hy as (ty & -> & Hy).
    pose proof (Hp tx Hx) as E1. pose proof (Hp ty Hy) as E2. congruence.
Qed.

End TimerInvariant.

Section Debounce.
Import JsString Resizer Main Props.
Context `{Browser}.
Local Open Scope string_scope.

Lemma filter_none {A : Type} (P : A -> Prop) `{forall x, Decision (P x)}
    (l : list A) :
  (forall x, x ∈ l -> ~ P x) -> filter P l = [].
Proof.
  induction l as [|a l IH]; intros Hn; [reflexivity|].
  rewrite filter_cons_False by (apply Hn; left).
  apply IH. intros x Hx. apply Hn. now right.
Qed.

(** Nothing happens while no timer is due. *)
Lemma tick_idle (w : World) :
  (forall t, t ∈ timers w -> (now w + 1 < deadline t)%Z) ->
  tick w = with_now (now w + 1) w.
Proof.
  intros Hd. unfold tick. wsimpl.
  rewrite filter_none; [reflexivity|].
  intros t Ht Hc. specialize (Hd t Ht). apply Z.leb_le in Hc. lia.
Qed.

Lemma elapse_S (n : nat) (w : World) : elapse (S n) w = tick (elapse n w).
Proof. reflexivity. Qed.

Lemma elapse_idle (n : nat) (w : World) :
  (forall t, t ∈ timers w -> (now w + Z.of_nat n < deadline t)%Z) ->
  elapse n w = with_now (now w + Z.of_nat n) w.
Proof.
  induction n as [|n IH]; intros Hd.
  - simpl. rewrite Z.add_0_r. now destruct w.
  - rewrite elapse_S.
    rewrite IH by (intros t Ht; specialize (Hd t Ht); lia).
    rewrite tick_idle by (wsimpl; intros t Ht; specialize (Hd t Ht); lia).
    wsimpl. unfold with_now. wsimpl. f_equal. lia.
Qed.

Lemma elapse_add (a b : nat) (w : World) :
  elapse (a + b) w = elapse a (elapse b w).
Proof. unfold elapse. apply Nat.iter_add. Qed.

(** An accepted event leaves exactly the new timer armed, whether the
    plugin was idle or had the previous timer of the burst armed. *)
Lemma schedule_arms (file : TFile) (w : World) :
  open_for file w ->
  timers w = [] \/ (exists due, armed_until file due w) ->
  let w' := snd (scheduleResize file w) in
  armed_until file (now w + 500) w' /\ open_for file w' /\
  trace w' = trace w /\ now w' = now w /\ vault w' = vault w /\
  settings w' = settings w.
Proof.
  intros (Hr & Hi & Hg & Hn) Hstate w'. unfold w'.
  rewrite scheduleResize_accepted by assumption. cbn [snd].
  assert (Hd : timers (disarm_existing file w) = []
               /\ nextHandle (disarm_existing file w) = nextHandle w
               /\ now (disarm_existing file w) = now w
               /\ trace (disarm_existing file w) = trace w
               /\ ready (disarm_existing file w) = ready w
               /\ processing (disarm_existing file w) = processing w
               /\ vault (disarm_existing file w) = vault w
               /\ settings (disarm_existing file w) = settings w).
  { unfold disarm_existing. destruct Hstate as [He|(due & t & Et & Ha & Ed & Ep & Hh)].
    - destruct (pending w !! path file) as [existing|];
        [destruct (truthy_handle existing)|]; wsimpl; rewrite ?He;
        repeat split; reflexivity.
    - rewrite Ep.
      assert (Htr : truthy_handle (handle t) = true).
      { unfold truthy_handle. apply negb_true_iff, Z.eqb_neq. lia. }
      rewrite Htr. wsimpl. rewrite Et.
      repeat split; try reflexivity.
      apply filter_none. intros x Hx Hc.
      apply list_elem_of_singleton in Hx. now subst x. }
  destruct Hd as (Et & En & Eno & Etr & Er & Epr & Ev & Es).
  unfold armed_until, open_for, arm. wsimpl.
  rewrite Et, En, Eno, Etr, Er, Epr, Ev, Es.
  split.
  - eexists. split; [reflexivity|]. simpl.
    split; [reflexivity|]. split; [reflexivity|].
    split; [apply lookup_insert_eq|lia].
  - repeat split; try assumption; try reflexivity. lia.
Qed.

(** A pause shorter than the time left keeps the timer armed. *)
Lemma pause_keeps (file : TFile) (due : Z) (d : nat) (w : World) :
  open_for file w -> armed_until file due w ->
  (now w + Z.of_nat d < due)%Z ->
  elapse d w = with_now (now w + Z.of_nat d) w.
Proof.
  intros Ho (t & Et & Ha & Ed & Ep & Hh) Hlt.
  apply elapse_idle. intros x Hx. rewrite Et in Hx.
  apply list_elem_of_singleton in Hx. subst x. lia.
Qed.

Lemma step_event (create : bool) (file : TFile) (w : World) :
  step w (event create file) = snd (scheduleResize file w).
Proof. now destruct create. Qed.

Lemma run_app (w : World) (l1 l2 : list input) :
  run w (l1 ++ l2) = run (run w l1) l2.
Proof. apply fold_left_app. Qed.

(** The state after every event of a burst: the timer armed by that event
    is the only one, due 500 ms later, and nothing was traced. *)
Lemma burst_tail (file : TFile) (more : list (nat * bool)) (w : World) :
  Forall (fun g => fst g < 500) more ->
  open_for file w -> armed_until file (now w + 500) w ->
  exists w',
    w' = run w (flat_map (fun g => [Elapse (fst g); event (snd g) file])
                  more) /\
    open_for file w' /\ armed_until file (now w' + 500) w' /\
    trace w' = trace w /\ vault w' = vault w /\ settings w' = settings w.
Proof.
  intros Hgaps. revert w.
  induction Hgaps as [|[d create] more Hd _ IH]; intros w Ho Ha.
  - exists w. split; [reflexivity|]. split; [exact Ho|].
    split; [exact Ha|]. auto.
  - simpl in Hd.
    change (flat_map (fun g => [Elapse (fst g); event (snd g) file])
              ((d, create) :: more))
      with ([Elapse d; event create file]
            ++ flat_map (fun g => [Elapse (fst g); event (snd g) file]) more)%list.
    rewrite run_app.
    change (run w [Elapse d; event create file])
      with (step (elapse d w) (event create file)).
    rewrite step_event.
    rewrite (pause_keeps file (now w + 500) d w Ho Ha) by lia.
    set (w1 := with_now (now w + Z.of_nat d) w).
    assert (Ho1 : open_for file w1) by exact Ho.
    assert (Ha1 : exists due, armed_until file due w1).
    { exists (now w + 500)%Z. exact Ha. }
    destruct (schedule_arms file w1 Ho1 (or_intror Ha1))
      as (Ha2 & Ho2 & Et2 & En2 & Ev2 & Es2).
    set (w2 := snd (scheduleResize file w1)) in *.
    rewrite <- En2 in Ha2.
    destruct (IH w2 Ho2 Ha2) as (w3 & -> & Ho3 & Ha3 & Et3 & Ev3 & Es3).
    eexists. split; [reflexivity|].
    split; [exact Ho3|]. split; [exact Ha3|].
    split; [now rewrite Et3, Et2|].
    split; [now rewrite Ev3, Ev2|now rewrite Es3, Es2].
Qed.

Lemma burst_armed (file : TFile) (first : bool) (more : list (nat * bool))
    (w : World) :
  Forall (fun g => fst g < 500) more ->
  open_for file w -> timers w = [] ->
  exists w',
    w' = run w (burst file first more) /\
    open_for file w' /\ armed_until file (now w' + 500) w' /\
    trace w' = trace w /\ vault w' = vault w /\ settings w' = settings w.
Proof.
  intros Hgaps Ho He. unfold burst.
  change (run w (event first file :: ?l))
    with (run (step w (event first file)) l).
  rewrite step_event.
  destruct (schedule_arms file w Ho (or_introl He))
    as (Ha1 & Ho1 & Et1 & En1 & Ev1 & Es1).
  set (w1 := snd (scheduleResize file w)) in *.
  rewrite <- En1 in Ha1.
  destruct (burst_tail file more w1 Hgaps Ho1 Ha1)
    as (w2 & -> & Ho2 & Ha2 & Et2 & Ev2 & Es2).
  eexists. split; [reflexivity|].
  split; [exact Ho2|]. split; [exact Ha2|].
  split; [now rewrite Et2, Et1|].
  split; [now rewrite Ev2, Ev1|now rewrite Es2, Es1].
Qed.

Lemma invocations_app (l1 l2 : list effect) :
  invocations (l1 ++ l2) = (invocations l1 ++ invocations l2)%list.
Proof.
  induction l1 as [|e l1 IH]; [reflexivity|].
  destruct e; simpl; now rewrite IH.
Qed.

Lemma invocations_not_entry (l : list effect) :
  Forall not_entry l -> invocations l = [].
Proof.
  induction 1 as [|e l He _ IH]; [reflexivity|].
  destruct e; simpl; try exact IH. exfalso. now apply (He file).
Qed.

Lemma wsound_compose (I : World -> Prop) (P : effect -> Prop)
    (f g : World -> World) :
  wsound I P f -> wsound I P g -> wsound I P (fun w => g (f w)).
Proof.
  intros Hf Hg w Hw. destruct (Hf w Hw) as [Hi (l & Et & Fl)].
  destruct (Hg (f w) Hi) as [Hi' (l' & Et' & Fl')].
  split; [exact Hi'|]. exists (l ++ l')%list.
  rewrite Et', Et, app_assoc. split; [reflexivity|]. now apply Forall_app.
Qed.

Lemma wsound_id (I : World -> Prop) (P : effect -> Prop) :
  wsound I P (fun w => w).
Proof.
  intros w Hw. split; [exact Hw|]. exists []. now rewrite app_nil_r.
Qed.

(** While no debounce timer is armed, firing timers invokes nothing. *)
Lemma fire_NoDebounce (h : Z) : wsound NoDebounce not_entry (fire h).
Proof.
  intros w Hw. unfold fire.
  destruct (find_timer h (timers w)) as [t|] eqn:Ef.
  - apply find_timer_Some in Ef as [Ht Eh].
    assert (Hcb : forall f, action t <> DebounceFire f).
    { intros f. exact (Hw t f Ht). }
    assert (Hw1 : NoDebounce
                    (with_timers (filter (fun t' => handle t' ≠ h)) w)).
    { intros t' f Ht'. apply list_elem_of_filter in Ht' as [_ Ht'].
      exact (Hw t' f Ht'). }
    destruct (release_sound NoDebounce stable_NoDebounce (action t) Hcb _ Hw1)
      as [Hi (l & Et & Fl)].
    split; [exact Hi|]. exists l. split; [exact Et|].
    eapply Forall_impl; [exact Fl|]. intros e [].
  - now apply wsound_id.
Qed.

Lemma fire_all_NoDebounce (hs : list Z) :
  wsound NoDebounce not_entry (fire_all hs).
Proof.
  induction hs as [|h hs IH]; [apply wsound_id|].
  apply (wsound_compose _ _ (fire h) (fire_all hs));
    [apply fire_NoDebounce | exact IH].
Qed.

Lemma tick_NoDebounce : wsound NoDebounce not_entry tick.
Proof.
  intros w Hw. unfold tick.
  destruct (fire_all_NoDebounce
              (handle <$> by_deadline
                 (filter (fun t => (deadline t <=? now (with_now (now w + 1) w))%Z = true)
                    (timers (with_now (now w + 1) w))))
              (with_now (now w + 1) w) Hw) as [Hi (l & Et & Fl)].
  split; [exact Hi|]. now exists l.
Qed.

Lemma elapse_NoDebounce (n : nat) : wsound NoDebounce not_entry (elapse n).
Proof.
  induction n as [|n IH]; [apply wsound_id|].
  apply (wsound_compose _ _ (elapse n) tick); [exact IH|apply tick_NoDebounce].
Qed.

(** 500 ms after the last event of a burst the one armed timer fires and
    [processFile] is invoked once; no debounce timer remains. *)
Lemma quiet_period_fires (file : TFile) (w : World) :
  open_for file w -> armed_until file (now w + 500) w ->
  NoDebounce (elapse 500 w) /\
  exists l, trace (elapse 500 w) = (trace w ++ EnterProcessFile file :: l)%list
            /\ Forall (processFile_effect file) l.
Proof.
  intros Ho Ha.
  rewrite elapse_S.
  rewrite (pause_keeps file (now w + 500) 499 w Ho Ha) by lia.
  destruct Ha as (t & Et & Hact & Ed & Ep & Hh).
  unfold tick. wsimpl. rewrite Et.
  rewrite filter_cons_True by (apply Z.leb_le; simpl; lia).
  rewrite filter_nil.
  change (handle <$> by_deadline [t]) with [handle t].
  change (fire_all [handle t] ?x) with (fire (handle t) x).
  unfold fire. wsimpl. rewrite Et. unfold find_timer. simpl find.
  rewrite Z.eqb_refl. rewrite Hact.
  unfold run_callback.
  match goal with
  | |- context [(update ?f;; processFile file) ?x] =>
      change ((update f;; processFile file) x) with (processFile file (f x));
      set (w3 := f x)
  end.
  assert (Hn3 : NoDebounce w3).
  { intros t' f Ht'. unfold w3 in Ht'. simpl in Ht'. rewrite Et in Ht'.
    apply list_elem_of_filter in Ht' as [Hne Ht'].
    apply list_elem_of_singleton in Ht'. subst t'. now contradiction Hne. }
  split.
  - now destruct (processFile_sound NoDebounce stable_NoDebounce file w3 Hn3).
  - destruct (processFile_trace file w3) as (l & El & Fl).
    exists l. split; [|exact Fl]. rewrite El. reflexivity.
Qed.

Lemma NoDebounce_no_timers (w : World) (p : string) :
  NoDebounce w -> debounce_timers p w = [].
Proof.
  intros Hn. apply filter_none. intros t Ht Hd.
  apply is_debounce_true in Hd as (f & Ha & _). exact (Hn t f Ht Ha).
Qed.

Lemma armed_until_one_timer (file : TFile) (due : Z) (w : World) :
  armed_until file due w ->
  exists t, debounce_timers (path file) w = [t] /\ deadline t = due.
Proof.
  intros (t & Et & Ha & Ed & Ep & Hh). exists t. split; [|exact Ed].
  unfold debounce_timers. rewrite Et.
  rewrite filter_cons_True; [now rewrite filter_nil|].
  apply is_debounce_true. now exists file.
Qed.

(** N events for one file, each less than 500 ms after the one before,
    leave one timer armed; once 500 ms have passed after the last event,
    [processFile] has been invoked exactly once. *)
Lemma burst_invokes_once (file : TFile) (first : bool)
    (more : list (nat * bool)) (D : nat) (w : World) :
  open_for file w -> timers w = [] ->
  Forall (fun g => fst g < 500) more -> 500 <= D ->
  (exists t, debounce_timers (path file) (run w (burst file first more)) = [t]
             /\ deadline t = (now (run w (burst file first more)) + 500)%Z) /\
  trace (run w (burst file first more)) = trace w /\
  invocations (trace (run w (burst file first more ++ [Elapse D])))
  = (invocations (trace w) ++ [file])%list /\
  debounce_timers (path file) (run w (burst file first more ++ [Elapse D]))
  = [].
Proof.
  intros Ho He Hgaps HD.
  destruct (burst_armed file first more w Hgaps Ho He)
    as (w1 & E1 & Ho1 & Ha1 & Et1 & _).
  rewrite run_app, <- E1.
  split; [now apply armed_until_one_timer|]. split; [exact Et1|].
  change (run w1 [Elapse D]) with (elapse D w1).
  replace D with ((D - 500) + 500) by lia. rewrite elapse_add.
  destruct (quiet_period_fires file w1 Ho1 Ha1) as (Hn2 & l & Et2 & Fl).
  destruct (elapse_NoDebounce (D - 500) (elapse 500 w1) Hn2)
    as (Hn3 & l' & Et3 & Fl').
  split.
  - rewrite Et3, Et2, Et1, !invocations_app. simpl.
    rewrite (invocations_not_entry l), (invocations_not_entry l');
      [now rewrite app_nil_r|exact Fl'|].
    eapply Forall_impl; [exact Fl|]. apply processFile_effect_not_entry.
  - now apply NoDebounce_no_timers.
Qed.

(** An accepted event cancels the timer that was armed for the path and
    leaves the new one as the only debounce timer of the path. *)
Lemma scheduleResize_replaces (file : TFile) (w : World) :
  Inv w -> open_for file w ->
  debounce_timers (path file) (snd (scheduleResize file w))
  = [{| handle := nextHandle w; deadline := now w + 500;
        action := DebounceFire file |}] /\
  pending (snd (scheduleResize file w)) !! path file = Some (nextHandle w) /\
  forall t, t ∈ debounce_timers (path file) w ->
            t ∉ timers (snd (scheduleResize file w)).
Proof.
  intros Hi (Hr & Him & Hg & Hn).
  rewrite scheduleResize_accepted by assumption. cbn [snd].
  destruct (disarm_existing_Inv file w Hi) as (Hi1 & Ep1 & Hother).
  assert (Hnext : nextHandle (disarm_existing file w) = nextHandle w).
  { unfold disarm_existing. destruct (pending w !! path file) as [h|];
      [destruct (truthy_handle h)|]; reflexivity. }
  assert (Hnow : now (disarm_existing file w) = now w).
  { unfold disarm_existing. destruct (pending w !! path file) as [h|];
      [destruct (truthy_handle h)|]; reflexivity. }
  split; [|split].
  - unfold debounce_timers, arm. wsimpl. rewrite filter_app.
    rewrite (filter_none _ (timers (disarm_existing file w))).
    + rewrite filter_cons_True; [now rewrite filter_nil, Hnext, Hnow|].
      apply is_debounce_true. now exists file.
    + intros t Ht Hd. apply is_debounce_true in Hd as (f & Ha & Hp).
      exact (Hother t f Ht Ha Hp).
  - unfold arm. wsimpl. rewrite Hnext. apply lookup_insert_eq.
  - intros t Ht Hin. apply list_elem_of_filter in Ht as [Hd Ht].
    apply is_debounce_true in Hd as (f & Ha & Hp).
    unfold arm in Hin. wsimpl. simpl in Hin.
    apply elem_of_app in Hin as [Hin|Hin].
    + exact (Hother t f Hin Ha Hp).
    + apply list_elem_of_singleton in Hin.
      pose proof (inv_range w Hi t Ht) as Hrange.
      rewrite Hin, Hnext in Hrange. simpl in Hrange. lia.
Qed.

End Debounce.

Example three_events_one_invocation :
  Main.trace
    (Main.run (H := Sample.browser)
       (Sample.started Resizer.DEFAULT_SETTINGS)
       [Main.VaultCreate Sample.a_png; Main.Elapse 100;
        Main.VaultModify Sample.a_png; Main.Elapse 499;
        Main.VaultModify Sample.a_png; Main.Elapse 500])
  = [Main.EnterProcessFile Sample.a_png;
     Main.CallReadBinary Sample.a_png;
     Main.CallResizeImage Main.EventPath Sample.a_png Sample.wide;
     Main.CallModifyBinary Sample.a_png [Byte.x13; Byte.x04];
     Main.ShowNotice (Main.ImageResized 4000 1000 1920 480 0 0)].
Proof. vm_compute. reflexivity. Qed.

(* ------------------------------------------------------------------ *)
(** * Further properties of the planner and of the engine *)

Section PlannerMore.
Import Number Resizer.
Local Open Scope Q_scope.

(** The quotient of a limit by a larger axis stays below 1 after rounding
    to a double. *)
Lemma div_lt_1 (m w : Z) :
  (0 < m < w)%Z -> (w <= 4294967296)%Z ->
  div (inject_Z m) (inject_Z w) < 1.
Proof.
  intros Hm Hw.
  pose proof (div_close m w Hm) as (Hr0 & Hr1 & Hrw & Hu & _).
  set (r := inject_Z m / inject_Z w) in *.
  assert (HW0 : 0 < inject_Z w) by (apply inject_Z_pos; lia).
  assert (HW : inject_Z w <= 4294967296).
  { change 4294967296 with (inject_Z 4294967296). now rewrite <- Zle_Qle. }
  assert (HM : inject_Z m <= inject_Z w - 1).
  { change 1 with (inject_Z 1). unfold Qminus.
    rewrite <- inject_Z_opp, <- inject_Z_plus, <- Zle_Qle. lia. }
  unfold delta in *.
  assert (H1 : 1 <= (1 - r) * inject_Z w) by lra.
  assert (H2 : 1 # 4294967296 <= 1 - r) by nra.
  lra.
Qed.

Lemma computedScale_le_width (w h mw mh : Z) :
  (0 < mw < w)%Z ->
  computedScale w h mw mh <= div (inject_Z mw) (inject_Z w).
Proof.
  intros A. apply active_iff in A.
  unfold computedScale, Math_min. rewrite A.
  destruct ((0 <? mh)%Z && (mh <? h)%Z).
  - eapply Qle_trans; [apply Q.le_min_l|apply Q.le_min_r].
  - apply Q.le_min_r.
Qed.

Lemma computedScale_le_height (w h mw mh : Z) :
  (0 < mh < h)%Z ->
  computedScale w h mw mh <= div (inject_Z mh) (inject_Z h).
Proof.
  intros A. apply active_iff in A.
  unfold computedScale, Math_min. rewrite A.
  destruct ((0 <? mw)%Z && (mw <? w)%Z); apply Q.le_min_r.
Qed.

(** X1: The planner declines exactly the images that are within every limit
    that is set: an image of a decodable size that is over a set limit on
    either axis always gets a target. *)
Theorem calculateDimensions_None_iff (w h mw mh : Z) :
  (0 < w < 4294967296)%Z -> (0 < h < 4294967296)%Z ->
  calculateDimensions w h mw mh = None
  <-> (mw <= 0 \/ w <= mw)%Z /\ (mh <= 0 \/ h <= mh)%Z.
Proof.
  intros Hw Hh. split.
  - intros Hn.
    assert (Hs : ~ computedScale w h mw mh < 1).
    { intros Hs. unfold calculateDimensions in Hn.
      destruct (Qle_bool 1 (computedScale w h mw mh)) eqn:E; [|discriminate].
      apply Qle_bool_iff in E. lra. }
    split.
    + destruct (Z_le_gt_dec mw 0) as [?|G0]; [now left|].
      destruct (Z_le_gt_dec w mw) as [?|G1]; [now right|].
      exfalso. apply Hs.
      eapply Qle_lt_trans; [apply computedScale_le_width; lia|].
      apply div_lt_1; lia.
    + destruct (Z_le_gt_dec mh 0) as [?|G0]; [now left|].
      destruct (Z_le_gt_dec h mh) as [?|G1]; [now right|].
      exfalso. apply Hs.
      eapply Qle_lt_trans; [apply computedScale_le_height; lia|].
      apply div_lt_1; lia.
  - intros [Aw Ah]. apply calculateDimensions_None.
    rewrite computedScale_inactive; [lra|lia|lia].
Qed.

Lemma plan_fits (w h mw mh : Z) (d : Dimensions) :
  (0 < w < 4294967296)%Z -> (0 < h < 4294967296)%Z ->
  calculateDimensions w h mw mh = Some d ->
  ((0 < mw)%Z -> (dim_width d <= mw)%Z) /\
  ((0 < mh)%Z -> (dim_height d <= mh)%Z) /\
  ((dim_width d = mw /\ (mw < w)%Z) \/ (dim_height d = mh /\ (mh < h)%Z)).
Proof.
  intros Hw Hh Hd.
  destruct (plan_target_inv w h mw mh d Hw Hh Hd) as (Hs0 & Hs1 & Ew & Eh & Hc).
  set (s := computedScale w h mw mh) in *.
  split; [|split].
  - intros Hm. destruct (Z_lt_le_dec mw w) as [Hlt|Hge].
    + rewrite Ew. apply scaled_le_limit; [lia|lia|lra|].
      apply computedScale_le_width. lia.
    + assert (Hle : (dim_width d <= w)%Z).
      { rewrite Ew. apply scaled_le_orig; [lia|lra|lra]. }
      lia.
  - intros Hm. destruct (Z_lt_le_dec mh h) as [Hlt|Hge].
    + rewrite Eh. apply scaled_le_limit; [lia|lia|lra|].
      apply computedScale_le_height. lia.
    + assert (Hle : (dim_height d <= h)%Z).
      { rewrite Eh. apply scaled_le_orig; [lia|lra|lra]. }
      lia.
  - destruct Hc as [(A & E & _)|(A & E & _)].
    + left. split; [|lia]. rewrite Ew, E. apply scaled_eq_limit; lia.
    + right. split; [|lia]. rewrite Eh, E. apply scaled_eq_limit; lia.
Qed.

(** X2: A planned target respects every limit that is set, the axis whose
    limit fixes the scale lands exactly on its limit, and the target is
    smaller than the original on an axis. *)
Theorem calculateDimensions_within_limits (w h mw mh : Z) (d : Dimensions) :
  (0 < w < 4294967296)%Z -> (0 < h < 4294967296)%Z ->
  calculateDimensions w h mw mh = Some d ->
  ((0 < mw)%Z -> (dim_width d <= mw)%Z) /\
  ((0 < mh)%Z -> (dim_height d <= mh)%Z) /\
  ((dim_width d = mw /\ (mw < w)%Z) \/ (dim_height d = mh /\ (mh < h)%Z)).
Proof. apply plan_fits. Qed.

(** Rounding the double product [h * fl(m / w)] gives the exact quotient
    when [w] divides [m * h]. *)
Lemma scaled_exact (w h m k : Z) :
  (0 < m < w)%Z -> (w <= 4294967296)%Z -> (0 <= h <= 4294967296)%Z ->
  (k * w = m * h)%Z ->
  Math_round (mul (inject_Z h) (div (inject_Z m) (inject_Z w))) = k.
Proof.
  intros Hm Hw Hh Hk.
  pose proof (div_close m w Hm) as (Hr0 & Hr1 & Hrw & Hu & Hl).
  pose proof (div_range m w Hm Hw) as [Hd0 Hd1].
  set (r := inject_Z m / inject_Z w) in *.
  set (sw := div (inject_Z m) (inject_Z w)) in *.
  pose proof (mul_close h sw Hh ltac:(lra) Hd1) as (Hmu & Hml & _).
  pose proof (round_close (mul (inject_Z h) sw)) as [Hr1' Hr2'].
  set (th := Math_round (mul (inject_Z h) sw)) in *.
  assert (HW0 : 0 < inject_Z w) by (apply inject_Z_pos; lia).
  assert (HH0 : 0 <= inject_Z h) by (apply inject_Z_nonneg; lia).
  assert (HH : inject_Z h <= 4294967296).
  { change 4294967296 with (inject_Z 4294967296). rewrite <- Zle_Qle. lia. }
  assert (HK : inject_Z k * inject_Z w == inject_Z m * inject_Z h).
  { rewrite <- !inject_Z_mult. now rewrite Hk. }
  assert (EK : inject_Z h * r == inject_Z k).
  { unfold r. field_simplify_eq; [|lra]. lra. }
  unfold eps, delta in *.
  assert (A1 : inject_Z h * sw <= inject_Z h * r + (1 # 1048576)) by nra.
  assert (A2 : inject_Z h * r - (1 # 1048576) <= inject_Z h * sw) by nra.
  apply Z.le_antisymm.
  - apply inject_Z_lt_inv. lra.
  - apply inject_Z_gt_inv. lra.
Qed.

(** X3: With one limit in force, the other axis is the exact proportional
    value whenever that value is a whole number: 4000x1000 under a width
    limit of 1920 becomes 1920x480, with no pixel lost to the double
    arithmetic. *)
Theorem calculateDimensions_exact_proportion (w h mw mh k : Z) :
  (0 < w < 4294967296)%Z -> (0 < h < 4294967296)%Z ->
  ((0 < mw < w)%Z -> (mh <= 0 \/ h <= mh)%Z -> (k * w = mw * h)%Z ->
   calculateDimensions w h mw mh
   = Some {| dim_width := mw; dim_height := k |}) /\
  ((0 < mh < h)%Z -> (mw <= 0 \/ w <= mw)%Z -> (k * h = mh * w)%Z ->
   calculateDimensions w h mw mh
   = Some {| dim_width := k; dim_height := mh |}).
Proof.
  intros Hw Hh. split; intros A N Hk.
  - assert (Es : computedScale w h mw mh = div (inject_Z mw) (inject_Z w)).
    { pose proof (computedScale_le_width w h mw mh A) as Hle.
      pose proof (div_lt_1 mw w A ltac:(lia)) as Hlt.
      destruct (computedScale_cases w h mw mh) as [E|[(_ & E & _)|(B & _)]].
      - rewrite E in Hle. lra.
      - exact E.
      - lia. }
    unfold calculateDimensions. rewrite Es.
    destruct (Qle_bool 1 (div (inject_Z mw) (inject_Z w))) eqn:E.
    { apply Qle_bool_iff in E.
      pose proof (div_lt_1 mw w A ltac:(lia)). lra. }
    rewrite scaled_eq_limit by lia.
    rewrite (scaled_exact w h mw k) by lia. reflexivity.
  - assert (Es : computedScale w h mw mh = div (inject_Z mh) (inject_Z h)).
    { pose proof (computedScale_le_height w h mw mh A) as Hle.
      pose proof (div_lt_1 mh h A ltac:(lia)) as Hlt.
      destruct (computedScale_cases w h mw mh) as [E|[(B & _)|(_ & E & _)]].
      - rewrite E in Hle. lra.
      - lia.
      - exact E. }
    unfold calculateDimensions. rewrite Es.
    destruct (Qle_bool 1 (div (inject_Z mh) (inject_Z h))) eqn:E.
    { apply Qle_bool_iff in E.
      pose proof (div_lt_1 mh h A ltac:(lia)). lra. }
    rewrite scaled_eq_limit by lia.
    rewrite (scaled_exact h w mh k) by lia. reflexivity.
Qed.

End PlannerMore.

Section EngineMore.
Import JsString Resizer.
Context `{Browser}.
Local Open Scope string_scope.

(** What a successful result of [resizeImage] records. *)
Lemma resizeImage_Some_inv (input : bytes) (filename : string)
    (s : ImageResizerSettings) (r : ResizeResult) :
  resizeImage input filename s = Ok (Some r) ->
  exists img,
    loadImage input (getMimeType (getExtension filename)) = Some img /\
    originalWidth r = naturalWidth img /\
    originalHeight r = naturalHeight img /\
    calculateDimensions (naturalWidth img) (naturalHeight img)
      (maxWidth s) (maxHeight s)
    = Some {| dim_width := width r; dim_height := height r |} /\
    getContext (width r) (height r) = true /\
    exists mime quality,
      toBlob img (width r) (height r) mime quality = Some (data r).
Proof.
  unfold resizeImage.
  destruct (loadImage _ _) as [img|]; [|discriminate].
  destruct (calculateDimensions _ _ _ _) as [[tw th]|] eqn:Ed; [|discriminate].
  cbn [dim_width dim_height].
  destruct (getContext tw th) eqn:Ec; [|discriminate]. cbn [negb].
  destruct (convertToJpeg s && String.eqb (getExtension filename) "png");
    cbv beta iota zeta;
    match goal with
    | |- context [toBlob ?i ?a ?b ?m ?q] =>
        destruct (toBlob i a b m q) as [buf|] eqn:Eb; [|discriminate]
    end;
    intros [= <-]; exists img; cbn;
    (repeat split; try reflexivity; try assumption);
    eexists _, _; exact Eb.
Qed.

(** X4: A successful resize is a real downscale inside the limits: the
    reported size is the planned one, no axis grows, every limit that is
    set is respected, one axis lands exactly on its limit, and the
    reported original size is the decoded one. *)
Theorem resizeImage_result_within_limits (input : bytes) (filename : string)
    (s : ImageResizerSettings) (r : ResizeResult) :
  resizeImage input filename s = Ok (Some r) ->
  (0 < originalWidth r < 4294967296)%Z ->
  (0 < originalHeight r < 4294967296)%Z ->
  calculateDimensions (originalWidth r) (originalHeight r)
    (maxWidth s) (maxHeight s)
  = Some {| dim_width := width r; dim_height := height r |} /\
  (0 <= width r <= originalWidth r)%Z /\
  (0 <= height r <= originalHeight r)%Z /\
  ((0 < maxWidth s)%Z -> (width r <= maxWidth s)%Z) /\
  ((0 < maxHeight s)%Z -> (height r <= maxHeight s)%Z) /\
  ((width r = maxWidth s /\ (maxWidth s < originalWidth r)%Z) \/
   (height r = maxHeight s /\ (maxHeight s < originalHeight r)%Z)).
Proof.
  intros Hr Hw Hh.
  destruct (resizeImage_Some_inv _ _ _ _ Hr) as (img & _ & Ew & Eh & Hd & _).
  rewrite <- Ew, <- Eh in Hd.
  destruct (plan_target_inv _ _ _ _ _ Hw Hh Hd) as (Hs0 & Hs1 & Tw & Th & _).
  destruct (plan_fits _ _ _ _ _ Hw Hh Hd) as (Fw & Fh & Fg).
  cbn [dim_width dim_height] in *.
  split; [exact Hd|].
  split; [split; [rewrite Tw; apply scaled_nonneg; [lia|lra|lra]
                 |rewrite Tw; apply scaled_le_orig; [lia|lra|lra]]|].
  split; [split; [rewrite Th; apply scaled_nonneg; [lia|lra|lra]
                 |rewrite Th; apply scaled_le_orig; [lia|lra|lra]]|].
  auto.
Qed.

(** X5: The engine is idempotent on its own output: when the browser decodes
    the bytes of a successful resize to the size the result reports,
    resizing those bytes again under the same settings returns null. *)
Theorem resizeImage_again_null (input : bytes) (filename filename' : string)
    (s : ImageResizerSettings) (r : ResizeResult) (img' : HTMLImageElement) :
  resizeImage input filename s = Ok (Some r) ->
  (0 < originalWidth r < 4294967296)%Z ->
  (0 < originalHeight r < 4294967296)%Z ->
  loadImage (data r) (getMimeType (getExtension filename')) = Some img' ->
  naturalWidth img' = width r -> naturalHeight img' = height r ->
  resizeImage (data r) filename' s = Ok None.
Proof.
  intros Hr Hw Hh Hl Ew' Eh'.
  destruct (resizeImage_Some_inv _ _ _ _ Hr) as (img & _ & Ew & Eh & Hd & _).
  rewrite <- Ew, <- Eh in Hd.
  destruct (plan_fits _ _ _ _ _ Hw Hh Hd) as (Fw & Fh & _).
  cbn [dim_width dim_height] in *.
  unfold resizeImage. rewrite Hl, Ew', Eh'.
  rewrite calculateDimensions_None; [reflexivity|].
  rewrite computedScale_inactive; [apply Qle_refl|lia|lia].
Qed.

End EngineMore.

Lemma calculateDimensions_None_iff_witness :
  Resizer.calculateDimensions 1920 1080 1920 1080 = None.
Proof.
  apply (calculateDimensions_None_iff 1920 1080 1920 1080); lia.
Defined.

Lemma calculateDimensions_within_limits_witness :
  (Resizer.dim_height {| Resizer.dim_width := 1920; Resizer.dim_height := 1080 |}
   <= 1080)%Z.
Proof.
  refine (proj1 (proj2 (calculateDimensions_within_limits 3840 2160 1920 1080
            {| Resizer.dim_width := 1920; Resizer.dim_height := 1080 |}
            _ _ _)) _);
    [lia | lia | vm_compute; reflexivity | lia].
Defined.

Lemma calculateDimensions_exact_proportion_witness :
  Resizer.calculateDimensions 4000 1000 1920 0
  = Some {| Resizer.dim_width := 1920; Resizer.dim_height := 480 |}.
Proof.
  apply (calculateDimensions_exact_proportion 4000 1000 1920 0 480); lia.
Defined.

Lemma resizeImage_result_within_limits_witness :
  (0 <= 1920 <= 4000)%Z.
Proof.
  refine (proj1 (proj2 (resizeImage_result_within_limits
            (H := Sample.browser) Sample.wide "a.png" Resizer.DEFAULT_SETTINGS
            {| Resizer.data := [Byte.x13; Byte.x04]; Resizer.width := 1920;
               Resizer.height := 480; Resizer.originalWidth := 4000;
               Resizer.originalHeight := 1000; Resizer.newExtension := None |}
            _ _ _)));
    [vm_compute; reflexivity | simpl; lia | simpl; lia].
Defined.

Lemma resizeImage_again_null_witness :
  Resizer.resizeImage (H := Sample.browser) [Byte.x14; Byte.x05] "a.png"
    Sample.limit_2000 = Resizer.Ok None.
Proof.
  apply (resizeImage_again_null (H := Sample.browser) Sample.wide "a.png" "a.png"
           Sample.limit_2000
           {| Resizer.data := [Byte.x14; Byte.x05]; Resizer.width := 2000;
              Resizer.height := 500; Resizer.originalWidth := 4000;
              Resizer.originalHeight := 1000; Resizer.newExtension := None |}
           (2000, 500)%Z);
    [vm_compute; reflexivity | simpl; lia | simpl; lia
    | reflexivity | reflexivity | reflexivity].
Defined.

(* ------------------------------------------------------------------ *)
(** * One invocation of [processFile], case by case *)

Lemma World_eq (a b : Main.World) :
  Main.settings a = Main.settings b ->
  Main.processing a = Main.processing b ->
  Main.pending a = Main.pending b ->
  Main.ready a = Main.ready b ->
  Main.vault a = Main.vault b ->
  Main.timers a = Main.timers b ->
  Main.nextHandle a = Main.nextHandle b ->
  Main.now a = Main.now b ->
  Main.trace a = Main.trace b ->
  a = b.
Proof. destruct a, b; simpl; intros; subst; reflexivity. Qed.

(** Membership in a guard set built from unions and differences. *)
Ltac guard_solver :=
  rewrite ?elem_of_subseteq; intros;
  repeat match goal with
         | Hs : ?A ⊆ ?B |- ?x ∈ _ =>
             let Hx := fresh in
             pose proof (proj1 (elem_of_subseteq A B) Hs x) as Hx; clear Hs
         end;
  repeat (progress rewrite ?elem_of_union, ?elem_of_difference,
            ?elem_of_singleton, ?elem_of_empty in * );
  intuition congruence.

(** Proves that a computation ends in a given world, field by field. *)
Ltac wfields :=
  apply (f_equal (pair (Resizer.Ok tt))); apply World_eq; wsimpl;
  rewrite <- ?app_assoc; reflexivity.

Section Invocation.
Import JsString Resizer Main Props Behaviour.
Context `{Browser}.
Local Open Scope string_scope.

Lemma newExtension_cases (input : bytes) (filename : string)
    (s : ImageResizerSettings) (r : ResizeResult) :
  resizeImage input filename s = Ok (Some r) ->
  (newExtension r = None /\
   convertToJpeg s && String.eqb (getExtension filename) "png" = false) \/
  (newExtension r = Some "jpg" /\
   convertToJpeg s && String.eqb (getExtension filename) "png" = true).
Proof.
  intros Hr. rewrite (resizeImage_Some _ _ _ _ Hr).
  destruct (convertToJpeg s && String.eqb (getExtension filename) "png"); auto.
Qed.

Lemma processFile_accepted (file : TFile) (w : World) :
  path file ∉ processing w ->
  isImageFile (name file) = true ->
  resizeOnPaste (settings w) || resizeOnDrop (settings w) = true ->
  exists v' g' l,
    processFile file w
    = (Ok tt,
       {| settings := settings w; processing := g'; pending := pending w;
          ready := ready w; vault := v';
          timers := (timers w ++ [release_timer file w])%list;
          nextHandle := nextHandle w + 1; now := now w;
          trace := (trace w ++ EnterProcessFile file :: CallReadBinary file
                      :: l)%list |}) /\
    accepted_outcome file w v' g' l.
Proof.
  intros Hg Himg Htog.
  unfold processFile, processFile_body. mrun. wsimpl.
  rewrite bool_decide_eq_false_2 by exact Hg. rewrite Himg. cbn [negb].
  replace (negb (resizeOnPaste (settings w)) && negb (resizeOnDrop (settings w)))
    with false
    by (destruct (resizeOnPaste (settings w)), (resizeOnDrop (settings w));
        try reflexivity; discriminate).
  cbv beta iota. wsimpl.
  destruct (readBinary (vault w) file) as [old|e] eqn:Ef; wsimpl.
  2: { eexists _, _, _. split; [|exact (ReadFailed file w e Ef)].
       unfold failure_log. destruct (showNotice (settings w)); wfields. }
  destruct (resizeImage old (name file) (settings w)) as [[r|]|err] eqn:Er; wsimpl.
  3: { eexists _, _, _. split; [|exact (EngineFailed file w old err Ef Er)].
       unfold failure_log. destruct (showNotice (settings w)); wfields. }
  2: { eexists _, _, _. split; [|exact (WithinLimits file w old Ef Er)].
       wfields. }
  assert (Hm : modifyBinary (vault w) file (data r)
               = Ok (<[path file := FileEntry (data r)]> (vault w))).
  { unfold readBinary in Ef. unfold modifyBinary.
    destruct (vault w !! path file) as [[c|]|]; try discriminate. reflexivity. }
  destruct (newExtension_cases _ _ _ _ Er) as [[Ex _]|[Ex _]].
  - rewrite (writeBack_single_same_extension _ _ Ex). mrun. wsimpl.
    rewrite Hm. wsimpl.
    eexists _, _, _.
    split; [|exact (WrittenBack file w old r Ef Er (or_introl Ex))].
    unfold success_log. destruct (showNotice (settings w)); wfields.
  - unfold writeBack_single. rewrite Ex.
    change (truthy (Some "jpg")) with true. cbv iota.
    change ("." ++ default "" (Some "jpg")) with ".jpg".
    fold (target_single file).
    mrun. wsimpl. rewrite Hm. wsimpl.
    unfold getAbstractFileByPath.
    destruct (<[path file := FileEntry (data r)]> (vault w) !! target_single file)
      as [e|] eqn:Et; wsimpl.
    + eexists _, _, _.
      split; [|refine (WrittenBack file w old r Ef Er (or_intror _));
               rewrite Et; now eexists].
      unfold success_log. destruct (showNotice (settings w)); wfields.
    + unfold renameFile. wsimpl. rewrite lookup_insert_eq, Et. wsimpl.
      eexists _, _, _.
      split; [|exact (Renamed file w old r Ef Er Ex Et)].
      unfold success_log. destruct (showNotice (settings w)); wfields.
Qed.

(** The gates of [processFile]: a guarded path, a file that is not an
    image, or both toggles off end the invocation at once. *)
Lemma processFile_declined (file : TFile) (w : World) :
  path file ∈ processing w \/ isImageFile (name file) = false \/
  resizeOnPaste (settings w) || resizeOnDrop (settings w) = false ->
  processFile file w
  = (Ok tt, with_trace (fun t => (t ++ [EnterProcessFile file])%list) w).
Proof.
  intros Hd. unfold processFile, processFile_body. mrun. wsimpl.
  destruct (bool_decide (path file ∈ processing w)) eqn:Eg; [reflexivity|].
  apply bool_decide_eq_false in Eg.
  destruct (isImageFile (name file)) eqn:Ei; [|reflexivity]. cbn [negb].
  destruct Hd as [Hd|[Hd|Hd]]; [contradiction|discriminate|].
  apply orb_false_iff in Hd as [-> ->]. reflexivity.
Qed.

Lemma processFile_gates (file : TFile) (w : World) :
  (path file ∈ processing w \/ isImageFile (name file) = false \/
   resizeOnPaste (settings w) || resizeOnDrop (settings w) = false) \/
  ((path file ∉ processing w) /\ isImageFile (name file) = true /\
   resizeOnPaste (settings w) || resizeOnDrop (settings w) = true).
Proof.
  destruct (decide (path file ∈ processing w)); [auto|].
  destruct (isImageFile (name file)); [|auto].
  destruct (resizeOnPaste (settings w) || resizeOnDrop (settings w)); auto.
Qed.

(** X6: Nothing escapes [processFile]: whatever the vault or the engine
    throws, the invocation ends normally.  When reading or resizing
    fails, the vault is left as it was, the failure is logged with the
    path, the notice "Failed to process" is shown exactly when notices are
    on, and neither [modifyBinary] nor [renameFile] is called. *)
Theorem processFile_failure_contained (file : TFile) (w : World) :
  fst (processFile file w) = Ok tt /\
  (path file ∉ processing w -> isImageFile (name file) = true ->
   resizeOnPaste (settings w) || resizeOnDrop (settings w) = true ->
   forall e,
     (readBinary (vault w) file = Throw e \/
      exists input, readBinary (vault w) file = Ok input /\
                    resizeImage input (name file) (settings w) = Throw e) ->
     vault (snd (processFile file w)) = vault w /\
     exists called,
       trace (snd (processFile file w))
       = (trace w ++ EnterProcessFile file :: CallReadBinary file
            :: called ++ ConsoleError (path file)
            :: if showNotice (settings w)
               then [ShowNotice (FailedToProcess (name file))] else [])%list /\
       (called = [] \/
        exists input, called = [CallResizeImage EventPath file input])).
Proof.
  split.
  - destruct (processFile_gates file w) as [Hd|(Hg & Hi & Ht)].
    + now rewrite (processFile_declined _ _ Hd).
    + destruct (processFile_accepted file w Hg Hi Ht) as (v' & g' & l & E & _).
      now rewrite E.
  - intros Hg Hi Ht e He.
    destruct (processFile_accepted file w Hg Hi Ht) as (v' & g' & l & E & C).
    rewrite E. wsimpl.
    assert (Hno : forall input r,
              readBinary (vault w) file = Ok input ->
              resizeImage input (name file) (settings w) = Ok r -> False).
    { intros input r Hr Hz. destruct He as [He|(i & He & Hz')]; [congruence|].
      rewrite Hr in He. injection He as <-. congruence. }
    destruct C as [e' Hr|input e' Hr Hz|input Hr Hz|input r Hr Hz _
                  |input r Hr Hz _ _].
    + split; [reflexivity|]. exists []. split; [reflexivity|now left].
    + split; [reflexivity|].
      exists [CallResizeImage EventPath file input].
      split; [reflexivity|]. right. now exists input.
    + destruct (Hno _ _ Hr Hz).
    + destruct (Hno _ _ Hr Hz).
    + destruct (Hno _ _ Hr Hz).
Qed.

(** X7: A successful resize is written back: without a conversion the file
    holds the engine's bytes under its own path; with a conversion and a
    free target it is stored under the new path, is gone from the old one,
    and both paths are guarded.  The notice "Image resized" carries the
    sizes of the result and is shown exactly when notices are on. *)
Theorem processFile_writes_result (file : TFile) (w : World)
    (input : bytes) (r : ResizeResult) :
  path file ∉ processing w -> isImageFile (name file) = true ->
  resizeOnPaste (settings w) || resizeOnDrop (settings w) = true ->
  readBinary (vault w) file = Ok input ->
  resizeImage input (name file) (settings w) = Ok (Some r) ->
  let w' := snd (processFile file w) in
  (newExtension r = None ->
   vault w' = <[path file := FileEntry (data r)]> (vault w)) /\
  (newExtension r = Some "jpg" -> vault w !! target_single file = None ->
   vault w' !! target_single file = Some (FileEntry (data r)) /\
   vault w' !! path file = None /\
   target_single file ∈ processing w' /\
   CallRenameFile file (target_single file) ∈ trace w') /\
  path file ∈ processing w' /\
  (showNotice (settings w) = true ->
   ShowNotice (ImageResized (originalWidth r) (originalHeight r)
                 (width r) (height r) (kilobytes input) (kilobytes (data r)))
     ∈ trace w') /\
  (showNotice (settings w) = false ->
   forall n, ShowNotice n ∈ trace w' -> ShowNotice n ∈ trace w).
Proof.
  intros Hg Hi Ht Hr Hz w'. unfold w'. clear w'.
  destruct (processFile_accepted file w Hg Hi Ht) as (v' & g' & l & E & C).
  rewrite E. wsimpl.
  assert (Hpath : vault w !! target_single file = None ->
                  target_single file <> path file).
  { intros Hfree Eq. unfold readBinary in Hr. rewrite <- Eq, Hfree in Hr.
    discriminate. }
  destruct C as [e' Hr'|i e' Hr' Hz'|i Hr' Hz'|i r' Hr' Hz' Hsame
                |i r' Hr' Hz' Hx Hfree];
    try congruence;
    (rewrite Hr in Hr'; injection Hr' as <-);
    (rewrite Hz in Hz'; try discriminate; injection Hz' as <-);
    unfold success_log.
  - split; [reflexivity|].
    split.
    { intros Hx Hfree. exfalso. destruct Hsame as [Hn|[e He]]; [congruence|].
      rewrite lookup_insert_ne in He by (intros Eq; now apply (Hpath Hfree)).
      congruence. }
    split; [guard_solver|].
    split.
    { intros ->. rewrite !elem_of_app, !elem_of_cons. tauto. }
    intros -> n.
    rewrite !elem_of_app, !elem_of_cons, elem_of_nil.
    intros [?|[?|[?|[?|[?|?]]]]]; try discriminate; tauto.
  - assert (Ne : target_single file <> path file).
    { intros Eq. rewrite Eq, lookup_insert_eq in Hfree. discriminate. }
    split; [congruence|].
    split.
    { intros _ _. rewrite lookup_insert_eq.
      rewrite lookup_insert_ne by congruence. rewrite lookup_delete_eq.
      split; [reflexivity|]. split; [reflexivity|].
      split; [guard_solver|].
      rewrite !elem_of_app, !elem_of_cons. tauto. }
    split; [guard_solver|].
    split.
    { intros ->. rewrite !elem_of_app, !elem_of_cons. tauto. }
    intros -> n.
    rewrite !elem_of_app, !elem_of_cons, elem_of_nil.
    intros [?|[?|[?|[?|[?|[?|?]]]]]]; try discriminate; tauto.
Qed.

Lemma accepted_outcome_keeps (file : TFile) (w : World)
    (v' : gmap string entry) (g' : gset string) (l : list effect)
    (p : string) (e : entry) :
  accepted_outcome file w v' g' l ->
  p <> path file -> vault w !! p = Some e -> v' !! p = Some e.
Proof.
  intros [e' Hr|i e' Hr Hz|i Hr Hz|i r Hr Hz _|i r Hr Hz _ Hfree] Hp He;
    try exact He.
  - now rewrite lookup_insert_ne by congruence.
  - assert (Hpt : p <> target_single file).
    { intros ->. rewrite lookup_insert_ne in Hfree by congruence.
      congruence. }
    rewrite lookup_insert_ne by congruence.
    rewrite lookup_delete_ne by congruence.
    now rewrite lookup_insert_ne by congruence.
Qed.

Lemma processFile_keeps (file : TFile) (w : World) (p : string) (e : entry) :
  p <> path file -> vault w !! p = Some e ->
  vault (snd (processFile file w)) !! p = Some e.
Proof.
  intros Hp He.
  destruct (processFile_gates file w) as [Hd|(Hg & Hi & Ht)].
  { now rewrite (processFile_declined _ _ Hd). }
  destruct (processFile_accepted file w Hg Hi Ht) as (v' & g' & l & E & C).
  rewrite E. wsimpl. exact (accepted_outcome_keeps _ _ _ _ _ _ _ C Hp He).
Qed.

Lemma no_conversion (file : TFile) (s : ImageResizerSettings) :
  convertToJpeg s = false \/ getExtension (name file) <> "png" ->
  convertToJpeg s && String.eqb (getExtension (name file)) "png" = false.
Proof.
  intros [-> | Hn]; [reflexivity|].
  apply andb_false_iff. right. now apply String.eqb_neq.
Qed.

(** An invocation that converts nothing: what it adds to the trace and
    what it leaves in the vault. *)
Lemma processFile_in_place (file : TFile) (w : World) :
  convertToJpeg (settings w)
  && String.eqb (getExtension (name file)) "png" = false ->
  settings (snd (processFile file w)) = settings w /\
  (exists l,
     trace (snd (processFile file w))
     = (trace w ++ EnterProcessFile file :: l)%list /\
     Forall (in_place file) l) /\
  (vault (snd (processFile file w)) = vault w \/
   exists old d,
     vault w !! path file = Some (FileEntry old) /\
     vault (snd (processFile file w))
     = <[path file := FileEntry d]> (vault w)).
Proof.
  intros Hc.
  destruct (processFile_gates file w) as [Hd|(Hg & Hi & Ht)].
  { rewrite (processFile_declined _ _ Hd). wsimpl.
    split; [reflexivity|]. split; [|now left].
    exists []. split; [reflexivity|constructor]. }
  destruct (processFile_accepted file w Hg Hi Ht) as (v' & g' & l & E & C).
  rewrite E. wsimpl. split; [reflexivity|].
  assert (Hlog : Forall (in_place file) (failure_log file w)).
  { unfold failure_log. destruct (showNotice (settings w));
      repeat constructor. }
  assert (Hok : forall i r, Forall (in_place file) (success_log w i r)).
  { intros i r. unfold success_log. destruct (showNotice (settings w));
      repeat constructor. }
  destruct C as [e' Hr|i e' Hr Hz|i Hr Hz|i r Hr Hz _|i r Hr Hz Hx Hfree].
  - split; [|now left]. eexists. split; [reflexivity|].
    constructor; [reflexivity|exact Hlog].
  - split; [|now left]. eexists. split; [reflexivity|].
    do 2 (constructor; [reflexivity|]). exact Hlog.
  - split; [|now left]. eexists. split; [reflexivity|].
    repeat constructor.
  - split.
    + eexists. split; [reflexivity|].
      do 3 (constructor; [reflexivity|]). apply Hok.
    + right. unfold readBinary in Hr.
      destruct (vault w !! path file) as [[c|]|] eqn:Ef; try discriminate.
      now exists c, (data r).
  - exfalso. destruct (newExtension_cases _ _ _ _ Hz) as [[Hn _]|[_ Hy]];
      congruence.
Qed.

(** X8: An invocation that converts nothing changes no other file.  When
    convert-to-JPEG is off or the file is not a PNG, [processFile] calls
    neither [renameFile] nor [createBinary]; every call of the vault or of
    the engine it makes names the file itself; what is stored under any
    other path is the same before and after; and a file stored under the
    path is still a file stored under the path. *)
Theorem processFile_other_files_untouched (file : TFile) (w : World) :
  convertToJpeg (settings w) = false \/ getExtension (name file) <> "png" ->
  let w' := snd (processFile file w) in
  (exists l,
     trace w' = (trace w ++ EnterProcessFile file :: l)%list /\
     Forall (in_place file) l) /\
  (forall p, p <> path file -> vault w' !! p = vault w !! p) /\
  (forall old, vault w !! path file = Some (FileEntry old) ->
     exists d, vault w' !! path file = Some (FileEntry d)) /\
  (vault w !! path file = None -> vault w' = vault w).
Proof.
  intros Hc w'. unfold w'. clear w'.
  destruct (processFile_in_place file w (no_conversion _ _ Hc))
    as (_ & Hl & Hv).
  split; [exact Hl|].
  destruct Hv as [-> | (old & d & Ho & ->)].
  - split; [reflexivity|]. split; [|reflexivity].
    intros old Ho. now exists old.
  - split; [intros p Hp; now rewrite lookup_insert_ne by congruence|].
    split; [|congruence].
    intros old' _. exists d. apply lookup_insert_eq.
Qed.

Lemma accepted_guard (file : TFile) (w : World) (v' : gmap string entry)
    (g' : gset string) (l : list effect) :
  accepted_outcome file w v' g' l ->
  g' = {[path file]} ∪ processing w \/
  (g' = {[target_single file]} ∪ ({[path file]} ∪ processing w) /\
   target_single file <> path file /\
   convertToJpeg (settings w)
   && String.eqb (getExtension (name file)) "png" = true).
Proof.
  intros [e' Hr|i e' Hr Hz|i Hr Hz|i r Hr Hz _|i r Hr Hz Hx Hfree]; auto.
  right. split; [reflexivity|]. split.
  - intros Eq. rewrite Eq, lookup_insert_eq in Hfree. discriminate.
  - destruct (newExtension_cases _ _ _ _ Hz) as [[Hn _]|[_ Hc]];
      [congruence|exact Hc].
Qed.

(** X9: An accepted invocation guards the path at once and arms exactly one
    release timer, due 1000 ms later, whatever happens in between (the
    [finally] block).  It adds at most the path and the rename target to
    the guard set and leaves the pending map, the ready flag, the settings
    and the other timers alone. *)
Theorem processFile_guards_and_releases (file : TFile) (w : World) :
  path file ∉ processing w -> isImageFile (name file) = true ->
  resizeOnPaste (settings w) || resizeOnDrop (settings w) = true ->
  let w' := snd (processFile file w) in
  path file ∈ processing w' /\
  processing w ⊆ processing w' /\
  processing w' ⊆ {[path file; target_single file]} ∪ processing w /\
  timers w' = (timers w ++ [{| handle := nextHandle w;
                               deadline := now w + 1000;
                               action := ProcessRelease file |}])%list /\
  nextHandle w' = (nextHandle w + 1)%Z /\
  pending w' = pending w /\ ready w' = ready w /\
  settings w' = settings w /\ now w' = now w.
Proof.
  intros Hg Hi Ht w'. unfold w'. clear w'.
  destruct (processFile_accepted file w Hg Hi Ht) as (v' & g' & l & E & C).
  rewrite E. wsimpl. apply accepted_guard in C. clear E.
  repeat split; try reflexivity;
    destruct C as [-> | (-> & _)]; guard_solver.
Qed.

End Invocation.

Lemma processFile_failure_contained_witness :
  Main.vault (snd (Main.processFile (H := Sample.browser) Sample.c_png
                     (Sample.started Resizer.DEFAULT_SETTINGS)))
  = Sample.files.
Proof.
  refine (proj1 (proj2 (processFile_failure_contained (H := Sample.browser)
                          Sample.c_png (Sample.started Resizer.DEFAULT_SETTINGS))
                   _ _ _ Resizer.LoadFailed _)).
  - apply not_elem_of_empty.
  - reflexivity.
  - reflexivity.
  - right. exists Sample.corrupt. split; reflexivity.
Defined.

Lemma processFile_writes_result_witness :
  Main.vault (snd (Main.processFile (H := Sample.browser) Sample.a_png
                     (Sample.started Resizer.DEFAULT_SETTINGS)))
  = <["img/a.png"%string := Main.FileEntry [Byte.x13; Byte.x04]]> Sample.files.
Proof.
  refine (proj1 (processFile_writes_result (H := Sample.browser) Sample.a_png
                   (Sample.started Resizer.DEFAULT_SETTINGS) Sample.wide
                   {| Resizer.data := [Byte.x13; Byte.x04];
                      Resizer.width := 1920; Resizer.height := 480;
                      Resizer.originalWidth := 4000;
                      Resizer.originalHeight := 1000;
                      Resizer.newExtension := None |} _ _ _ _ _) eq_refl).
  - apply not_elem_of_empty.
  - reflexivity.
  - reflexivity.
  - reflexivity.
  - vm_compute. reflexivity.
Defined.

Lemma processFile_other_files_untouched_witness :
  Main.vault (snd (Main.processFile (H := Sample.browser) Sample.a_png
                     (Sample.started Resizer.DEFAULT_SETTINGS)))
    !! "img/b.jpg"%string
  = Some (Main.FileEntry Sample.small).
Proof.
  refine (proj1 (proj2 (processFile_other_files_untouched
                          (H := Sample.browser) Sample.a_png
                          (Sample.started Resizer.DEFAULT_SETTINGS) _))
            "img/b.jpg"%string _).
  - left. reflexivity.
  - discriminate.
Defined.

Lemma processFile_guards_and_releases_witness :
  Main.timers (snd (Main.processFile (H := Sample.browser) Sample.a_png
                      (Sample.started Resizer.DEFAULT_SETTINGS)))
  = [{| Main.handle := 1; Main.deadline := 1000;
        Main.action := Main.ProcessRelease Sample.a_png |}].
Proof.
  refine (proj1 (proj2 (proj2 (proj2
           (processFile_guards_and_releases (H := Sample.browser) Sample.a_png
              (Sample.started Resizer.DEFAULT_SETTINGS) _ _ _))))).
  - apply not_elem_of_empty.
  - reflexivity.
  - reflexivity.
Defined.

(* ------------------------------------------------------------------ *)
(** * Whole runs of the event loop *)

Section Runs.
Import JsString Resizer Main Props Behaviour.
Context `{Browser}.
Local Open Scope string_scope.

(** ** Rules for the steps of the event loop *)

Lemma fire_wsound (I : World -> Prop) (P : effect -> Prop) :
  (forall w t, I w -> t ∈ timers w ->
     let w' := snd (run_callback (action t)
                      (with_timers (filter (fun t' => handle t' ≠ handle t)) w)) in
     I w' /\ exists l, trace w' = (trace w ++ l)%list /\ Forall P l) ->
  forall h, wsound I P (fire h).
Proof.
  intros Hcb h w Hw. unfold fire.
  destruct (find_timer h (timers w)) as [t|] eqn:Ef.
  - apply find_timer_Some in Ef as [Ht <-]. exact (Hcb w t Hw Ht).
  - now apply wsound_id.
Qed.

Lemma fire_all_wsound (I : World -> Prop) (P : effect -> Prop) :
  (forall h, wsound I P (fire h)) -> forall hs, wsound I P (fire_all hs).
Proof.
  intros Hf hs. induction hs as [|h hs IH]; [apply wsound_id|].
  apply (wsound_compose _ _ (fire h) (fire_all hs)); [apply Hf | exact IH].
Qed.

Lemma tick_wsound (I : World -> Prop) (P : effect -> Prop) :
  (forall t w, I w -> I (with_now t w)) ->
  (forall h, wsound I P (fire h)) -> wsound I P tick.
Proof.
  intros Hnow Hf w Hw. unfold tick.
  destruct (fire_all_wsound I P Hf
              (handle <$> by_deadline
                 (filter (fun t => (deadline t <=? now (with_now (now w + 1) w))%Z = true)
                    (timers (with_now (now w + 1) w))))
              (with_now (now w + 1) w) (Hnow _ _ Hw)) as [Hi (l & Et & Fl)].
  split; [exact Hi|]. now exists l.
Qed.

Lemma elapse_wsound (I : World -> Prop) (P : effect -> Prop) :
  wsound I P tick -> forall n, wsound I P (elapse n).
Proof.
  intros Ht n. induction n as [|n IH]; [apply wsound_id|].
  apply (wsound_compose _ _ (elapse n) tick); [exact IH|exact Ht].
Qed.

Lemma run_wsound (I : World -> Prop) (P : effect -> Prop)
    (allowed : input -> Prop) :
  (forall i, allowed i -> wsound I P (fun w => step w i)) ->
  forall inputs, Forall allowed inputs -> wsound I P (fun w => run w inputs).
Proof.
  intros Hs inputs Ha. induction Ha as [|i inputs Hi _ IH]; [apply wsound_id|].
  apply (wsound_compose _ _ (fun w => step w i) (fun w => run w inputs));
    [now apply Hs | exact IH].
Qed.

(** ** What [scheduleResize] leaves alone *)

Lemma scheduleResize_frame (file : TFile) (w : World) :
  let w' := snd (scheduleResize file w) in
  settings w' = settings w /\ processing w' = processing w /\
  ready w' = ready w /\ vault w' = vault w /\ now w' = now w /\
  trace w' = trace w.
Proof.
  unfold scheduleResize. mrun.
  destruct (negb (ready w)); [now wsimpl|].
  destruct (negb (isImageFile (name file))); [now wsimpl|].
  destruct (bool_decide (path file ∈ processing w)); [now wsimpl|].
  destruct (pending w !! path file) as [existing|]; [|now wsimpl].
  destruct (truthy_handle existing); now wsimpl.
Qed.

Lemma scheduleResize_declined (file : TFile) (w : World) :
  ready w = false \/ isImageFile (name file) = false
  \/ path file ∈ processing w ->
  scheduleResize file w = (Ok tt, w).
Proof.
  intros Hd. unfold scheduleResize. mrun.
  destruct (ready w); [|reflexivity]. cbn [negb].
  destruct (isImageFile (name file)); [|reflexivity]. cbn [negb].
  destruct Hd as [Hd|[Hd|Hd]]; try discriminate.
  now rewrite bool_decide_eq_true_2.
Qed.

Lemma with_now_now (a b : Z) (w : World) :
  with_now b (with_now a w) = with_now b w.
Proof. reflexivity. Qed.

Lemma run_dropped (inputs : list input) (w : World) :
  (forall t, t ∈ timers w ->
             (now w + Z.of_nat (elapsed inputs) < deadline t)%Z) ->
  Forall (dropped w) inputs ->
  run w inputs = with_now (now w + Z.of_nat (elapsed inputs)) w.
Proof.
  revert w. induction inputs as [|i inputs IH]; intros w Ht Hd.
  - simpl. rewrite Z.add_0_r. now destruct w.
  - apply Forall_cons in Hd as [Hi Hd].
    assert (Hstep : step w i = w /\ elapsed (i :: inputs) = elapsed inputs
                    \/ exists ms, i = Elapse ms).
    { destruct i; try contradiction; simpl in Hi.
      - left. split; [|reflexivity]. simpl.
        now rewrite scheduleResize_declined.
      - left. split; [|reflexivity]. simpl.
        now rewrite scheduleResize_declined.
      - right. now exists ms. }
    destruct Hstep as [[Es Ee]|[ms ->]].
    + change (run w (i :: inputs)) with (run (step w i) inputs).
      rewrite Es, Ee. apply IH; [|exact Hd].
      intros t Hin. specialize (Ht t Hin). now rewrite Ee in Ht.
    + change (run w (Elapse ms :: inputs)) with (run (elapse ms w) inputs).
      cbn [elapsed] in Ht |- *.
      rewrite elapse_idle by (intros t Hin; specialize (Ht t Hin); lia).
      rewrite IH.
      * wsimpl. rewrite with_now_now. f_equal. lia.
      * wsimpl. intros t Hin. specialize (Ht t Hin). lia.
      * eapply Forall_impl; [exact Hd|]. intros j. now destruct j.
Qed.

(** X10: Events that meet a closed gate do nothing at all.  Before the layout
    is ready (the vault announces every existing file then), for files
    that are not images and for guarded paths, a run of file events and
    pauses during which no timer falls due changes nothing but the clock:
    no timer is armed, nothing is recorded as pending, nothing is read or
    written. *)
Theorem dropped_events_do_nothing (inputs : list input) (w : World) :
  (forall t, t ∈ timers w ->
             (now w + Z.of_nat (elapsed inputs) < deadline t)%Z) ->
  Forall (dropped w) inputs ->
  run w inputs = with_now (now w + Z.of_nat (elapsed inputs)) w.
Proof. apply run_dropped. Qed.

(** X11: With both toggles off nothing happens on its own.  Whatever timers
    are armed, file events and the passing of time then leave the vault
    and the settings as they are and add no path to the guard set; a
    debounce timer that fires still invokes [processFile], which returns
    at once, so that nothing is read, resized, written or announced. *)
Theorem toggles_off_nothing_automatic (inputs : list input) (w : World) :
  resizeOnPaste (settings w) = false -> resizeOnDrop (settings w) = false ->
  Forall (fun i => is_file_event i = true) inputs ->
  vault (run w inputs) = vault w /\
  settings (run w inputs) = settings w /\
  processing (run w inputs) ⊆ processing w /\
  exists l, trace (run w inputs) = (trace w ++ l)%list /\ Forall is_entry l.
Proof.
  intros Hp Hd Hin.
  set (I := fun w' : World =>
              settings w' = settings w /\ vault w' = vault w /\
              processing w' ⊆ processing w).
  assert (Hfire : forall h, wsound I is_entry (fire h)).
  { apply fire_wsound. intros w1 t (Hs & Hv & Hg) Ht.
    destruct (action t) as [f|p|f|f]; unfold run_callback.
    - match goal with
      | |- context [(update ?g;; processFile f) ?x] =>
          change ((update g;; processFile f) x) with (processFile f (g x))
      end.
      rewrite processFile_declined
        by (right; right; wsimpl; rewrite Hs, Hp, Hd; reflexivity).
      wsimpl. split; [now unfold I|].
      exists [EnterProcessFile f]. split; [reflexivity|].
      constructor; [now exists f|constructor].
    - mrun. wsimpl. split.
      + unfold I. wsimpl. repeat split; try assumption. guard_solver.
      + exists []. now rewrite app_nil_r.
    - mrun. wsimpl.
      destruct (convertToJpeg (settings w1)
                && String.eqb (getExtension (name f)) "png"); wsimpl.
      + split; [unfold I; wsimpl; repeat split; try assumption; guard_solver|].
        exists []. now rewrite app_nil_r.
      + split; [unfold I; wsimpl; repeat split; try assumption; guard_solver|].
        exists []. now rewrite app_nil_r.
    - mrun. wsimpl. split.
      + unfold I. wsimpl. repeat split; try assumption. guard_solver.
      + exists []. now rewrite app_nil_r. }
  assert (Htick : wsound I is_entry tick).
  { apply tick_wsound; [|exact Hfire]. intros t w1 Hw1. exact Hw1. }
  assert (Hrun : wsound I is_entry (fun w' => run w' inputs)).
  { apply (run_wsound I is_entry (fun i => is_file_event i = true));
      [|exact Hin].
    intros i Hi w1 (Hs & Hv & Hg).
    destruct i; try discriminate; simpl.
    - destruct (scheduleResize_frame file w1) as (Es & Eg & _ & Ev & _ & Et).
      split; [unfold I; rewrite Es, Eg, Ev; now repeat split|].
      exists []. now rewrite app_nil_r.
    - destruct (scheduleResize_frame file w1) as (Es & Eg & _ & Ev & _ & Et).
      split; [unfold I; rewrite Es, Eg, Ev; now repeat split|].
      exists []. now rewrite app_nil_r.
    - now apply (elapse_wsound I is_entry Htick). }
  destruct (Hrun w) as [(Hs & Hv & Hg) Ht].
  { unfold I. now repeat split. }
  now repeat split.
Qed.

End Runs.

Lemma dropped_events_do_nothing_witness :
  Main.run (H := Sample.browser)
    (Main.initial Resizer.DEFAULT_SETTINGS Sample.files)
    [Main.VaultCreate Sample.a_png; Main.Elapse 700;
     Main.VaultModify Sample.a_png]
  = Main.with_now 700 (Main.initial Resizer.DEFAULT_SETTINGS Sample.files).
Proof.
  apply (dropped_events_do_nothing (H := Sample.browser)
           [Main.VaultCreate Sample.a_png; Main.Elapse 700;
            Main.VaultModify Sample.a_png]
           (Main.initial Resizer.DEFAULT_SETTINGS Sample.files)).
  - intros t Ht. now apply elem_of_nil in Ht.
  - repeat constructor; now left.
Defined.

Lemma toggles_off_nothing_automatic_witness :
  Main.vault
    (Main.run (H := Sample.browser) (Sample.started Sample.manual_only)
       [Main.VaultCreate Sample.a_png; Main.Elapse 2000])
  = Sample.files.
Proof.
  apply (toggles_off_nothing_automatic (H := Sample.browser)
           [Main.VaultCreate Sample.a_png; Main.Elapse 2000]
           (Sample.started Sample.manual_only)).
  - reflexivity.
  - reflexivity.
  - repeat constructor.
Defined.

(* ------------------------------------------------------------------ *)
(** * From an event to the release of the guard *)

Section Cycle.
Import JsString Resizer Main Props Behaviour.
Context `{Browser}.
Local Open Scope string_scope.

(** The only armed timer fires when its deadline is reached. *)
Lemma elapse_fires_single (t : Timer) (n : nat) (w : World) :
  timers w = [t] -> deadline t = (now w + Z.of_nat (S n))%Z ->
  elapse (S n) w
  = snd (run_callback (action t)
           (with_timers (fun _ => []) (with_now (deadline t) w))).
Proof.
  intros Et Ed. rewrite elapse_S.
  rewrite elapse_idle
    by (intros x Hx; rewrite Et in Hx; apply list_elem_of_singleton in Hx;
        subst x; lia).
  unfold tick. wsimpl. rewrite Et.
  rewrite filter_cons_True by (apply Z.leb_le; lia).
  rewrite filter_nil.
  change (handle <$> by_deadline [t]) with [handle t].
  change (fire_all [handle t] ?x) with (fire (handle t) x).
  unfold fire. wsimpl. rewrite Et. unfold find_timer. simpl find.
  rewrite Z.eqb_refl. f_equal. f_equal.
  apply World_eq; wsimpl; try reflexivity.
  - rewrite Et. rewrite filter_cons_False by (intros Hc; now apply Hc).
    now rewrite filter_nil.
  - lia.
Qed.

Lemma elapse_no_timers (n : nat) (w : World) :
  timers w = [] -> elapse n w = with_now (now w + Z.of_nat n) w.
Proof.
  intros Et. apply elapse_idle. intros t Ht. rewrite Et in Ht.
  now apply elem_of_nil in Ht.
Qed.

(** An event on an idle plugin, then the quiet period: [processFile] runs
    on the world as it was, 500 ms later. *)
Lemma event_then_quiet (create : bool) (file : TFile) (w : World) :
  idle w -> ready w = true -> isImageFile (name file) = true ->
  run w [event create file; Elapse 500]
  = snd (processFile file
           (with_now (now w + 500) (with_nextHandle (nextHandle w + 1) w))).
Proof.
  intros (Et & Ep & Eg) Hr Hi.
  change (run w [event create file; Elapse 500])
    with (elapse 500 (step w (event create file))).
  rewrite step_event.
  rewrite scheduleResize_accepted
    by (try assumption; rewrite Eg; apply not_elem_of_empty).
  cbn [snd].
  assert (Ed : disarm_existing file w = w).
  { unfold disarm_existing. now rewrite Ep, lookup_empty. }
  rewrite Ed.
  rewrite (elapse_fires_single
             {| handle := nextHandle w; deadline := now w + 500;
                action := DebounceFire file |} 499)
    by (unfold arm; wsimpl; cbn [deadline];
        first [now rewrite Et | lia]).
  cbn [action deadline]. unfold run_callback.
  match goal with
  | |- context [(update ?g;; processFile file) ?x] =>
      change ((update g;; processFile file) x) with (processFile file (g x))
  end.
  f_equal. f_equal. unfold arm.
  apply World_eq; wsimpl; try reflexivity.
  - rewrite Ep. apply delete_insert_id. apply lookup_empty.
  - now rewrite Et.
Qed.

Lemma run_then_elapse (w : World) (a b : input) (n : nat) :
  run w [a; b; Elapse n] = elapse n (run w [a; b]).
Proof. reflexivity. Qed.

(** What the guard set holds when the release timer of an accepted
    invocation has fired. *)
Lemma release_after_processFile (file : TFile) (w : World) :
  timers w = [] -> path file ∉ processing w ->
  isImageFile (name file) = true ->
  resizeOnPaste (settings w) || resizeOnDrop (settings w) = true ->
  exists v' g' l,
    processFile file w
    = (Ok tt,
       {| settings := settings w; processing := g'; pending := pending w;
          ready := ready w; vault := v';
          timers := [release_timer file w];
          nextHandle := nextHandle w + 1; now := now w;
          trace := (trace w ++ EnterProcessFile file :: CallReadBinary file
                      :: l)%list |}) /\
    elapse 1000 (snd (processFile file w))
    = {| settings := settings w;
         processing :=
           if convertToJpeg (settings w)
              && String.eqb (getExtension (name file)) "png"
           then (g' ∖ {[path file]}) ∖ {[target_batch file]}
           else g' ∖ {[path file]};
         pending := pending w; ready := ready w; vault := v';
         timers := []; nextHandle := nextHandle w + 1;
         now := now w + 1000;
         trace := (trace w ++ EnterProcessFile file :: CallReadBinary file
                     :: l)%list |} /\
    accepted_outcome file w v' g' l.
Proof.
  intros Et Hg Hi Ht.
  destruct (processFile_accepted file w Hg Hi Ht) as (v' & g' & l & E & C).
  exists v', g', l. rewrite E. cbn [snd]. rewrite Et in *. cbn [app] in *.
  split; [reflexivity|]. split; [|exact C].
  rewrite (elapse_fires_single (release_timer file w) 999)
    by (wsimpl; unfold release_timer; cbn [deadline];
        first [reflexivity | lia]).
  unfold release_timer. cbn [action deadline]. unfold run_callback.
  mrun. wsimpl. fold (target_batch file).
  destruct (convertToJpeg (settings w)
            && String.eqb (getExtension (name file)) "png");
    wsimpl; apply World_eq; wsimpl; reflexivity.
Qed.

(** X12: One event on an idle plugin for an image that is not converted
    (convert-to-JPEG is off, or the file is not a PNG), then the quiet
    period and the grace period: [processFile] was invoked once, and the
    plugin is idle again: no timer is left, nothing is pending and the
    guard set is empty. *)
Theorem event_cycle_releases_guard (create : bool) (file : TFile)
    (w : World) :
  idle w -> ready w = true -> isImageFile (name file) = true ->
  convertToJpeg (settings w) = false \/ getExtension (name file) <> "png" ->
  let w' := run w [event create file; Elapse 500; Elapse 1000] in
  idle w' /\
  timers w' = [] /\ pending w' = ∅ /\ processing w' = ∅ /\
  now w' = (now w + 1500)%Z /\ ready w' = true /\
  settings w' = settings w /\
  invocations (trace w') = (invocations (trace w) ++ [file])%list.
Proof.
  intros Hidle Hr Hi Hconv w'. unfold w'. clear w'.
  apply no_conversion in Hconv.
  rewrite run_then_elapse.
  rewrite event_then_quiet by assumption.
  destruct Hidle as (Et & Ep & Eg).
  set (wA := with_now (now w + 500) (with_nextHandle (nextHandle w + 1) w)).
  assert (Hcore :
    timers (elapse 1000 (snd (processFile file wA))) = [] /\
    pending (elapse 1000 (snd (processFile file wA))) = ∅ /\
    processing (elapse 1000 (snd (processFile file wA))) = ∅ /\
    now (elapse 1000 (snd (processFile file wA))) = (now w + 1500)%Z /\
    ready (elapse 1000 (snd (processFile file wA))) = true /\
    settings (elapse 1000 (snd (processFile file wA))) = settings w /\
    invocations (trace (elapse 1000 (snd (processFile file wA))))
    = (invocations (trace w) ++ [file])%list).
  { destruct (processFile_gates file wA) as [Hd|(Hg & _ & Ht)].
    - rewrite processFile_declined by exact Hd. cbn [snd].
      rewrite elapse_no_timers by (wsimpl; exact Et). unfold wA. wsimpl.
      repeat split; try assumption.
      + lia.
      + now rewrite invocations_app.
    - destruct (release_after_processFile file wA Et Hg Hi Ht)
        as (v' & g' & l & E & Ee & C).
      apply accepted_guard in C.
      change (processing wA) with (processing w) in C. rewrite Eg in C.
      change (settings wA) with (settings w) in C, Ee.
      rewrite Hconv in Ee.
      assert (Cg : g' = {[path file]}).
      { rewrite (right_id_L (∅ : gset string) (∪)) in C.
        destruct C as [-> | (_ & _ & Hc)]; [reflexivity|congruence]. }
      clear C.
      assert (Hinv : invocations (EnterProcessFile file :: CallReadBinary file
                                    :: l) = [file]).
      { destruct (processFile_trace file wA) as (l0 & El & Fl).
        rewrite E in El. cbn [snd trace] in El.
        apply app_inv_head in El. injection El as <-.
        simpl. f_equal. apply invocations_not_entry.
        apply Forall_inv_tail in Fl.
        eapply Forall_impl; [exact Fl|].
        intros e. apply processFile_effect_not_entry. }
      rewrite Ee. wsimpl.
      assert (Hsub : g' ∖ {[path file]} = ∅).
      { rewrite Cg. apply set_eq. intros x. guard_solver. }
      clear E Ee Cg.
      unfold wA in *. wsimpl. wsimpl.
      repeat split; try assumption.
      + lia.
      + rewrite invocations_app. f_equal. exact Hinv. }
  generalize dependent (elapse 1000 (snd (processFile file wA))).
  intros wf (H1 & H2 & H3 & H4 & H5 & H6 & H7).
  split; [repeat split; assumption|].
  repeat split; assumption.
Qed.

End Cycle.

Lemma event_cycle_releases_guard_witness :
  Behaviour.idle
    (Main.run (H := Sample.browser) (Sample.started Resizer.DEFAULT_SETTINGS)
       [Props.event true Sample.a_png; Main.Elapse 500; Main.Elapse 1000]).
Proof.
  refine (proj1 (event_cycle_releases_guard (H := Sample.browser) true
                   Sample.a_png (Sample.started Resizer.DEFAULT_SETTINGS)
                   _ _ _ _)).
  - repeat split.
  - reflexivity.
  - reflexivity.
  - left. reflexivity.
Defined.

(* ------------------------------------------------------------------ *)
(** * The paths of a converted file *)

Section RenameTargets.
Import JsString Resizer Main Props Paths.
Local Open Scope string_scope.

Lemma append_cons (c : ascii) (s t : string) :
  String c s ++ t = String c (s ++ t).
Proof. reflexivity. Qed.

Lemma append_empty_l (t : string) : "" ++ t = t.
Proof. reflexivity. Qed.

Lemma append_empty_r (s : string) : s ++ "" = s.
Proof.
  induction s as [|c s IH]; [reflexivity|]. now rewrite append_cons, IH.
Qed.

Lemma append_assoc (a b c : string) : (a ++ b) ++ c = a ++ (b ++ c).
Proof.
  induction a as [|x a IH]; [reflexivity|]. now rewrite !append_cons, IH.
Qed.

Lemma no_dot_app (a b : string) : no_dot (a ++ b) = no_dot a && no_dot b.
Proof.
  induction a as [|x a IH]; [reflexivity|].
  rewrite append_cons. simpl. rewrite IH. now rewrite andb_assoc.
Qed.

Lemma nonempty_app_r (a b : string) :
  nonempty b = true -> nonempty (a ++ b) = true.
Proof. destruct a; [now rewrite append_empty_l|reflexivity]. Qed.

(** [s.replace(/\.[^.]+$/, r)] replaces the last dot and what follows it,
    when something follows it. *)
Lemma replace_ext_app (pre ext r : string) :
  no_dot ext = true -> nonempty ext = true ->
  replace_ext (pre ++ "." ++ ext) r = pre ++ r.
Proof.
  intros Hn He. change ("." ++ ext) with (String "." ext).
  induction pre as [|c pre IH].
  - rewrite !append_empty_l. simpl. now rewrite He, Hn.
  - rewrite !append_cons. cbn [replace_ext].
    rewrite no_dot_app. cbn [no_dot is_dot]. simpl (negb _).
    rewrite andb_false_r, andb_false_r, IH. reflexivity.
Qed.

(** A replacement without "$" is inserted as it is. *)
Lemma substitute_no_dollar (repl matched before after : string) :
  no_dollar repl = true -> substitute repl matched before after = repl.
Proof.
  induction repl as [|c repl IH]; [reflexivity|].
  intros Hd. simpl in Hd. apply andb_true_iff in Hd as [Hc Hd].
  apply negb_true_iff in Hc.
  assert (Hne : c <> "$"%char).
  { intros ->. discriminate. }
  specialize (IH Hd).
  cbn [substitute].
  destruct c as [[] [] [] [] [] [] [] []]; try (now rewrite IH);
    now contradiction Hne.
Qed.

Lemma strip_prefix_self (s t : string) : strip_prefix s (s ++ t) = Some t.
Proof.
  induction s as [|c s IH]; [now destruct t|].
  rewrite append_cons. simpl. now rewrite Ascii.eqb_refl.
Qed.

Lemma strip_prefix_refl (s : string) : strip_prefix s s = Some "".
Proof.
  pose proof (strip_prefix_self s "") as Hs. now rewrite append_empty_r in Hs.
Qed.

(** A name with a dot is not found before the end of a prefix without
    dots. *)
Lemma strip_prefix_shift (nm pre : string) :
  no_dot nm = false -> no_dot pre = true -> nonempty pre = true ->
  strip_prefix nm (pre ++ nm) = None.
Proof.
  revert pre. induction nm as [|n nm IH]; intros pre Hd Hp He;
    [discriminate|].
  destruct pre as [|p pre]; [discriminate|].
  rewrite append_cons. cbn [strip_prefix].
  destruct (Ascii.eqb n p) eqn:Enp; [|reflexivity].
  apply Ascii.eqb_eq in Enp. subst p.
  simpl in Hp. apply andb_true_iff in Hp as [Hn Hp].
  simpl in Hd. rewrite Hn in Hd. simpl in Hd.
  replace (pre ++ String n nm) with ((pre ++ String n "") ++ nm)
    by (rewrite append_assoc; reflexivity).
  apply IH; [exact Hd| |].
  - rewrite no_dot_app, Hp. simpl. now rewrite Hn.
  - now apply nonempty_app_r.
Qed.

Lemma split_at_first_end (nm dir : string) :
  no_dot nm = false -> no_dot dir = true ->
  split_at_first nm (dir ++ nm) = Some (dir, "").
Proof.
  intros Hd. induction dir as [|c dir IH]; intros Hp.
  - rewrite append_empty_l.
    destruct nm as [|n nm]; [discriminate|].
    cbn [split_at_first]. now rewrite strip_prefix_refl.
  - pose proof (strip_prefix_shift nm (String c dir) Hd Hp eq_refl) as Hs.
    rewrite append_cons in Hs |- *.
    cbn [split_at_first]. rewrite Hs.
    simpl in Hp. apply andb_true_iff in Hp as [_ Hp].
    now rewrite (IH Hp).
Qed.

Lemma no_dollar_app (a b : string) :
  no_dollar (a ++ b) = no_dollar a && no_dollar b.
Proof.
  induction a as [|x a IH]; [reflexivity|].
  rewrite append_cons. simpl. rewrite IH. now rewrite andb_assoc.
Qed.

(** X14: Where a converted file goes.  For a file [dir ++ stem ++ "." ++ ext]
    the batch path and the release callback of [processFile] compute
    [dir ++ stem ++ ".jpg"], and the new name is again the name of an
    image.  The write-back of [processFile] replaces the first occurrence
    of the file name in the path by the new name: it computes the same
    path when the part before the name has no dot and the name has no
    "$" before its extension. *)
Theorem rename_targets_agree (file : TFile) (dir stem ext : string) :
  name file = stem ++ "." ++ ext -> path file = dir ++ name file ->
  no_dot ext = true -> nonempty ext = true ->
  target_batch file = dir ++ stem ++ ".jpg" /\
  isImageFile (stem ++ ".jpg") = true /\
  (no_dot dir = true -> no_dollar stem = true ->
   target_single file = dir ++ stem ++ ".jpg").
Proof.
  intros En Ep Hn He. split; [|split].
  - unfold target_batch. rewrite Ep, En.
    rewrite <- append_assoc. rewrite replace_ext_app by assumption.
    apply append_assoc.
  - unfold isImageFile. rewrite pop_split_dot.
    change (stem ++ ".jpg") with (stem ++ "." ++ "jpg").
    rewrite afterLastDot_app by reflexivity.
    apply bool_decide_eq_true_2. apply IMAGE_EXTENSIONS_spec. auto.
  - intros Hd Hs. unfold target_single, replace_str.
    rewrite Ep, En. rewrite replace_ext_app by assumption.
    rewrite split_at_first_end; [|rewrite no_dot_app; simpl;
                                  apply andb_false_r|exact Hd].
    rewrite substitute_no_dollar
      by (rewrite no_dollar_app, Hs; reflexivity).
    now rewrite append_empty_r.
Qed.

End RenameTargets.

Lemma rename_targets_agree_witness :
  Props.target_single Sample.a_png = "img/a.jpg"%string.
Proof.
  refine (proj2 (proj2 (rename_targets_agree Sample.a_png "img/" "a" "png"
                          _ _ _ _)) _ _); reflexivity.
Defined.

(* ------------------------------------------------------------------ *)
(** * Unloading the plugin *)

Section Unload.
Import JsString Resizer Main Props Behaviour.
Context `{Browser}.
Local Open Scope string_scope.

(** [onunload] disarms every debounce timer of a reachable plugin. *)
Lemma onunload_NoDebounce (w : World) :
  Inv w -> NoDebounce (snd (onunload w)).
Proof.
  intros Hinv t f Ht Ha. unfold onunload in Ht. revert Ht. mrun. wsimpl.
  intros Ht. apply list_elem_of_filter in Ht as [Hn Ht].
  apply Hn. apply list_elem_of_fmap. exists (path f, handle t).
  split; [reflexivity|]. apply elem_of_map_to_list.
  now apply (inv_pending w Hinv).
Qed.

(** While no debounce timer is armed the passing of time has no effect
    outside the plugin. *)
Lemma elapse_after_release_only (v : gmap string entry) (n : nat) :
  wsound (fun w => NoDebounce w /\ vault w = v) (fun _ => False) (elapse n).
Proof.
  apply elapse_wsound. apply tick_wsound.
  { intros t w Hw. exact Hw. }
  apply fire_wsound. intros w t [Hn Hv] Ht.
  assert (Hkeep : NoDebounce
                    (with_timers (filter (fun t' => handle t' ≠ handle t)) w)).
  { intros t' f Ht'. apply list_elem_of_filter in Ht' as [_ Ht'].
    exact (Hn t' f Ht'). }
  destruct (action t) as [f|p|f|f] eqn:Ea.
  - destruct (Hn t f Ht Ea).
  - unfold run_callback. mrun. wsimpl.
    split; [split; [exact Hkeep|exact Hv]|].
    exists []. now rewrite app_nil_r.
  - unfold run_callback. mrun. wsimpl.
    destruct (convertToJpeg (settings w)
              && String.eqb (getExtension (name f)) "png"); wsimpl;
      (split; [split; [exact Hkeep|exact Hv]|]);
      exists []; now rewrite app_nil_r.
  - unfold run_callback. mrun. wsimpl.
    split; [split; [exact Hkeep|exact Hv]|].
    exists []. now rewrite app_nil_r.
Qed.

(** X15: Unloading disarms the debounce.  Whatever the plugin went
    through before, [onunload] leaves the pending map and the guard set
    empty and no debounce timer armed.  From then on no timer invokes
    [processFile]: however much time passes, the timers that fire are
    release timers, no debounce timer is armed, nothing is pending and
    the list of invocations stays as it was. *)
Theorem unload_stops_processing (s : ImageResizerSettings)
    (v : gmap string entry) (inputs : list input) :
  let w' := run (initial s v) (inputs ++ [Unload]) in
  pending w' = ∅ /\ processing w' = ∅ /\ NoDebounce w' /\
  forall n, NoDebounce (elapse n w') /\
            pending (elapse n w') = ∅ /\
            invocations (trace (elapse n w')) = invocations (trace w').
Proof.
  intros w'. unfold w'. clear w'. rewrite run_app.
  set (w0 := run (initial s v) inputs).
  assert (Hinv : Inv w0) by apply run_Inv, initial_Inv.
  change (run w0 [Unload]) with (snd (onunload w0)).
  pose proof (onunload_NoDebounce w0 Hinv) as Hn.
  split; [reflexivity|]. split; [reflexivity|]. split; [exact Hn|].
  intros n.
  destruct (elapse_after_release_only (vault (snd (onunload w0))) n
              (snd (onunload w0)) (conj Hn eq_refl))
    as [[Hn' Hv] (l & El & Fl)].
  assert (l = []) as ->.
  { destruct l as [|e l]; [reflexivity|]. now apply Forall_inv in Fl. }
  rewrite app_nil_r in El.
  split; [exact Hn'|]. split; [|now rewrite El].
  clear El Hv Hn'. induction n as [|n IH]; [reflexivity|].
  rewrite elapse_S.
  revert IH. generalize (elapse n (snd (onunload w0))). intros w1 Hp.
  unfold tick.
  set (hs := handle <$> _). clearbody hs.
  assert (Hp1 : pending (with_now (now w1 + 1) w1) = ∅) by exact Hp.
  revert Hp1. generalize (with_now (now w1 + 1) w1). clear Hp.
  induction hs as [|h hs IHh]; intros w2 Hp; [exact Hp|].
  cbn [fire_all fold_left]. apply IHh.
  unfold fire. destruct (find_timer h (timers w2)) as [t|]; [|exact Hp].
  destruct (action t) as [f|p|f|f]; unfold run_callback.
  - match goal with
    | |- context [(update ?g;; processFile f) ?x] =>
        change ((update g;; processFile f) x) with (processFile f (g x))
    end.
    destruct (processFile_gates f
                (with_pending (fun m => delete (path f) m)
                   (with_timers (filter (fun t' => handle t' ≠ h)) w2)))
      as [Hd|(Hg & Hi & Ht)].
    + rewrite processFile_declined by exact Hd. wsimpl. rewrite Hp.
      apply delete_empty.
    + destruct (processFile_accepted _ _ Hg Hi Ht) as (v' & g' & l' & E & _).
      rewrite E. wsimpl. rewrite Hp. apply delete_empty.
  - mrun. wsimpl. exact Hp.
  - mrun. wsimpl.
    destruct (convertToJpeg (settings w2)
              && String.eqb (getExtension (name f)) "png"); wsimpl; exact Hp.
  - mrun. wsimpl. exact Hp.
Qed.

End Unload.

(* ------------------------------------------------------------------ *)
(** * The batch commands *)

(** Proves that a computation ends with a given result in a given world,
    field by field. *)
Ltac wfields_with :=
  cbn [Behaviour.stagger]; rewrite ?Z.add_0_r;
  apply f_equal; apply World_eq; wsimpl;
  rewrite <- ?app_assoc; reflexivity.

Section BatchStep.
Import JsString Resizer Main Props Behaviour.
Context `{Browser}.
Local Open Scope string_scope.

Lemma batchStep_spec (file : TFile) (w : World) :
  exists v' g' l o,
    batchStep file w
    = (Ok o,
       {| settings := settings w; processing := g'; pending := pending w;
          ready := ready w; vault := v';
          timers := (timers w ++ [{| handle := nextHandle w;
                                     deadline := now w + stagger o + 1000;
                                     action := BatchRelease file |}])%list;
          nextHandle := nextHandle w + 1; now := now w + stagger o;
          trace := (trace w ++ CallReadBinary file :: l)%list |}) /\
    batch_outcome file w v' g' l o.
Proof.
  unfold batchStep. mrun. wsimpl.
  destruct (readBinary (vault w) file) as [old|e] eqn:Ef; wsimpl.
  2: { eexists _, _, _, Errored.
       split; [|exact (BatchReadFailed file w e Ef)]. wfields_with. }
  destruct (resizeImage old (name file) (settings w)) as [[r|]|err] eqn:Er; wsimpl.
  3: { eexists _, _, _, Errored.
       split; [|exact (BatchEngineFailed file w old err Ef Er)].
       wfields_with. }
  2: { eexists _, _, _, Skipped.
       split; [|exact (BatchWithinLimits file w old Ef Er)]. wfields_with. }
  assert (Hm : modifyBinary (vault w) file (data r)
               = Ok (<[path file := FileEntry (data r)]> (vault w))).
  { unfold readBinary in Ef. unfold modifyBinary.
    destruct (vault w !! path file) as [[c|]|]; try discriminate. reflexivity. }
  destruct (newExtension_cases _ _ _ _ Er) as [[Ex _]|[Ex _]].
  - rewrite (writeBack_batch_same_extension _ _ Ex). mrun. wsimpl.
    rewrite Hm. wsimpl.
    eexists _, _, _, Resized.
    split; [|exact (BatchWrittenBack file w old r Ef Er (or_introl Ex))].
    wfields_with.
  - unfold writeBack_batch. rewrite Ex.
    change (truthy (Some "jpg")) with true. cbv iota.
    change ("." ++ default "" (Some "jpg")) with ".jpg".
    fold (target_batch file).
    mrun. wsimpl. rewrite Hm. wsimpl.
    unfold getAbstractFileByPath.
    destruct (<[path file := FileEntry (data r)]> (vault w) !! target_batch file)
      as [e|] eqn:Et; wsimpl.
    + eexists _, _, _, Resized.
      split; [|refine (BatchWrittenBack file w old r Ef Er (or_intror _));
               rewrite Et; now eexists].
      wfields_with.
    + unfold renameFile. wsimpl. rewrite lookup_insert_eq, Et. wsimpl.
      eexists _, _, _, Resized.
      split; [|exact (BatchRenamed file w old r Ef Er Ex Et)].
      wfields_with.
Qed.

(** X16: The batch writes a successful resize back whatever the state of the
    plugin: a guarded path, toggles that are off or a layout that is not
    ready do not stop it.  Without a conversion the file holds the
    engine's bytes under its own path; with a conversion and a free target
    it is stored under the new path and gone from the old one.  The file
    is counted as resized, its path is guarded, 100 ms pass, and no notice
    is shown for the single file. *)
Theorem batchStep_writes_result (file : TFile) (w : World)
    (input : bytes) (r : ResizeResult) :
  readBinary (vault w) file = Ok input ->
  resizeImage input (name file) (settings w) = Ok (Some r) ->
  let w' := snd (batchStep file w) in
  fst (batchStep file w) = Ok Resized /\
  (newExtension r = None ->
   vault w' = <[path file := FileEntry (data r)]> (vault w)) /\
  (newExtension r = Some "jpg" -> vault w !! target_batch file = None ->
   vault w' !! target_batch file = Some (FileEntry (data r)) /\
   vault w' !! path file = None /\
   target_batch file ∈ processing w') /\
  path file ∈ processing w' /\
  now w' = (now w + 100)%Z /\
  forall n, ShowNotice n ∈ trace w' -> ShowNotice n ∈ trace w.
Proof.
  intros Hr Hz w'. unfold w'. clear w'.
  destruct (batchStep_spec file w) as (v' & g' & l & o & E & C).
  rewrite E. wsimpl.
  assert (Hpath : vault w !! target_batch file = None ->
                  target_batch file <> path file).
  { intros Hfree Eq. unfold readBinary in Hr. rewrite <- Eq, Hfree in Hr.
    discriminate. }
  destruct C as [e' Hr'|i e' Hr' Hz'|i Hr' Hz'|i r' Hr' Hz' Hsame
                |i r' Hr' Hz' Hx Hfree];
    try congruence;
    (rewrite Hr in Hr'; injection Hr' as <-);
    (rewrite Hz in Hz'; try discriminate; injection Hz' as <-).
  - split; [reflexivity|]. split; [reflexivity|].
    split.
    { intros Hx Hfree. exfalso. destruct Hsame as [Hn|[e He]]; [congruence|].
      rewrite lookup_insert_ne in He by (intros Eq; now apply (Hpath Hfree)).
      congruence. }
    split; [guard_solver|]. split; [reflexivity|].
    intros n. rewrite !elem_of_app, !elem_of_cons, elem_of_nil.
    intros [?|[?|[?|[?|?]]]]; try discriminate; tauto.
  - assert (Ne : target_batch file <> path file).
    { intros Eq. rewrite Eq, lookup_insert_eq in Hfree. discriminate. }
    split; [reflexivity|]. split; [congruence|].
    split.
    { intros _ _. rewrite lookup_insert_eq.
      rewrite lookup_insert_ne by congruence. rewrite lookup_delete_eq.
      split; [reflexivity|]. split; [reflexivity|]. guard_solver. }
    split; [guard_solver|]. split; [reflexivity|].
    intros n. rewrite !elem_of_app, !elem_of_cons, elem_of_nil.
    intros [?|[?|[?|[?|[?|?]]]]]; try discriminate; tauto.
Qed.

End BatchStep.

Lemma batchStep_writes_result_witness :
  Main.vault (snd (Main.batchStep (H := Sample.browser) Sample.a_png
                     (Main.initial Sample.manual_only Sample.files)))
  = <["img/a.png"%string := Main.FileEntry [Byte.x13; Byte.x04]]> Sample.files.
Proof.
  refine (proj1 (proj2 (batchStep_writes_result (H := Sample.browser)
                   Sample.a_png (Main.initial Sample.manual_only Sample.files)
                   Sample.wide
                   {| Resizer.data := [Byte.x13; Byte.x04];
                      Resizer.width := 1920; Resizer.height := 480;
                      Resizer.originalWidth := 4000;
                      Resizer.originalHeight := 1000;
                      Resizer.newExtension := None |} _ _)) eq_refl).
  - reflexivity.
  - vm_compute. reflexivity.
Defined.

(* ------------------------------------------------------------------ *)
(** * What a batch run touches *)

Section BatchRun.
Import JsString Resizer Main Props Behaviour.
Context `{Browser}.
Local Open Scope string_scope.

Lemma reads_app (l1 l2 : list effect) :
  reads (l1 ++ l2) = (reads l1 ++ reads l2)%list.
Proof.
  induction l1 as [|e l1 IH]; [reflexivity|].
  destruct e; simpl; now rewrite IH.
Qed.

Lemma batch_outcome_reads (file : TFile) (w : World)
    (v' : gmap string entry) (g' : gset string) (l : list effect)
    (o : outcome) :
  batch_outcome file w v' g' l o -> reads l = [] /\ invocations l = [].
Proof. intros []; split; reflexivity. Qed.

Lemma batch_outcome_keeps (file : TFile) (w : World)
    (v' : gmap string entry) (g' : gset string) (l : list effect)
    (o : outcome) (p : string) (e : entry) :
  batch_outcome file w v' g' l o ->
  p <> path file -> vault w !! p = Some e -> v' !! p = Some e.
Proof.
  intros [e' Hr|i e' Hr Hz|i Hr Hz|i r Hr Hz _|i r Hr Hz _ Hfree] Hp He;
    try exact He.
  - now rewrite lookup_insert_ne by congruence.
  - assert (Hpt : p <> target_batch file).
    { intros ->. rewrite lookup_insert_ne in Hfree by congruence.
      congruence. }
    rewrite lookup_insert_ne by congruence.
    rewrite lookup_delete_ne by congruence.
    now rewrite lookup_insert_ne by congruence.
Qed.

(** The loop of [batchResize], file after file. *)
Lemma batchLoop_frame (files : list TFile) (c : counters) (w : World) :
  exists c' w',
    batchLoop files c w = (Ok c', w') /\
    settings w' = settings w /\ pending w' = pending w /\
    ready w' = ready w /\
    action <$> timers w' = ((action <$> timers w) ++ (BatchRelease <$> files))%list /\
    reads (trace w') = (reads (trace w) ++ files)%list /\
    invocations (trace w') = invocations (trace w) /\
    (forall n, ShowNotice n ∈ trace w' -> ShowNotice n ∈ trace w) /\
    (forall p e, (forall f, f ∈ files -> path f <> p) ->
                 vault w !! p = Some e -> vault w' !! p = Some e).
Proof.
  revert c w. induction files as [|file rest IH]; intros c w.
  - exists c, w. rewrite !app_nil_r. repeat split; auto.
  - rewrite batchLoop_cons.
    destruct (batchStep_spec file w) as (v' & g' & l & o & E & C).
    rewrite E. cbn [snd].
    match goal with
    | |- context [batchLoop rest ?c1 ?w1] =>
        destruct (IH c1 w1)
          as (c' & w' & El & Hs & Hp & Hr & Ht & Hrd & Hin & Hno & Hv)
    end.
    revert Hs Hp Hr Ht Hrd Hin Hno Hv. wsimpl.
    intros Hs Hp Hr Ht Hrd Hin Hno Hv.
    exists c', w'. split; [exact El|].
    destruct (batch_outcome_reads _ _ _ _ _ _ C) as [Hl Hi].
    repeat split; try assumption.
    + rewrite Ht, fmap_app. cbn [fmap list_fmap action].
      now rewrite <- app_assoc.
    + rewrite Hrd, reads_app. cbn [reads]. rewrite Hl.
      now rewrite <- app_assoc.
    + rewrite Hin, invocations_app. cbn [invocations]. rewrite Hi.
      apply app_nil_r.
    + intros n Hn. apply Hno in Hn.
      rewrite elem_of_app, elem_of_cons in Hn.
      destruct Hn as [Hn|[Hn|Hn]]; [exact Hn|discriminate|].
      exfalso. destruct C; rewrite ?elem_of_cons, elem_of_nil in Hn;
        intuition discriminate.
    + intros p e Hne He. apply Hv.
      * intros f Hf. apply Hne. now apply elem_of_cons; right.
      * apply (batch_outcome_keeps _ _ _ _ _ _ _ _ C); [|exact He].
        intros Eq. apply (Hne file); [apply elem_of_cons; now left|].
        now symmetry.
Qed.

Lemma batchResize_frame (files : list TFile) (scope : string) (w : World) :
  let w' := snd (batchResize files scope w) in
  settings w' = settings w /\ pending w' = pending w /\
  ready w' = ready w /\
  action <$> timers w' = ((action <$> timers w) ++ (BatchRelease <$> files))%list /\
  reads (trace w') = (reads (trace w) ++ files)%list /\
  invocations (trace w') = invocations (trace w) /\
  (forall p e, (forall f, f ∈ files -> path f <> p) ->
               vault w !! p = Some e -> vault w' !! p = Some e).
Proof.
  unfold batchResize.
  destruct files as [|file rest].
  - cbn [length Nat.eqb]. mrun. wsimpl. rewrite !app_nil_r.
    rewrite reads_app, invocations_app. cbn [reads invocations].
    rewrite !app_nil_r. repeat split; auto.
  - cbn [length Nat.eqb]. set (files := file :: rest).
    mrun. wsimpl.
    match goal with
    | |- context [batchLoop files ?c0 ?w0] =>
        destruct (batchLoop_frame files c0 w0)
          as (c' & w' & El & Hs & Hp & Hr & Ht & Hrd & Hin & _ & Hv)
    end.
    revert Hs Hp Hr Ht Hrd Hin Hv. wsimpl.
    intros Hs Hp Hr Ht Hrd Hin Hv. rewrite El. wsimpl.
    rewrite reads_app, invocations_app. cbn [reads invocations].
    rewrite !app_nil_r.
    rewrite reads_app in Hrd. rewrite invocations_app in Hin.
    cbn [reads invocations] in Hrd, Hin. rewrite app_nil_r in Hrd, Hin.
    repeat split; assumption.
Qed.

(** X19: The commands read exactly the images.  "Resize all images in vault"
    reads the files of the vault whose name is that of an image, each
    once and in the order of [getFiles]; "Resize images in current folder"
    reads those among them whose parent is the folder of the active file;
    without an active file, or when it has no parent, nothing is read and
    the vault is left as it is. *)
Theorem batch_commands_read_images (getFiles : list TFile) (w : World) :
  reads (trace (snd (resizeAllImages getFiles w)))
  = (reads (trace w)
       ++ filter (fun f => isImageFile (name f) = true) getFiles)%list /\
  (forall active folder, parent active = Some folder ->
     reads (trace (snd (resizeImagesInCurrentFolder (Some active) getFiles w)))
     = (reads (trace w)
          ++ filter (fun f => parent f = Some folder
                              ∧ isImageFile (name f) = true) getFiles)%list) /\
  (forall activeFile,
     activeFile = None \/
     (exists active, activeFile = Some active /\ parent active = None) ->
     reads (trace (snd (resizeImagesInCurrentFolder activeFile getFiles w)))
     = reads (trace w) /\
     vault (snd (resizeImagesInCurrentFolder activeFile getFiles w))
     = vault w).
Proof.
  split; [|split].
  - unfold resizeAllImages.
    now destruct (batchResize_frame
                    (filter (fun f => isImageFile (name f) = true) getFiles)
                    "vault" w) as (_ & _ & _ & _ & Hrd & _).
  - intros active folder Hf. unfold resizeImagesInCurrentFolder. rewrite Hf.
    now destruct (batchResize_frame
                    (filter (fun f => parent f = Some folder
                                      ∧ isImageFile (name f) = true) getFiles)
                    folder w) as (_ & _ & _ & _ & Hrd & _).
  - intros activeFile [-> | (active & -> & Hn)];
      unfold resizeImagesInCurrentFolder; rewrite ?Hn;
      mrun; wsimpl; rewrite reads_app; cbn [reads];
      now rewrite app_nil_r.
Qed.

End BatchRun.

Lemma batch_commands_read_images_witness :
  Behaviour.reads
    (Main.trace
       (snd (Main.resizeImagesInCurrentFolder (H := Sample.browser)
               (Some Sample.note) [Sample.note; Sample.a_png; Sample.root_png]
               (Sample.started Resizer.DEFAULT_SETTINGS))))
  = [Sample.a_png].
Proof.
  apply (proj1 (proj2 (batch_commands_read_images (H := Sample.browser)
                         [Sample.note; Sample.a_png; Sample.root_png]
                         (Sample.started Resizer.DEFAULT_SETTINGS)))
           Sample.note "img"%string).
  reflexivity.
Defined.

(* ------------------------------------------------------------------ *)
(** * Pasting at full size *)

Section PasteTail.
Import JsString Resizer Main Props Behaviour.
Context `{Browser}.
Local Open Scope string_scope.

Lemma pasteFullSize_created (buffer : bytes) (fullPath : string) (w : World) :
  vault w !! fullPath = None ->
  pasteFullSize (Some buffer) fullPath w
  = (Ok tt,
     {| settings := settings w;
        processing := {[fullPath]} ∪ processing w;
        pending := pending w; ready := ready w;
        vault := <[fullPath := FileEntry buffer]> (vault w);
        timers := (timers w ++ [{| handle := nextHandle w;
                                   deadline := now w + 2000;
                                   action := PasteRelease fullPath |}])%list;
        nextHandle := nextHandle w + 1; now := now w;
        trace := (trace w ++ CallCreateBinary fullPath buffer
                    :: if showNotice (settings w)
                       then [ShowNotice (PastedFullSize (kilobytes buffer))]
                       else [])%list |}).
Proof.
  intros Hfree. unfold pasteFullSize. mrun. wsimpl.
  unfold createBinary. rewrite Hfree. wsimpl.
  destruct (showNotice (settings w)); wsimpl; wfields.
Qed.

Lemma pasteFullSize_refused (buffer : bytes) (fullPath : string) (w : World)
    (e : entry) :
  vault w !! fullPath = Some e ->
  pasteFullSize (Some buffer) fullPath w
  = (Ok tt,
     {| settings := settings w;
        processing := {[fullPath]} ∪ processing w;
        pending := pending w; ready := ready w; vault := vault w;
        timers := timers w; nextHandle := nextHandle w; now := now w;
        trace := (trace w ++ [CallCreateBinary fullPath buffer;
                              ConsoleError fullPath;
                              ShowNotice FailedToPaste])%list |}).
Proof.
  intros Hfree. unfold pasteFullSize. mrun. wsimpl.
  unfold createBinary. rewrite Hfree. wsimpl. wfields.
Qed.

(** X20: "Paste full size image" keeps the image at full size.  When the path
    is free, the bytes of the clipboard are stored under it as they are,
    without a call of the resize engine; the path is guarded and a
    release timer is armed, due 2000 ms later.  Until then every create
    or modify event for the new file is dropped: the vault and the trace
    stay as they are.  After 2000 ms the guard is released. *)
Theorem pasteFullSize_keeps_full_size (buffer : bytes) (fullPath : string)
    (w : World) :
  vault w !! fullPath = None ->
  let w' := snd (pasteFullSize (Some buffer) fullPath w) in
  vault w' = <[fullPath := FileEntry buffer]> (vault w) /\
  fullPath ∈ processing w' /\
  timers w' = (timers w ++ [{| handle := nextHandle w;
                               deadline := now w + 2000;
                               action := PasteRelease fullPath |}])%list /\
  (forall from f input, CallResizeImage from f input ∈ trace w' ->
                        CallResizeImage from f input ∈ trace w) /\
  (timers w = [] ->
   forall inputs, Forall (about fullPath) inputs -> elapsed inputs < 2000 ->
     vault (run w' inputs) = vault w' /\
     trace (run w' inputs) = trace w' /\
     timers (run w' inputs) = timers w') /\
  (timers w = [] -> processing w = ∅ ->
   timers (elapse 2000 w') = [] /\
   processing (elapse 2000 w') = ∅ /\
   vault (elapse 2000 w') = vault w').
Proof.
  intros Hfree w'. unfold w'. clear w'.
  rewrite (pasteFullSize_created _ _ _ Hfree). cbn [snd]. wsimpl.
  split; [reflexivity|]. split; [guard_solver|]. split; [reflexivity|].
  split.
  { intros from f input.
    rewrite !elem_of_app, elem_of_cons.
    intros [Hin|[Hin|Hin]]; [exact Hin|discriminate|].
    destruct (showNotice (settings w));
      rewrite ?elem_of_cons, elem_of_nil in Hin;
      intuition discriminate. }
  split.
  - intros Et inputs Ha Hlt. rewrite Et. cbn [app].
    rewrite run_dropped.
    + wsimpl. now repeat split.
    + wsimpl. intros t Ht. apply list_elem_of_singleton in Ht. subst t.
      cbn [deadline]. lia.
    + eapply Forall_impl; [exact Ha|].
      intros i Hi. destruct i; try contradiction; simpl in *.
      * right. right. rewrite Hi. guard_solver.
      * right. right. rewrite Hi. guard_solver.
      * exact I.
  - intros Et Eg. rewrite Et, Eg. cbn [app].
    rewrite (elapse_fires_single
               {| handle := nextHandle w; deadline := now w + 2000;
                  action := PasteRelease fullPath |} 1999)
      by (wsimpl; cbn [deadline]; first [reflexivity | lia]).
    cbn [action deadline]. unfold run_callback. mrun. wsimpl.
    split; [reflexivity|]. split; [|reflexivity].
    apply set_eq. intros x. guard_solver.
Qed.

(** X21: When a file is already stored under the path, the paste fails
    without a change of the vault: the failure is logged and announced,
    nothing escapes.  The path was added to the guard set before the
    write and no release timer is armed, so it stays guarded. *)
Theorem pasteFullSize_collision (buffer : bytes) (fullPath : string)
    (w : World) (e : entry) :
  vault w !! fullPath = Some e ->
  let w' := snd (pasteFullSize (Some buffer) fullPath w) in
  fst (pasteFullSize (Some buffer) fullPath w) = Ok tt /\
  vault w' = vault w /\
  ShowNotice FailedToPaste ∈ trace w' /\
  timers w' = timers w /\
  processing w' = {[fullPath]} ∪ processing w /\
  forall n, timers w = [] -> fullPath ∈ processing (elapse n w').
Proof.
  intros Hthere w'. unfold w'. clear w'.
  rewrite (pasteFullSize_refused _ _ _ _ Hthere). cbn [fst snd]. wsimpl.
  split; [reflexivity|]. split; [reflexivity|].
  split; [rewrite elem_of_app, !elem_of_cons; tauto|].
  split; [reflexivity|]. split; [reflexivity|].
  intros n Et. rewrite elapse_no_timers by (wsimpl; exact Et). wsimpl.
  guard_solver.
Qed.

End PasteTail.

Lemma pasteFullSize_keeps_full_size_witness :
  Main.vault
    (snd (Main.pasteFullSize (Some Sample.wide)
            "img/Pasted image 20240101120000.png"
            (Sample.started Resizer.DEFAULT_SETTINGS)))
  = <["img/Pasted image 20240101120000.png"%string
        := Main.FileEntry Sample.wide]> Sample.files.
Proof.
  apply (proj1 (pasteFullSize_keeps_full_size (H := Sample.browser)
                  Sample.wide "img/Pasted image 20240101120000.png"
                  (Sample.started Resizer.DEFAULT_SETTINGS) eq_refl)).
Defined.

Lemma pasteFullSize_collision_witness :
  Main.vault
    (snd (Main.pasteFullSize (Some Sample.wide)
            "img/a.png" (Sample.started Resizer.DEFAULT_SETTINGS)))
  = Sample.files.
Proof.
  apply (proj1 (proj2 (pasteFullSize_collision (H := Sample.browser)
                         Sample.wide "img/a.png"
                         (Sample.started Resizer.DEFAULT_SETTINGS)
                         (Main.FileEntry Sample.wide) eq_refl))).
Defined.

(* ------------------------------------------------------------------ *)
(** * The clipboard, the file name and the attachment folder *)

Section PasteFront.
Import JsString Resizer Main Props Behaviour Paste.
Local Open Scope string_scope.

Lemma find_in_item_Some (item : ClipboardItem) (mimeType : string)
    (buffer : bytes) :
  find_in_item item = Some (mimeType, buffer) ->
  (mimeType, buffer) ∈ item /\ is_image_type mimeType = true.
Proof.
  unfold find_in_item. intros Hf. apply find_some in Hf as [Hin Hty].
  split; [now apply list_elem_of_In|exact Hty].
Qed.

Lemma find_image_Some (items : list ClipboardItem) (mimeType : string)
    (buffer : bytes) :
  find_image items = Some (mimeType, buffer) ->
  is_image_type mimeType = true /\
  exists item, item ∈ items /\ (mimeType, buffer) ∈ item.
Proof.
  induction items as [|item rest IH]; [discriminate|]. cbn [find_image].
  destruct (find_in_item item) as [[m b]|] eqn:Ef.
  - intros [= -> ->]. apply find_in_item_Some in Ef as [Hin Hty].
    split; [exact Hty|]. exists item. split; [apply elem_of_cons; now left|].
    exact Hin.
  - intros Hr. destruct (IH Hr) as (Hty & it & Hit & Hin).
    split; [exact Hty|]. exists it. split; [|exact Hin].
    apply elem_of_cons. now right.
Qed.

Lemma find_image_None (items : list ClipboardItem) :
  find_image items = None ->
  forall item mimeType buffer,
    item ∈ items -> (mimeType, buffer) ∈ item ->
    is_image_type mimeType = false.
Proof.
  induction items as [|it rest IH]; intros Hn item m b Hit Hin.
  - now apply elem_of_nil in Hit.
  - cbn [find_image] in Hn.
    destruct (find_in_item it) as [found|] eqn:Ef; [discriminate|].
    apply elem_of_cons in Hit as [->|Hit]; [|now apply (IH Hn item m b)].
    unfold find_in_item in Ef.
    apply list_elem_of_In in Hin.
    exact (find_none _ _ Ef (m, b) Hin).
Qed.

Lemma extMap_cases (mimeType : string) :
  (mimeType = "image/png" /\ extMap mimeType = Some "png") \/
  (mimeType = "image/jpeg" /\ extMap mimeType = Some "jpg") \/
  (mimeType = "image/webp" /\ extMap mimeType = Some "webp") \/
  (mimeType = "image/bmp" /\ extMap mimeType = Some "bmp") \/
  extMap mimeType = None.
Proof.
  unfold extMap.
  destruct (String.eqb_spec mimeType "image/png") as [->|_]; [now left|].
  destruct (String.eqb_spec mimeType "image/jpeg") as [->|_];
    [right; now left|].
  destruct (String.eqb_spec mimeType "image/webp") as [->|_];
    [right; right; now left|].
  destruct (String.eqb_spec mimeType "image/bmp") as [->|_];
    [right; right; right; now left|].
  now repeat right.
Qed.

Lemma getExtension_pasted (timestamp ext : string) :
  no_dot ext = true ->
  getExtension ("Pasted image " ++ timestamp ++ "." ++ ext) = toLowerCase ext.
Proof.
  intros Hn. rewrite getExtension_afterLastDot.
  rewrite <- (append_assoc "Pasted image " timestamp ("." ++ ext)).
  now rewrite afterLastDot_app.
Qed.

(** X22: The image taken from the clipboard and the name it is saved under.
    The search returns a type that starts with "image/" together with its
    bytes, and finds one whenever an item has one.  The generated name
    "Pasted image <timestamp>.<ext>" is the name of a supported image,
    whatever the timestamp is, so that only the guard keeps the new file
    from being resized; for PNG, JPEG, WebP and BMP the extension gives
    back the clipboard's type, and every other image type is saved with
    the extension "png". *)
Theorem pasted_name_is_image (items : list ClipboardItem)
    (timestamp : string) :
  (forall mimeType buffer,
     find_image items = Some (mimeType, buffer) ->
     is_image_type mimeType = true /\
     (exists item, item ∈ items /\ (mimeType, buffer) ∈ item) /\
     isImageFile (pasted_name timestamp mimeType) = true /\
     (is_Some (extMap mimeType) ->
      getMimeType (getExtension (pasted_name timestamp mimeType))
      = mimeType) /\
     (extMap mimeType = None ->
      getExtension (pasted_name timestamp mimeType) = "png")) /\
  (find_image items = None ->
   forall item mimeType buffer,
     item ∈ items -> (mimeType, buffer) ∈ item ->
     is_image_type mimeType = false).
Proof.
  split; [|apply find_image_None].
  intros mimeType buffer Hf.
  destruct (find_image_Some _ _ _ Hf) as [Hty Hitem].
  split; [exact Hty|]. split; [exact Hitem|].
  unfold pasted_name, isImageFile.
  change (match pop (split_dot ?s) with
          | Some seg => toLowerCase seg
          | None => ""
          end) with (getExtension s).
  destruct (extMap_cases mimeType)
    as [[-> E]|[[-> E]|[[-> E]|[[-> E]|E]]]];
    rewrite E; cbn [default]; rewrite getExtension_pasted by reflexivity;
    (split; [reflexivity|]); split; try reflexivity;
    try (intros _; reflexivity); try discriminate.
  intros [x Hx]. discriminate.
Qed.

Lemma before_last_slash_app (pre base : string) :
  before_last_slash base = None ->
  before_last_slash (pre ++ "/" ++ base) = Some pre.
Proof.
  intros Hb. change ("/" ++ base) with (String "/" base).
  induction pre as [|c pre IH].
  - rewrite append_empty_l. cbn [before_last_slash]. now rewrite Hb.
  - rewrite append_cons. cbn [before_last_slash]. now rewrite IH.
Qed.

Lemma ensure_folder_spec (folder : string) (w : World) :
  exists v',
    ensure_folder folder w = (Ok folder, with_vault v' w) /\
    is_Some (v' !! folder) /\
    (v' = vault w \/
     (vault w !! folder = None /\ v' = <[folder := FolderEntry]> (vault w))).
Proof.
  unfold ensure_folder, vault_createFolder, createFolder,
    getAbstractFileByPath. mrun. wsimpl.
  destruct (vault w !! folder) as [e|] eqn:Ef; wsimpl.
  - exists (vault w). split; [now destruct w|]. split; [now exists e|now left].
  - rewrite Ef. wsimpl. exists (<[folder := FolderEntry]> (vault w)).
    split; [reflexivity|]. split; [|now right].
    rewrite lookup_insert_eq. now eexists.
Qed.

Lemma getAttachmentFolder_suggested (attachmentFolderPath : option string)
    (activeFile : option TFile) (w : World) (folder base : string) :
  before_last_slash base = None ->
  getAttachmentFolder (Some (Ok (folder ++ "/" ++ base)))
    attachmentFolderPath activeFile w
  = (Ok folder, w).
Proof.
  intros Hb. unfold getAttachmentFolder. now rewrite before_last_slash_app.
Qed.

Lemma getAttachmentFolder_configured (attachmentFolderPath : option string)
    (activeFile : option TFile) (w : World) :
  forall available,
     available = None \/ (exists e, available = Some (Throw e)) ->
     exists folder v',
       getAttachmentFolder available attachmentFolderPath activeFile w
       = (Ok folder, with_vault v' w) /\
       (folder = "" \/ is_Some (v' !! folder)) /\
       (v' = vault w \/
        (vault w !! folder = None /\
         v' = <[folder := FolderEntry]> (vault w))) /\
       (forall p e, vault w !! p = Some e -> v' !! p = Some e) /\
       (forall relative active parentPath,
          attachmentFolderPath = Some ("./" ++ relative) ->
          activeFile = Some active -> parent active = Some parentPath ->
          folder = if nonempty relative
                   then parentPath ++ "/" ++ relative else parentPath) /\
       (forall relative,
          attachmentFolderPath = Some ("./" ++ relative) ->
          activeFile = None -> folder = "./" ++ relative).
Proof.
  intros available Ha.
  assert (Hfall :
    getAttachmentFolder available attachmentFolderPath activeFile w
    = (let attachmentSetting := default "/" attachmentFolderPath in
       if String.eqb attachmentSetting "/" then mret ""
       else
         match strip_prefix "./" attachmentSetting, activeFile ≫= parent with
         | Some relative, Some parentPath =>
             ensure_folder
               (if nonempty relative then parentPath ++ "/" ++ relative
                else parentPath)
         | _, _ => ensure_folder attachmentSetting
         end) w).
  { destruct Ha as [->|[e ->]]; reflexivity. }
  rewrite Hfall. clear Hfall Ha available. cbv zeta.
  assert (Hkeep : forall folder v',
            v' = vault w \/
            (vault w !! folder = None /\
             v' = <[folder := FolderEntry]> (vault w)) ->
            forall p e, vault w !! p = Some e -> v' !! p = Some e).
  { intros folder v' [->|[Hn ->]] p e He; [exact He|].
    rewrite lookup_insert_ne; [exact He|]. intros ->. congruence. }
  destruct (String.eqb_spec (default "/" attachmentFolderPath) "/")
    as [Eroot|Nroot].
  { exists "", (vault w). split; [now destruct w|].
    split; [now left|]. split; [now left|]. split; [auto|].
    split.
    - intros relative active parentPath ->. discriminate.
    - intros relative ->. discriminate. }
  destruct (strip_prefix "./" (default "/" attachmentFolderPath))
    as [relative|] eqn:Es;
    [destruct (activeFile ≫= parent) as [parentPath|] eqn:Ep|].
  + destruct (ensure_folder_spec
                (if nonempty relative then parentPath ++ "/" ++ relative
                 else parentPath) w) as (v' & E & Hs & Hv).
    eexists _, v'. split; [exact E|]. split; [now right|].
    split; [exact Hv|]. split; [now apply (Hkeep _ _ Hv)|].
    split.
    * intros rel active pp Hset -> Hpar. rewrite Hset in Es.
      cbv [default from_option id] in Es. rewrite strip_prefix_self in Es.
      injection Es as <-. cbn in Ep. rewrite Hpar in Ep.
      now injection Ep as <-.
    * intros rel _ ->. discriminate.
  + destruct (ensure_folder_spec (default "/" attachmentFolderPath) w)
      as (v' & E & Hs & Hv).
    eexists _, v'. split; [exact E|]. split; [now right|].
    split; [exact Hv|]. split; [now apply (Hkeep _ _ Hv)|].
    split.
    * intros rel active pp _ -> Hpar. cbn in Ep. rewrite Hpar in Ep.
      discriminate.
    * intros rel ->. reflexivity.
  + destruct (ensure_folder_spec (default "/" attachmentFolderPath) w)
      as (v' & E & Hs & Hv).
    eexists _, v'. split; [exact E|]. split; [now right|].
    split; [exact Hv|]. split; [now apply (Hkeep _ _ Hv)|].
    split.
    * intros rel active pp Hset. rewrite Hset in Es. cbv [default from_option id] in Es.
      rewrite strip_prefix_self in Es. discriminate.
    * intros rel Hset. rewrite Hset in Es. cbv [default from_option id] in Es.
      rewrite strip_prefix_self in Es. discriminate.
Qed.

(** X23: Where a pasted image goes.  When the vault offers
    [getAvailablePathForAttachment] and the call succeeds, the folder is
    what stands before the last "/" of the suggested path, and the vault
    is not touched.  Otherwise the configured folder is used: the call
    ends normally, the folder it returns is the root ("") or exists in the
    vault afterwards, being created when it was missing, and every entry
    of the vault is kept.  A setting "./sub" is taken relative to the
    folder of the active file; without an active file it is used as it
    is written. *)
Theorem getAttachmentFolder_result (attachmentFolderPath : option string)
    (activeFile : option TFile) (w : World) :
  (forall folder base,
     before_last_slash base = None ->
     getAttachmentFolder (Some (Ok (folder ++ "/" ++ base)))
       attachmentFolderPath activeFile w
     = (Ok folder, w)) /\
  (forall available,
     available = None \/ (exists e, available = Some (Throw e)) ->
     exists folder v',
       getAttachmentFolder available attachmentFolderPath activeFile w
       = (Ok folder, with_vault v' w) /\
       (folder = "" \/ is_Some (v' !! folder)) /\
       (v' = vault w \/
        (vault w !! folder = None /\
         v' = <[folder := FolderEntry]> (vault w))) /\
       (forall p e, vault w !! p = Some e -> v' !! p = Some e) /\
       (forall relative active parentPath,
          attachmentFolderPath = Some ("./" ++ relative) ->
          activeFile = Some active -> parent active = Some parentPath ->
          folder = if nonempty relative
                   then parentPath ++ "/" ++ relative else parentPath) /\
       (forall relative,
          attachmentFolderPath = Some ("./" ++ relative) ->
          activeFile = None -> folder = "./" ++ relative)).
Proof.
  split.
  - intros folder base. apply getAttachmentFolder_suggested.
  - apply getAttachmentFolder_configured.
Qed.

Lemma getAttachmentFolder_Ok (available : option (result string))
    (attachmentFolderPath : option string) (activeFile : option TFile)
    (w : World) :
  exists folder w1,
    getAttachmentFolder available attachmentFolderPath activeFile w
    = (Ok folder, w1).
Proof.
  destruct available as [[suggested|e]|].
  - eexists _, _. reflexivity.
  - destruct (getAttachmentFolder_configured attachmentFolderPath
                activeFile w (Some (Throw e)))
      as (folder & v' & E & _); [right; now exists e|].
    eexists _, _. exact E.
  - destruct (getAttachmentFolder_configured attachmentFolderPath
                activeFile w None)
      as (folder & v' & E & _); [now left|].
    eexists _, _. exact E.
Qed.

(** X24: The whole command.  Nothing escapes it.  When the clipboard holds an
    image and the path is free, the command does what the write of the
    bytes under "<folder>/<name>" does in the world the folder lookup
    leaves, and hands the embed link "![[<name>]]" to the editor.  When
    the clipboard cannot be read, the failure is logged and announced and
    nothing else changes; when it holds no image, the notice "No image
    found on clipboard" is all that happens.  In both cases nothing is
    inserted. *)
Theorem pasteFullSize_editor_composes (clipboard : result (list ClipboardItem))
    (timestamp : string) (activeFile : option TFile)
    (available : option (result string))
    (attachmentFolderPath : option string) (w : World) :
  (exists inserted,
     fst (pasteFullSize_editor clipboard timestamp activeFile available
            attachmentFolderPath w) = Ok inserted) /\
  (forall items mimeType buffer folder w1,
     clipboard = Ok items ->
     find_image items = Some (mimeType, buffer) ->
     getAttachmentFolder available attachmentFolderPath activeFile w
     = (Ok folder, w1) ->
     vault w1 !! full_path folder (pasted_name timestamp mimeType) = None ->
     pasteFullSize_editor clipboard timestamp activeFile available
       attachmentFolderPath w
     = (Ok (Some ("![[" ++ pasted_name timestamp mimeType ++ "]]")),
        snd (pasteFullSize (Some buffer)
               (full_path folder (pasted_name timestamp mimeType)) w1))) /\
  (forall e, clipboard = Throw e ->
     pasteFullSize_editor clipboard timestamp activeFile available
       attachmentFolderPath w
     = (Ok None,
        with_trace
          (fun t => (t ++ [ConsoleError
                             "[Image Resizer] Failed to paste full size image:";
                           ShowNotice FailedToPaste])%list) w)) /\
  (forall items, clipboard = Ok items -> find_image items = None ->
     pasteFullSize_editor clipboard timestamp activeFile available
       attachmentFolderPath w
     = (Ok None,
        with_trace (fun t => (t ++ [ShowNotice NoImageOnClipboard])%list) w)).
Proof.
  split; [|split; [|split]].
  - unfold pasteFullSize_editor. mrun.
    destruct clipboard as [items|e]; [|now eexists].
    destruct (find_image items) as [[mimeType buffer]|]; [|now eexists].
    destruct (getAttachmentFolder_Ok available attachmentFolderPath
                activeFile w) as (folder & w1 & ->).
    wsimpl. unfold createBinary.
    destruct (vault w1 !! full_path folder (pasted_name timestamp mimeType));
      wsimpl; [now eexists|].
    destruct (showNotice (settings w1)); now eexists.
  - intros items mimeType buffer folder w1 -> Hf Hg Hfree.
    rewrite (pasteFullSize_created _ _ _ Hfree). cbn [snd].
    unfold pasteFullSize_editor. mrun. rewrite Hf, Hg. wsimpl.
    unfold createBinary. rewrite Hfree. wsimpl.
    destruct (showNotice (settings w1)); wsimpl;
      (apply f_equal; apply World_eq; wsimpl;
       rewrite <- ?app_assoc; reflexivity).
  - intros e ->. unfold pasteFullSize_editor. mrun. wsimpl.
    apply f_equal. apply World_eq; wsimpl;
      rewrite <- ?app_assoc; reflexivity.
  - intros items -> Hf. unfold pasteFullSize_editor. mrun.
    rewrite Hf. reflexivity.
Qed.

End PasteFront.

Lemma pasted_name_is_image_witness :
  Resizer.isImageFile (Paste.pasted_name "20240101120000" "image/jpeg") = true.
Proof.
  refine (proj1 (proj2 (proj2 (proj1 (pasted_name_is_image
            [[("text/plain"%string, []); ("image/jpeg"%string, Sample.wide)]]
            "20240101120000") "image/jpeg"%string Sample.wide _)))).
  reflexivity.
Defined.

Lemma getAttachmentFolder_result_witness :
  Paste.getAttachmentFolder (Some (Resizer.Ok "attachments/temp.png"%string))
    None (Some Sample.note) (Sample.started Resizer.DEFAULT_SETTINGS)
  = (Resizer.Ok "attachments"%string, Sample.started Resizer.DEFAULT_SETTINGS).
Proof.
  apply (proj1 (getAttachmentFolder_result None (Some Sample.note)
                  (Sample.started Resizer.DEFAULT_SETTINGS))
           "attachments"%string "temp.png"%string).
  reflexivity.
Defined.

Lemma pasteFullSize_editor_composes_witness :
  fst (Paste.pasteFullSize_editor
         (Resizer.Ok [[("image/png"%string, Sample.wide)]]) "20240101120000"
         (Some Sample.note) (Some (Resizer.Ok "img/temp.png"%string)) None
         (Sample.started Resizer.DEFAULT_SETTINGS))
  = Resizer.Ok (Some "![[Pasted image 20240101120000.png]]"%string).
Proof.
  rewrite (proj1 (proj2 (pasteFullSize_editor_composes
             (Resizer.Ok [[("image/png"%string, Sample.wide)]])
             "20240101120000" (Some Sample.note)
             (Some (Resizer.Ok "img/temp.png"%string)) None
             (Sample.started Resizer.DEFAULT_SETTINGS)))
           [[("image/png"%string, Sample.wide)]] "image/png"%string
           Sample.wide "img"%string (Sample.started Resizer.DEFAULT_SETTINGS)
           eq_refl eq_refl eq_refl eq_refl).
  reflexivity.
Defined.

(* ------------------------------------------------------------------ *)
(** * What the plugin never touches *)

Section Untouched.
Import JsString Resizer Main Props Behaviour.
Context `{Browser}.
Local Open Scope string_scope.

(** X25: the echo of its own write is ignored.  After an invocation of
    [processFile] that passed the gates, create and modify events for the
    file are dropped for the next 1000 ms: whatever the vault announces in
    that time, nothing is scheduled, read or written. *)
Theorem own_writes_are_ignored (file : TFile) (w : World)
    (inputs : list input) :
  timers w = [] -> path file ∉ processing w ->
  isImageFile (name file) = true ->
  resizeOnPaste (settings w) || resizeOnDrop (settings w) = true ->
  Forall (about (path file)) inputs -> elapsed inputs < 1000 ->
  run (snd (processFile file w)) inputs
  = with_now (now w + Z.of_nat (elapsed inputs)) (snd (processFile file w)).
Proof.
  intros Et Hg Hi Ht Ha Hlt.
  destruct (processFile_accepted file w Hg Hi Ht) as (v' & g' & l & E & C).
  apply accepted_guard in C.
  assert (Hin : path file ∈ g').
  { destruct C as [-> | (-> & _)]; guard_solver. }
  clear C. rewrite E. cbn [snd]. rewrite Et. cbn [app].
  rewrite run_dropped; [reflexivity| |].
  - wsimpl. intros t Hin'. apply list_elem_of_singleton in Hin'. subst t.
    unfold release_timer. cbn [deadline]. lia.
  - eapply Forall_impl; [exact Ha|].
    intros i Hi'. destruct i; try contradiction; simpl in *.
    + right. right. now rewrite Hi'.
    + right. right. now rewrite Hi'.
    + exact I.
Qed.

(** ** Entries nobody pointed the plugin to *)

Lemma fire_keeps (I : World -> Prop) :
  (forall w t, I w -> t ∈ timers w ->
     I (snd (run_callback (action t)
               (with_timers (filter (fun t' => handle t' ≠ handle t)) w)))) ->
  forall h w, I w -> I (fire h w).
Proof.
  intros Hcb h w Hw. unfold fire.
  destruct (find_timer h (timers w)) as [t|] eqn:Ef; [|exact Hw].
  apply find_timer_Some in Ef as [Ht <-]. exact (Hcb w t Hw Ht).
Qed.

Lemma fire_all_keeps (I : World -> Prop) :
  (forall h w, I w -> I (fire h w)) ->
  forall hs w, I w -> I (fire_all hs w).
Proof.
  intros Hf hs. induction hs as [|h hs IH]; intros w Hw; [exact Hw|].
  cbn [fire_all fold_left]. apply IH. now apply Hf.
Qed.

Lemma elapse_keeps (I : World -> Prop) :
  (forall t w, I w -> I (with_now t w)) ->
  (forall h w, I w -> I (fire h w)) ->
  forall n w, I w -> I (elapse n w).
Proof.
  intros Hnow Hf n. induction n as [|n IH]; intros w Hw; [exact Hw|].
  rewrite elapse_S. unfold tick. apply fire_all_keeps; [exact Hf|].
  apply Hnow. now apply IH.
Qed.

Lemma unscheduled_filter (p : string) (P : Timer -> Prop)
    `{forall t, Decision (P t)} (w : World) :
  unscheduled p w -> unscheduled p (with_timers (filter P) w).
Proof.
  intros Hu f Hf. apply Hu. revert Hf. wsimpl.
  rewrite !list_elem_of_fmap. intros (t & Ea & Ht).
  apply list_elem_of_filter in Ht as [_ Ht]. now exists t.
Qed.

Lemma unscheduled_snoc (p : string) (t : Timer) (w : World) :
  unscheduled p w -> (forall f, action t = DebounceFire f -> path f <> p) ->
  unscheduled p (with_timers (fun ts => (ts ++ [t])%list) w).
Proof.
  intros Hu Ht f. wsimpl. rewrite fmap_app, elem_of_app.
  intros [Hin|Hin]; [now apply Hu|].
  apply list_elem_of_singleton in Hin. now apply Ht.
Qed.

Lemma processFile_timers (file : TFile) (w : World) :
  timers (snd (processFile file w)) = timers w \/
  timers (snd (processFile file w))
  = (timers w ++ [release_timer file w])%list.
Proof.
  destruct (processFile_gates file w) as [Hd|(Hg & Hi & Ht)].
  - left. now rewrite (processFile_declined _ _ Hd).
  - right.
    destruct (processFile_accepted file w Hg Hi Ht) as (v' & g' & l & E & _).
    now rewrite E.
Qed.

Lemma callback_keeps (p : string) (e : entry) (w : World) (cb : callback) :
  (forall f, cb = DebounceFire f -> path f <> p) ->
  unscheduled p w -> vault w !! p = Some e ->
  unscheduled p (snd (run_callback cb w)) /\
  vault (snd (run_callback cb w)) !! p = Some e.
Proof.
  intros Hcb Hu Hv. destruct cb as [f|q|f|f]; unfold run_callback.
  - match goal with
    | |- context [(update ?g;; processFile f) ?x] =>
        change ((update g;; processFile f) x) with (processFile f (g x));
        set (w1 := g x)
    end.
    assert (Hp : p <> path f).
    { intros Eq. now apply (Hcb f eq_refl). }
    split; [|now apply processFile_keeps].
    intros f' Hf'. apply Hu. revert Hf'.
    destruct (processFile_timers f w1) as [-> | ->]; [trivial|].
    rewrite fmap_app, elem_of_app. intros [Hin|Hin]; [exact Hin|].
    apply list_elem_of_singleton in Hin. discriminate.
  - mrun. wsimpl. split; [exact Hu|exact Hv].
  - mrun. wsimpl.
    destruct (convertToJpeg (settings w)
              && String.eqb (getExtension (name f)) "png"); wsimpl;
      (split; [exact Hu|exact Hv]).
  - mrun. wsimpl. split; [exact Hu|exact Hv].
Qed.

Lemma step_keeps (p : string) (e : entry) (w : World) (i : input) :
  ~ names p i ->
  unscheduled p w /\ vault w !! p = Some e ->
  unscheduled p (step w i) /\ vault (step w i) !! p = Some e.
Proof.
  intros Hn [Hu Hv].
  assert (Hev : forall file, path file <> p ->
            unscheduled p (snd (scheduleResize file w)) /\
            vault (snd (scheduleResize file w)) !! p = Some e).
  { intros file Hp.
    destruct (scheduleResize_frame file w) as (_ & _ & _ & Ev & _).
    split; [|now rewrite Ev].
    destruct (scheduleResize_cases file w) as [-> | ->]; [exact Hu|].
    cbn [snd]. unfold arm.
    intros f Hf. revert Hf. wsimpl.
    rewrite fmap_app, elem_of_app. intros [Hin|Hin].
    - revert Hin. unfold disarm_existing.
      destruct (pending w !! path file) as [existing|]; [|apply Hu].
      destruct (truthy_handle existing); [|apply Hu].
      apply (unscheduled_filter p _ w Hu f).
    - apply list_elem_of_singleton in Hin. injection Hin as ->. exact Hp. }
  assert (Hbatch : forall files scope,
            (forall f, f ∈ files -> path f <> p) ->
            unscheduled p (snd (batchResize files scope w)) /\
            vault (snd (batchResize files scope w)) !! p = Some e).
  { intros files scope Hfiles.
    destruct (batchResize_frame files scope w)
      as (_ & _ & _ & Ht & _ & _ & Hkeep).
    split; [|now apply Hkeep].
    intros f Hf. apply Hu. unfold unscheduled in Hf. rewrite Ht in Hf.
    apply elem_of_app in Hf as [Hf|Hf]; [exact Hf|].
    apply list_elem_of_fmap in Hf as (f0 & Hc & _). discriminate. }
  destruct i; cbn [names step] in *.
  - split; [exact Hu|exact Hv].
  - apply Hev. exact Hn.
  - apply Hev. exact Hn.
  - apply (elapse_keeps
             (fun w' => unscheduled p w' /\ vault w' !! p = Some e)).
    + intros t w' Hw'. exact Hw'.
    + apply fire_keeps. intros w' t [Hu' Hv'] Ht.
      apply callback_keeps.
      * intros f Ha. apply Hu'. apply list_elem_of_fmap. now exists t.
      * now apply unscheduled_filter.
      * exact Hv'.
    + now split.
  - unfold resizeAllImages. apply Hbatch. intros f Hf Hp.
    apply list_elem_of_filter in Hf as [Hi Hf]. apply Hn. now exists f.
  - unfold resizeImagesInCurrentFolder.
    destruct activeFile as [active|];
      [destruct (parent active) as [folder|]|];
      [|mrun; wsimpl; now split..].
    apply Hbatch. intros f Hf Hp.
    apply list_elem_of_filter in Hf as [[_ Hi] Hf]. apply Hn. now exists f.
  - destruct imageBlob as [buffer|].
    + destruct (vault w !! fullPath) as [e'|] eqn:Ef.
      * rewrite (pasteFullSize_refused _ _ _ _ Ef). cbn [snd]. now split.
      * rewrite (pasteFullSize_created _ _ _ Ef). cbn [snd]. split.
        -- apply (unscheduled_snoc p _ w Hu). intros f. discriminate.
        -- wsimpl. rewrite lookup_insert_ne; [exact Hv|].
           intros ->. congruence.
    + unfold pasteFullSize. mrun. wsimpl. now split.
  - unfold onunload. mrun. wsimpl. split; [|exact Hv].
    apply (unscheduled_filter p _ w Hu).
  - split; [exact Hu|exact Hv].
  - exfalso. now apply Hn.
Qed.

(** ** While convert-to-JPEG is off nothing is renamed *)

Lemma in_place_not_rename (file : TFile) (e : effect) :
  in_place file e -> not_rename e.
Proof. now destruct e. Qed.

Lemma processFile_plain (file : TFile) :
  wsound plain not_rename (fun w => snd (processFile file w)).
Proof.
  intros w Hw.
  assert (Hc : convertToJpeg (settings w)
               && String.eqb (getExtension (name file)) "png" = false)
    by (unfold plain in Hw; now rewrite Hw).
  destruct (processFile_in_place file w Hc) as (Hs & (l & El & Fl) & _).
  split; [unfold plain; now rewrite Hs|].
  exists (EnterProcessFile file :: l). split; [exact El|].
  constructor; [exact Logic.I|].
  eapply Forall_impl; [exact Fl|]. apply in_place_not_rename.
Qed.

Lemma batchStep_plain (file : TFile) :
  wsound plain not_rename (fun w => snd (batchStep file w)).
Proof.
  intros w Hw.
  destruct (batchStep_spec file w) as (v' & g' & l & o & E & C).
  rewrite E. wsimpl. split; [exact Hw|].
  exists (CallReadBinary file :: l). split; [reflexivity|].
  constructor; [exact Logic.I|].
  destruct C as [e' Hr|i e' Hr Hz|i Hr Hz|i r Hr Hz _|i r Hr Hz Hx Hfree];
    try (repeat constructor).
  exfalso. destruct (newExtension_cases _ _ _ _ Hz) as [[Hn _]|[_ Hy]];
    [congruence|].
  unfold plain in Hw. rewrite Hw in Hy. discriminate.
Qed.

Lemma batchLoop_plain (files : list TFile) (c : counters) :
  wsound plain not_rename (fun w => snd (batchLoop files c w)).
Proof.
  revert c. induction files as [|file rest IH]; intros c.
  - apply wsound_id.
  - intros w Hw. rewrite batchLoop_cons.
    destruct (batchStep_plain file w Hw) as [Hi (l & Et & Fl)].
    destruct (IH (count (classify w file) c) _ Hi) as [Hi' (l' & Et' & Fl')].
    split; [exact Hi'|]. exists (l ++ l')%list.
    rewrite Et', Et, app_assoc. split; [reflexivity|]. now apply Forall_app.
Qed.

Lemma emit_plain (e : effect) :
  not_rename e -> wsound plain not_rename (fun w => snd (emit e w)).
Proof.
  intros He w Hw. unfold emit, update. wsimpl. split; [exact Hw|].
  exists [e]. split; [reflexivity|]. now constructor.
Qed.

Lemma batchResize_plain (files : list TFile) (scope : string) :
  wsound plain not_rename (fun w => snd (batchResize files scope w)).
Proof.
  intros w Hw. unfold batchResize.
  destruct (length files =? 0)%nat; [now apply emit_plain|].
  unfold mbind, M_bind.
  destruct (emit_plain (ShowNotice (Scanning (length files) scope))
              Logic.I w Hw) as [Hi (l & Et & Fl)].
  destruct (emit _ w) as [[[]|e0] w1]; [|now (split; [|exists l])].
  cbn [snd] in Hi, Et.
  destruct (batchLoop_plain files
              {| resizedCount := 0; skippedCount := 0; errorCount := 0 |}
              w1 Hi) as [Hi' (l' & Et' & Fl')].
  destruct (batchLoop files _ w1) as [[c|e1] w2]; cbn [snd] in Hi', Et'.
  - destruct (emit_plain (ShowNotice (BatchSummary (resizedCount c)
                                        (skippedCount c) (errorCount c)))
                Logic.I w2 Hi') as [Hi2 (l2 & Et2 & Fl2)].
    split; [exact Hi2|]. exists (l ++ l' ++ l2)%list.
    rewrite Et2, Et', Et, <- !app_assoc. split; [reflexivity|].
    repeat (apply Forall_app; split); assumption.
  - cbn [snd]. split; [exact Hi'|]. exists (l ++ l')%list.
    rewrite Et', Et, <- !app_assoc. split; [reflexivity|].
    now apply Forall_app.
Qed.

Lemma callback_plain (cb : callback) :
  wsound plain not_rename (fun w => snd (run_callback cb w)).
Proof.
  destruct cb as [f|q|f|f]; intros w Hw; unfold run_callback.
  - match goal with
    | |- context [(update ?g;; processFile f) ?x] =>
        change ((update g;; processFile f) x) with (processFile f (g x))
    end.
    destruct (processFile_plain f
                (with_pending (fun m => delete (path f) m) w) Hw)
      as [Hi (l & Et & Fl)].
    split; [exact Hi|]. now exists l.
  - mrun. wsimpl. split; [exact Hw|]. exists []. now rewrite app_nil_r.
  - mrun. wsimpl.
    destruct (convertToJpeg (settings w)
              && String.eqb (getExtension (name f)) "png"); wsimpl;
      (split; [exact Hw|]); exists []; now rewrite app_nil_r.
  - mrun. wsimpl. split; [exact Hw|]. exists []. now rewrite app_nil_r.
Qed.

Lemma step_plain (i : input) :
  keeps_format i -> wsound plain not_rename (fun w => step w i).
Proof.
  intros Hk.
  assert (Hev : forall file,
            wsound plain not_rename (fun w => snd (scheduleResize file w))).
  { intros file w Hw.
    destruct (scheduleResize_frame file w) as (Es & _ & _ & _ & _ & Et).
    split; [unfold plain; now rewrite Es|].
    exists []. now rewrite app_nil_r. }
  destruct i; cbn [step keeps_format] in *.
  - intros w Hw. split; [exact Hw|]. exists []. now rewrite app_nil_r.
  - apply Hev.
  - apply Hev.
  - apply elapse_wsound. apply tick_wsound.
    { intros t w Hw. exact Hw. }
    apply fire_wsound. intros w t Hw Ht.
    exact (callback_plain (action t)
             (with_timers (filter (fun t' => handle t' ≠ handle t)) w) Hw).
  - apply batchResize_plain.
  - unfold resizeImagesInCurrentFolder.
    destruct activeFile as [active|];
      [destruct (parent active) as [folder|]|];
      [apply batchResize_plain|now apply emit_plain..].
  - intros w Hw. destruct imageBlob as [buffer|].
    + destruct (vault w !! fullPath) as [e'|] eqn:Ef.
      * rewrite (pasteFullSize_refused _ _ _ _ Ef). wsimpl.
        split; [exact Hw|]. eexists. split; [reflexivity|].
        repeat constructor.
      * rewrite (pasteFullSize_created _ _ _ Ef). wsimpl.
        split; [exact Hw|]. eexists. split; [reflexivity|].
        destruct (showNotice (settings w)); repeat constructor.
    + unfold pasteFullSize. mrun. wsimpl.
      split; [exact Hw|]. eexists. split; [reflexivity|].
      repeat constructor.
  - intros w Hw. unfold onunload. mrun. wsimpl.
    split; [exact Hw|]. exists []. now rewrite app_nil_r.
  - intros w Hw. split; [exact Hk|]. exists []. now rewrite app_nil_r.
  - intros w Hw. split; [exact Hw|]. exists []. now rewrite app_nil_r.
Qed.

(** X26: while convert-to-JPEG stays off the plugin renames nothing and
    changes only what it is pointed to.  Through every run of inputs that
    leave the setting off, [renameFile] is never called; and an entry of
    the vault for whose path no debounce timer is armed stays as it is
    when no input names its path: file events for other paths, the
    passing of time, batch commands whose file list has no image under the
    path, pastes, changes of the settings and the unload.  In particular
    a note is never changed then, and neither is an image that no event
    or command mentioned. *)
Theorem unnamed_paths_are_never_changed (p : string) (e : entry)
    (inputs : list input) (w : World) :
  unscheduled p w ->
  convertToJpeg (settings w) = false ->
  Forall (fun i => ~ names p i /\ keeps_format i) inputs ->
  vault w !! p = Some e ->
  vault (run w inputs) !! p = Some e /\
  convertToJpeg (settings (run w inputs)) = false /\
  exists l, trace (run w inputs) = (trace w ++ l)%list /\
            Forall not_rename l.
Proof.
  intros Hu Hc Hin Hv.
  split.
  - assert (Hrun : unscheduled p (run w inputs) /\
                   vault (run w inputs) !! p = Some e).
    { clear Hc. revert w Hu Hv.
      induction Hin as [|i inputs [Hi _] _ IH]; intros w Hu Hv.
      - now split.
      - change (run w (i :: inputs)) with (run (step w i) inputs).
        destruct (step_keeps p e w i Hi (conj Hu Hv)) as [Hu' Hv'].
        now apply IH. }
    exact (proj2 Hrun).
  - apply (run_wsound plain not_rename keeps_format step_plain inputs);
      [|exact Hc].
    eapply Forall_impl; [exact Hin|]. now intros i [_ Hk].
Qed.

End Untouched.

Lemma own_writes_are_ignored_witness :
  Main.run (H := Sample.browser)
    (snd (Main.processFile (H := Sample.browser) Sample.a_png
            (Sample.started Resizer.DEFAULT_SETTINGS)))
    [Main.VaultModify Sample.a_png; Main.Elapse 999;
     Main.VaultModify Sample.a_png]
  = Main.with_now 999
      (snd (Main.processFile (H := Sample.browser) Sample.a_png
              (Sample.started Resizer.DEFAULT_SETTINGS))).
Proof.
  apply (own_writes_are_ignored (H := Sample.browser) Sample.a_png
           (Sample.started Resizer.DEFAULT_SETTINGS)
           [Main.VaultModify Sample.a_png; Main.Elapse 999;
            Main.VaultModify Sample.a_png]).
  - reflexivity.
  - apply not_elem_of_empty.
  - reflexivity.
  - reflexivity.
  - repeat constructor.
  - simpl. lia.
Defined.

Lemma unnamed_paths_are_never_changed_witness :
  Main.vault
    (Main.run (H := Sample.browser) (Sample.started Resizer.DEFAULT_SETTINGS)
       [Main.VaultCreate Sample.a_png; Main.Elapse 2000;
        Main.CmdResizeAll [Sample.a_png; Sample.c_png]])
    !! "img/b.jpg"%string
  = Some (Main.FileEntry Sample.small).
Proof.
  apply (unnamed_paths_are_never_changed (H := Sample.browser)
           "img/b.jpg" (Main.FileEntry Sample.small)
           [Main.VaultCreate Sample.a_png; Main.Elapse 2000;
            Main.CmdResizeAll [Sample.a_png; Sample.c_png]]
           (Sample.started Resizer.DEFAULT_SETTINGS)).
  - intros f Hf. now apply elem_of_nil in Hf.
  - reflexivity.
  - repeat constructor; simpl; try discriminate; try tauto.
    intros (f & Hf & Hp & _).
    rewrite !elem_of_cons, elem_of_nil in Hf.
    destruct Hf as [->|[->|[]]]; discriminate.
  - reflexivity.
Defined.

(* ------------------------------------------------------------------ *)
(** * The debounce among other timers *)

Section Coalescing.
Import JsString Resizer Main Props Behaviour.
Context `{Browser}.
Local Open Scope string_scope.

(** ** The pending map holds armed timers only *)

Lemma stable_Backed : stable Backed.
Proof.
  constructor.
  1-6: intros x w Hb; exact Hb.
  intros cb delay w _ Hb p h Hp.
  destruct (Hb p h Hp) as (t & f & Ht & Hh & Ha & Hf).
  exists t, f. split; [|auto].
  unfold setTimeout. wsimpl. apply elem_of_app. now left.
Qed.

Lemma handle_inj (w : World) (t t' : Timer) :
  Inv w -> t ∈ timers w -> t' ∈ timers w -> handle t = handle t' -> t = t'.
Proof.
  intros Hi Ht Ht' Eh. pose proof (inv_nodup w Hi) as Hn.
  apply list_elem_of_lookup in Ht as [i Hi1].
  apply list_elem_of_lookup in Ht' as [j Hj].
  assert (i = j).
  { eapply NoDup_lookup; [exact Hn| |].
    - rewrite list_lookup_fmap, Hi1. reflexivity.
    - rewrite list_lookup_fmap, Hj. simpl. now rewrite Eh. }
  subst. congruence.
Qed.

(** Scheduling a path leaves every other timer armed. *)
Lemma scheduleResize_keeps (file : TFile) (w : World) (t : Timer) :
  Inv w -> Backed w -> t ∈ timers w ->
  (forall f, action t = DebounceFire f -> path f <> path file) ->
  t ∈ timers (snd (scheduleResize file w)).
Proof.
  intros Hi Hb Ht Hother.
  destruct (scheduleResize_cases file w) as [-> | ->]; [exact Ht|].
  cbn [snd]. unfold arm. wsimpl. apply elem_of_app. left.
  unfold disarm_existing.
  destruct (pending w !! path file) as [existing|] eqn:Ep; [|exact Ht].
  destruct (truthy_handle existing); [|exact Ht].
  wsimpl. apply list_elem_of_filter. split; [|exact Ht].
  intros Eh. destruct (Hb _ _ Ep) as (t' & f & Ht' & Hh & Ha & Hf).
  assert (t = t') by (apply (handle_inj w); auto; congruence). subst t'.
  exact (Hother f Ha Hf).
Qed.

Lemma scheduleResize_Backed (file : TFile) (w : World) :
  Inv w -> Backed w -> Backed (snd (scheduleResize file w)).
Proof.
  intros Hi Hb.
  destruct (scheduleResize_cases file w) as [E | E]; [now rewrite E|].
  intros p h Hp.
  destruct (decide (p = path file)) as [->|Hne].
  - rewrite E in Hp |- *. cbn [snd] in *. unfold arm in *. revert Hp. wsimpl.
    rewrite lookup_insert_eq. intros [= <-].
    eexists _, file. split; [apply elem_of_app; right;
                             apply list_elem_of_singleton; reflexivity|].
    repeat split.
  - assert (Hp' : pending w !! p = Some h).
    { rewrite E in Hp. cbn [snd] in Hp. unfold arm in Hp. revert Hp. wsimpl.
      rewrite lookup_insert_ne by congruence.
      destruct (disarm_existing_Inv file w Hi) as (_ & -> & _). auto. }
    destruct (Hb p h Hp') as (t & f & Ht & Hh & Ha & Hf).
    exists t, f. split; [|auto]. apply scheduleResize_keeps; auto.
    intros f' Ha'. rewrite Ha in Ha'. injection Ha' as <-. congruence.
Qed.

Lemma fire_Backed (h : Z) (w : World) :
  Inv w -> Backed w -> Backed (fire h w).
Proof.
  intros Hi Hb. unfold fire.
  destruct (find_timer h (timers w)) as [t|] eqn:Ef; [|exact Hb].
  apply find_timer_Some in Ef as [Ht Eh].
  set (w1 := with_timers (filter (fun t' => handle t' ≠ h)) w).
  destruct (action t) as [file|fullPath|file|file] eqn:Ea.
  - unfold run_callback.
    change ((update (with_pending (fun m => delete (path file) m));;
             processFile file) w1)
      with (processFile file
              (with_pending (fun m => delete (path file) m) w1)).
    refine (proj1 (processFile_sound Backed stable_Backed file _ _)).
    intros p h' Hp. revert Hp. unfold w1. wsimpl. intros Hp.
    apply lookup_delete_Some in Hp as [Hne Hp].
    destruct (Hb p h' Hp) as (t' & f & Ht' & Hh & Ha' & Hf).
    exists t', f. split; [|auto].
    apply list_elem_of_filter. split; [|exact Ht'].
    intros Heq.
    assert (t' = t) by (apply (handle_inj w); auto; congruence). subst t'.
    rewrite Ea in Ha'. injection Ha' as <-. congruence.
  - assert (HB : Backed w1).
    { intros p h' Hp. destruct (Hb p h' Hp) as (t' & f & Ht' & Hh & Ha' & Hf).
      exists t', f. split; [|auto]. unfold w1. wsimpl.
      apply list_elem_of_filter. split; [|exact Ht'].
      intros Heq.
      assert (t' = t) by (apply (handle_inj w); auto; congruence). subst t'.
      congruence. }
    refine (proj1 (release_sound Backed stable_Backed _ _ w1 HB)).
    intros f. discriminate.
  - assert (HB : Backed w1).
    { intros p h' Hp. destruct (Hb p h' Hp) as (t' & f & Ht' & Hh & Ha' & Hf).
      exists t', f. split; [|auto]. unfold w1. wsimpl.
      apply list_elem_of_filter. split; [|exact Ht'].
      intros Heq.
      assert (t' = t) by (apply (handle_inj w); auto; congruence). subst t'.
      congruence. }
    refine (proj1 (release_sound Backed stable_Backed _ _ w1 HB)).
    intros f. discriminate.
  - assert (HB : Backed w1).
    { intros p h' Hp. destruct (Hb p h' Hp) as (t' & f & Ht' & Hh & Ha' & Hf).
      exists t', f. split; [|auto]. unfold w1. wsimpl.
      apply list_elem_of_filter. split; [|exact Ht'].
      intros Heq.
      assert (t' = t) by (apply (handle_inj w); auto; congruence). subst t'.
      congruence. }
    refine (proj1 (release_sound Backed stable_Backed _ _ w1 HB)).
    intros f. discriminate.
Qed.

Lemma fire_all_Backed (hs : list Z) (w : World) :
  Inv w -> Backed w -> Inv (fire_all hs w) /\ Backed (fire_all hs w).
Proof.
  revert w. induction hs as [|h hs IH]; intros w Hi Hb; [now split|].
  cbn [fire_all fold_left]. apply IH; [now apply fire_Inv|now apply fire_Backed].
Qed.

Lemma elapse_Backed (n : nat) (w : World) :
  Inv w -> Backed w -> Backed (elapse n w).
Proof.
  intros Hi Hb.
  assert (Hboth : Inv (elapse n w) /\ Backed (elapse n w)).
  { induction n as [|n [IHi IHb]]; [now split|].
    rewrite elapse_S. unfold tick. apply fire_all_Backed.
    - now apply (stable_now Inv stable_Inv).
    - exact IHb. }
  exact (proj2 Hboth).
Qed.

Lemma step_Backed (w : World) (i : input) :
  Inv w -> Backed w -> Backed (step w i).
Proof.
  intros Hi Hb. destruct i; simpl.
  - exact Hb.
  - now apply scheduleResize_Backed.
  - now apply scheduleResize_Backed.
  - now apply elapse_Backed.
  - exact (proj1 (resizeAllImages_sound Backed stable_Backed getFiles w Hb)).
  - exact (proj1 (resizeImagesInCurrentFolder_sound Backed stable_Backed
                    activeFile getFiles w Hb)).
  - exact (proj1 (pasteFullSize_sound Backed stable_Backed imageBlob fullPath
                    w Hb)).
  - intros p h Hp. unfold onunload in Hp. revert Hp. mrun. wsimpl.
    now rewrite lookup_empty.
  - exact Hb.
  - exact Hb.
Qed.

Lemma run_Backed (inputs : list input) (w : World) :
  Inv w -> Backed w -> Backed (run w inputs).
Proof.
  revert w. induction inputs as [|i inputs IH]; intros w Hi Hb; [exact Hb|].
  simpl. apply IH; [now apply step_Inv|now apply step_Backed].
Qed.

Lemma initial_Backed (s : ImageResizerSettings) (v : gmap string entry) :
  Backed (initial s v).
Proof. intros p h Hp. simpl in Hp. now rewrite lookup_empty in Hp. Qed.


(** ** What a timer callback can do *)

Lemma run_callback_frame (cb : callback) (w : World) :
  let w' := snd (run_callback cb w) in
  now w' = now w /\ ready w' = ready w /\
  (forall t, t ∈ timers w -> t ∈ timers w') /\
  (forall t, t ∈ timers w' ->
             t ∈ timers w \/ forall f, action t <> DebounceFire f) /\
  match cb with
  | DebounceFire f =>
      exists l, trace w' = (trace w ++ EnterProcessFile f :: l)%list /\
                Forall not_entry l
  | _ => trace w' = trace w
  end.
Proof.
  destruct cb as [f|q|f|f]; unfold run_callback.
  - match goal with
    | |- context [(update ?g;; processFile f) ?x] =>
        change ((update g;; processFile f) x) with (processFile f (g x));
        set (w1 := g x)
    end.
    cbv zeta.
    assert (Htr : exists l,
              trace (snd (processFile f w1))
              = (trace w ++ EnterProcessFile f :: l)%list /\
              Forall not_entry l).
    { destruct (processFile_trace f w1) as (l & El & Fl).
      exists l. split; [exact El|].
      eapply Forall_impl; [exact Fl|].
      intros e. apply processFile_effect_not_entry. }
    destruct (processFile_gates f w1) as [Hd|(Hg & Hi & Ht)].
    + rewrite (processFile_declined _ _ Hd) in Htr |- *. cbn [snd].
      unfold w1. wsimpl.
      repeat split; auto.
    + destruct (processFile_accepted f w1 Hg Hi Ht) as (v' & g' & l & E & _).
      rewrite E in Htr |- *. cbn [snd]. unfold w1. wsimpl.
      split; [reflexivity|]. split; [reflexivity|].
      split; [intros t Ht'; apply elem_of_app; now left|].
      split; [|exact Htr].
      intros t Ht'. apply elem_of_app in Ht' as [Ht'|Ht']; [now left|].
      right. apply list_elem_of_singleton in Ht'. subst t.
      intros f'. discriminate.
  - mrun. wsimpl. repeat split; auto.
  - mrun. wsimpl.
    destruct (convertToJpeg (settings w)
              && String.eqb (getExtension (name f)) "png"); wsimpl;
      repeat split; auto.
  - mrun. wsimpl. repeat split; auto.
Qed.

Lemma fire_now (h : Z) (w : World) :
  now (fire h w) = now w /\ ready (fire h w) = ready w.
Proof.
  unfold fire. destruct (find_timer h (timers w)) as [t|]; [|now split].
  destruct (run_callback_frame (action t)
              (with_timers (filter (fun t' => handle t' ≠ h)) w))
    as (En & Er & _).
  split; [exact En|exact Er].
Qed.

Lemma fire_all_now (hs : list Z) (w : World) :
  now (fire_all hs w) = now w /\ ready (fire_all hs w) = ready w.
Proof.
  revert w. induction hs as [|h hs IH]; intros w; [now split|].
  change (fire_all (h :: hs) w) with (fire_all hs (fire h w)).
  destruct (IH (fire h w)) as [-> ->]. apply fire_now.
Qed.

Lemma tick_now (w : World) :
  now (tick w) = (now w + 1)%Z /\ ready (tick w) = ready w.
Proof.
  unfold tick.
  destruct (fire_all_now
              (handle <$> by_deadline
                 (filter (fun t => (deadline t <=? now (with_now (now w + 1) w))%Z
                                   = true)
                    (timers (with_now (now w + 1) w))))
              (with_now (now w + 1) w)) as [-> ->].
  now split.
Qed.

Lemma elapse_now (n : nat) (w : World) :
  now (elapse n w) = (now w + Z.of_nat n)%Z /\ ready (elapse n w) = ready w.
Proof.
  induction n as [|n [IHn IHr]];
    [split; [simpl; lia|reflexivity]|].
  rewrite elapse_S. destruct (tick_now (elapse n w)) as [-> ->].
  split; [lia|exact IHr].
Qed.

(** ** Invocations for one path *)

Lemma invoked_app (p : string) (l1 l2 : list effect) :
  invoked p (l1 ++ l2) = (invoked p l1 ++ invoked p l2)%list.
Proof. unfold invoked. now rewrite invocations_app, filter_app. Qed.

Lemma invoked_entry (p : string) (f : TFile) (l : list effect) :
  Forall not_entry l ->
  invoked p (EnterProcessFile f :: l) = if decide (path f = p) then [f] else [].
Proof.
  intros Fl. unfold invoked. cbn [invocations].
  rewrite (invocations_not_entry l Fl).
  destruct (decide (path f = p)) as [E|E].
  - now rewrite filter_cons_True.
  - now rewrite filter_cons_False.
Qed.

Lemma find_timer_armed (w : World) (t : Timer) :
  Inv w -> t ∈ timers w -> find_timer (handle t) (timers w) = Some t.
Proof.
  intros Hi Ht. destruct (find_timer (handle t) (timers w)) as [t0|] eqn:Ef.
  - apply find_timer_Some in Ef as [Ht0 Eh]. f_equal.
    now apply (handle_inj w).
  - exfalso. unfold find_timer in Ef.
    pose proof (find_none _ _ Ef t) as Hf. simpl in Hf.
    rewrite Z.eqb_refl in Hf. discriminate Hf. now apply list_elem_of_In.
Qed.

Lemma stable_waiting (file : TFile) (t : Timer) (n : list TFile)
    (w : World) (ms : Z) :
  waiting file t n w -> waiting file t n (with_now ms w).
Proof.
  intros (Hi & Hb & Ht & Ha & Hn).
  split; [now apply (stable_now Inv stable_Inv)|]. now split.
Qed.

Lemma stable_settled (p : string) (n : list TFile) (w : World) (ms : Z) :
  settled p n w -> settled p n (with_now ms w).
Proof.
  intros (Hi & Hb & Ht & Hn).
  split; [now apply (stable_now Inv stable_Inv)|]. now split.
Qed.

(** ** One timer fires *)

Lemma fire_waiting (file : TFile) (t : Timer) (n : list TFile) (h : Z)
    (w : World) :
  waiting file t n w -> h <> handle t -> waiting file t n (fire h w).
Proof.
  intros (Hi & Hb & Ht & Ha & Hn) Hh.
  split; [now apply fire_Inv|]. split; [now apply fire_Backed|].
  unfold fire. destruct (find_timer h (timers w)) as [t0|] eqn:Ef; [|auto].
  apply find_timer_Some in Ef as [Ht0 Eh0].
  destruct (run_callback_frame (action t0)
              (with_timers (filter (fun t' => handle t' ≠ h)) w))
    as (_ & _ & Hkeep & _ & Htr).
  split.
  { apply Hkeep. wsimpl. apply list_elem_of_filter. split; [congruence|exact Ht]. }
  split; [exact Ha|].
  destruct (action t0) as [g|q|g|g] eqn:Ea0.
  - destruct Htr as (l & -> & Fl). wsimpl.
    rewrite invoked_app, (invoked_entry _ _ _ Fl).
    rewrite decide_False; [now rewrite app_nil_r|].
    intros Hp.
    pose proof (inv_pending w Hi t0 g Ht0 Ea0) as E1.
    pose proof (inv_pending w Hi t file Ht Ha) as E2.
    rewrite Hp, E2 in E1. injection E1 as E1. congruence.
  - now rewrite Htr.
  - now rewrite Htr.
  - now rewrite Htr.
Qed.

Lemma no_debounce_after (p : string) (h : Z) (cb : callback) (w : World) :
  (forall t, t ∈ timers w -> is_debounce p t = true -> handle t = h) ->
  debounce_timers p
    (snd (run_callback cb (with_timers (filter (fun t' => handle t' ≠ h)) w)))
  = [].
Proof.
  intros Hone.
  destruct (run_callback_frame cb
              (with_timers (filter (fun t' => handle t' ≠ h)) w))
    as (_ & _ & _ & Hnew & _).
  apply filter_none. intros t' Ht' Hd.
  destruct (Hnew t' Ht') as [Hold|Hnd].
  - revert Hold. wsimpl. intros Hold.
    apply list_elem_of_filter in Hold as [Hne Hold].
    apply Hne. now apply Hone.
  - apply is_debounce_true in Hd as (f & Ha & _). exact (Hnd f Ha).
Qed.

Lemma fire_due (file : TFile) (t : Timer) (n : list TFile) (w : World) :
  waiting file t n w ->
  settled (path file) (n ++ [file]) (fire (handle t) w).
Proof.
  intros (Hi & Hb & Ht & Ha & Hn).
  split; [now apply fire_Inv|]. split; [now apply fire_Backed|].
  unfold fire. rewrite (find_timer_armed w t Hi Ht).
  split.
  - apply no_debounce_after. intros t' Ht' Hd.
    apply is_debounce_true in Hd as (f & Ha' & Hp).
    pose proof (inv_pending w Hi t' f Ht' Ha') as E1.
    pose proof (inv_pending w Hi t file Ht Ha) as E2.
    rewrite Hp, E2 in E1. now injection E1.
  - destruct (run_callback_frame (action t)
                (with_timers (filter (fun t' => handle t' ≠ handle t)) w))
      as (_ & _ & _ & _ & Htr).
    rewrite Ha in Htr |- *. destruct Htr as (l & -> & Fl). wsimpl.
    rewrite invoked_app, (invoked_entry _ _ _ Fl).
    rewrite decide_True by reflexivity. now rewrite Hn.
Qed.

Lemma fire_settled (p : string) (n : list TFile) (h : Z) (w : World) :
  settled p n w -> settled p n (fire h w).
Proof.
  intros (Hi & Hb & Hnone & Hn).
  split; [now apply fire_Inv|]. split; [now apply fire_Backed|].
  assert (Hno : forall t, t ∈ timers w -> is_debounce p t = true -> False).
  { intros t Ht Hd.
    assert (Hin : t ∈ debounce_timers p w)
      by (apply list_elem_of_filter; now split).
    rewrite Hnone in Hin. now apply elem_of_nil in Hin. }
  unfold fire. destruct (find_timer h (timers w)) as [t0|] eqn:Ef;
    [|now split].
  apply find_timer_Some in Ef as [Ht0 Eh0].
  split.
  - apply no_debounce_after. intros t' Ht' Hd. destruct (Hno t' Ht' Hd).
  - destruct (run_callback_frame (action t0)
                (with_timers (filter (fun t' => handle t' ≠ h)) w))
      as (_ & _ & _ & _ & Htr).
    destruct (action t0) as [g|q|g|g] eqn:Ea0.
    + destruct Htr as (l & -> & Fl). wsimpl.
      rewrite invoked_app, (invoked_entry _ _ _ Fl).
      rewrite decide_False; [now rewrite app_nil_r|].
      intros Hp. apply (Hno t0 Ht0). apply is_debounce_true. now exists g.
    + now rewrite Htr.
    + now rewrite Htr.
    + now rewrite Htr.
Qed.

(** ** The timers that are due fire in some order, each once *)

Lemma insert_timer_perm (t : Timer) (ts : list Timer) :
  insert_timer t ts ≡ₚ t :: ts.
Proof.
  induction ts as [|t' ts IH]; simpl; [reflexivity|].
  destruct (deadline t <? deadline t')%Z; [reflexivity|].
  rewrite IH. apply Permutation_swap.
Qed.

Lemma by_deadline_perm (ts : list Timer) : by_deadline ts ≡ₚ ts.
Proof.
  unfold by_deadline.
  assert (Hacc : forall acc,
            fold_left (fun acc t => insert_timer t acc) ts acc ≡ₚ acc ++ ts).
  { induction ts as [|t ts IH]; intros acc; simpl;
      [now rewrite app_nil_r|].
    rewrite IH, insert_timer_perm. apply Permutation_middle. }
  apply (Hacc []).
Qed.

Lemma fire_all_waiting (file : TFile) (t : Timer) (n : list TFile)
    (hs : list Z) (w : World) :
  waiting file t n w -> handle t ∉ hs -> waiting file t n (fire_all hs w).
Proof.
  revert w. induction hs as [|h hs IH]; intros w Hw Hn; [exact Hw|].
  apply not_elem_of_cons in Hn as [Hne Hn].
  change (fire_all (h :: hs) w) with (fire_all hs (fire h w)).
  apply IH; [|exact Hn]. apply fire_waiting; [exact Hw|congruence].
Qed.

Lemma fire_all_settled (p : string) (n : list TFile) (hs : list Z)
    (w : World) :
  settled p n w -> settled p n (fire_all hs w).
Proof.
  revert w. induction hs as [|h hs IH]; intros w Hw; [exact Hw|].
  change (fire_all (h :: hs) w) with (fire_all hs (fire h w)).
  apply IH. now apply fire_settled.
Qed.

Lemma fire_all_app (hs1 hs2 : list Z) (w : World) :
  fire_all (hs1 ++ hs2) w = fire_all hs2 (fire_all hs1 w).
Proof. apply fold_left_app. Qed.

(** ** One millisecond *)

Lemma tick_waiting (file : TFile) (t : Timer) (n : list TFile) (w : World) :
  waiting file t n w -> (now w + 1 < deadline t)%Z ->
  waiting file t n (tick w).
Proof.
  intros Hw Hlt. unfold tick.
  apply fire_all_waiting; [now apply stable_waiting|].
  intros Hin. apply list_elem_of_fmap in Hin as (t' & Eh & Ht').
  rewrite by_deadline_perm in Ht'.
  apply list_elem_of_filter in Ht' as [Hd Ht'].
  revert Hd Ht'. wsimpl. intros Hd Ht'.
  destruct Hw as (Hi & _ & Ht & _).
  assert (t' = t) by (apply (handle_inj w); auto). subst t'.
  apply Z.leb_le in Hd. lia.
Qed.

Lemma tick_settled (p : string) (n : list TFile) (w : World) :
  settled p n w -> settled p n (tick w).
Proof.
  intros Hw. unfold tick. apply fire_all_settled. now apply stable_settled.
Qed.

Lemma tick_due (file : TFile) (t : Timer) (n : list TFile) (w : World) :
  waiting file t n w -> (deadline t <= now w + 1)%Z ->
  settled (path file) (n ++ [file]) (tick w).
Proof.
  intros Hw Hle. unfold tick.
  set (w1 := with_now (now w + 1) w).
  assert (Hw1 : waiting file t n w1) by now apply stable_waiting.
  set (hs := handle <$> _).
  destruct Hw as (Hi & _ & Ht & _).
  assert (Hin : handle t ∈ hs).
  { apply list_elem_of_fmap. exists t. split; [reflexivity|].
    rewrite by_deadline_perm. apply list_elem_of_filter.
    split; [|exact Ht]. apply Z.leb_le. unfold w1. wsimpl. lia. }
  assert (Hnd : NoDup hs).
  { unfold hs. rewrite by_deadline_perm.
    eapply sublist_NoDup; [exact (inv_nodup w Hi)|].
    apply fmap_sublist, sublist_filter. }
  apply list_elem_of_split in Hin as (hs1 & hs2 & E).
  rewrite E in Hnd |- *.
  apply NoDup_app in Hnd as (_ & Hdisj & _).
  rewrite fire_all_app.
  change (fire_all (handle t :: hs2) ?x)
    with (fire_all hs2 (fire (handle t) x)).
  apply fire_all_settled, fire_due, fire_all_waiting; [exact Hw1|].
  intros Hc. apply (Hdisj _ Hc). now left.
Qed.

(** ** A pause *)

Lemma elapse_waiting (file : TFile) (t : Timer) (n : list TFile) (k : nat)
    (w : World) :
  waiting file t n w -> (now w + Z.of_nat k < deadline t)%Z ->
  waiting file t n (elapse k w).
Proof.
  intros Hw. induction k as [|k IH]; intros Hlt; [exact Hw|].
  rewrite elapse_S. apply tick_waiting; [apply IH; lia|].
  rewrite (proj1 (elapse_now k w)). lia.
Qed.

Lemma elapse_settled (p : string) (n : list TFile) (k : nat) (w : World) :
  settled p n w -> settled p n (elapse k w).
Proof.
  intros Hw. induction k as [|k IH]; [exact Hw|].
  rewrite elapse_S. now apply tick_settled.
Qed.

Lemma elapse_due (file : TFile) (t : Timer) (n : list TFile) (k : nat)
    (w : World) :
  waiting file t n w ->
  (now w < deadline t <= now w + Z.of_nat k)%Z ->
  settled (path file) (n ++ [file]) (elapse k w).
Proof.
  intros Hw. induction k as [|k IH]; intros Hd; [lia|].
  rewrite elapse_S.
  destruct (Z_lt_le_dec (now w + Z.of_nat k) (deadline t)) as [Hlt|Hge].
  - apply (tick_due file t).
    + now apply elapse_waiting.
    + rewrite (proj1 (elapse_now k w)). lia.
  - apply tick_settled. apply IH. lia.
Qed.

(** ** Events *)

Lemma event_waiting (file : TFile) (w : World) :
  Inv w -> Backed w -> ready w = true -> isImageFile (name file) = true ->
  path file ∉ processing w ->
  exists t,
    waiting file t (invoked (path file) (trace w))
      (snd (scheduleResize file w)) /\
    deadline t = (now (snd (scheduleResize file w)) + 500)%Z.
Proof.
  intros Hi Hb Hr Him Hg.
  assert (Ho : open_for file w).
  { repeat split; auto. apply (inv_next w Hi). }
  destruct (scheduleResize_replaces file w Hi Ho) as (Ed & _ & _).
  destruct (scheduleResize_frame file w) as (_ & _ & _ & _ & En & Et).
  exists {| handle := nextHandle w; deadline := now w + 500;
            action := DebounceFire file |}.
  split; [|cbv zeta in En; rewrite En; reflexivity].
  split; [now apply scheduleResize_Inv|].
  split; [now apply scheduleResize_Backed|].
  split.
  { assert (Hin : {| handle := nextHandle w; deadline := now w + 500;
                     action := DebounceFire file |}
                  ∈ debounce_timers (path file) (snd (scheduleResize file w))).
    { rewrite Ed. now apply list_elem_of_singleton. }
    now apply list_elem_of_filter in Hin as [_ Hin]. }
  split; [reflexivity|]. cbv zeta in Et. now rewrite Et.
Qed.

Lemma other_event_waiting (file g : TFile) (t : Timer) (n : list TFile)
    (w : World) :
  waiting file t n w -> path g <> path file ->
  waiting file t n (snd (scheduleResize g w)).
Proof.
  intros (Hi & Hb & Ht & Ha & Hn) Hne.
  destruct (scheduleResize_frame g w) as (_ & _ & _ & _ & _ & Et).
  split; [now apply scheduleResize_Inv|].
  split; [now apply scheduleResize_Backed|].
  split.
  { apply scheduleResize_keeps; auto.
    intros f Ha'. rewrite Ha in Ha'. injection Ha' as <-. congruence. }
  split; [exact Ha|]. cbv zeta in Et. now rewrite Et.
Qed.

Lemma invoked_not_entry (p : string) (tr l : list effect) :
  Forall not_entry l -> invoked p (tr ++ l) = invoked p tr.
Proof.
  intros Fl. rewrite invoked_app. unfold invoked at 2.
  rewrite (invocations_not_entry l Fl). apply app_nil_r.
Qed.

Lemma paste_waiting (file : TFile) (t : Timer) (n : list TFile)
    (imageBlob : option bytes) (fullPath : string) (w : World) :
  waiting file t n w ->
  waiting file t n (snd (pasteFullSize imageBlob fullPath w)) /\
  ready (snd (pasteFullSize imageBlob fullPath w)) = ready w /\
  now (snd (pasteFullSize imageBlob fullPath w)) = now w.
Proof.
  intros (Hi & Hb & Ht & Ha & Hn).
  pose proof (proj1 (pasteFullSize_sound Inv stable_Inv imageBlob fullPath
                       w Hi)) as HI.
  pose proof (proj1 (pasteFullSize_sound Backed stable_Backed imageBlob
                       fullPath w Hb)) as HB.
  destruct (pasteFullSize_sound (fun _ => True) stable_True imageBlob
              fullPath w Logic.I) as [_ (l & El & Fl)].
  assert (Hinv : invoked (path file)
                   (trace (snd (pasteFullSize imageBlob fullPath w))) = n).
  { rewrite El, invoked_not_entry; [exact Hn|exact Fl]. }
  assert (Hrest : t ∈ timers (snd (pasteFullSize imageBlob fullPath w)) /\
                  ready (snd (pasteFullSize imageBlob fullPath w)) = ready w /\
                  now (snd (pasteFullSize imageBlob fullPath w)) = now w).
  { destruct imageBlob as [buffer|].
    - destruct (vault w !! fullPath) as [e|] eqn:Ef.
      + rewrite (pasteFullSize_refused _ _ _ _ Ef). cbn [snd]. wsimpl.
        now split.
      + rewrite (pasteFullSize_created _ _ _ Ef). cbn [snd]. wsimpl.
        split; [apply elem_of_app; now left|now split].
    - unfold pasteFullSize. mrun. wsimpl. now split. }
  destruct Hrest as (Ht' & Er & En).
  split; [|now split].
  exact (conj HI (conj HB (conj Ht' (conj Ha Hinv)))).
Qed.

(** The events for [file] stay rapid: its timer is armed all along, and
    it is always due within the next 500 ms. *)
Lemma rapid_waiting (file : TFile) (n : list TFile) (more : list input) :
  isImageFile (name file) = true ->
  forall (since : nat) (w : World) (t : Timer),
    rapid file since more -> since < 500 ->
    waiting file t n w -> ready w = true ->
    deadline t = (now w + 500 - Z.of_nat since)%Z ->
    (forall k, path file ∉ processing (run w (take k more))) ->
    exists t',
      waiting file t' n (run w more) /\
      (now (run w more) < deadline t' <= now (run w more) + 500)%Z.
Proof.
  intros Him. induction more as [|i more IH]; intros since w t Hrapid Hs Hw Hr Hd Hg.
  { exists t. split; [exact Hw|]. simpl. lia. }
  assert (Hg' : forall k, path file ∉ processing (run (step w i) (take k more))).
  { intros k. exact (Hg (S k)). }
  assert (Hsame : forall w',
            waiting file t n w' -> ready w' = true -> now w' = now w ->
            rapid file since more ->
            (forall k, path file ∉ processing (run w' (take k more))) ->
            exists t',
              waiting file t' n (run w' more) /\
              (now (run w' more) < deadline t' <= now (run w' more) + 500)%Z).
  { intros w' Hw' Hr' En Hrap Hgw.
    apply (IH since w' t); auto. now rewrite En. }
  change (run w (i :: more)) with (run (step w i) more).
  destruct i; cbn [rapid] in Hrapid; try contradiction.
  - (* the layout is ready *)
    apply Hsame; auto.
    destruct Hw as (Hi & Hb & Ht & Ha & Hn).
    split; [now apply (stable_ready Inv stable_Inv)|]. now split.
  - (* a file was created *)
    destruct Hrapid as [[-> Hrap]|[Hne Hrap]].
    + destruct Hw as (Hi & Hb & Ht & Ha & Hn).
      destruct (event_waiting file w Hi Hb Hr Him (Hg 0)) as (t1 & Hw1 & Hd1).
      destruct (scheduleResize_frame file w) as (_ & _ & Er & _ & _ & _).
      cbv zeta in Er. rewrite Hn in Hw1.
      apply (IH 0 (step w (VaultCreate file)) t1); auto; try lia.
      * cbn [step]. now rewrite Er.
      * cbn [step]. rewrite Hd1. lia.
    + destruct (scheduleResize_frame file0 w) as (_ & _ & Er & _ & En & _).
      cbv zeta in Er, En.
      apply Hsame; auto.
      * now apply other_event_waiting.
      * cbn [step]. now rewrite Er.
  - (* a file was modified *)
    destruct Hrapid as [[-> Hrap]|[Hne Hrap]].
    + destruct Hw as (Hi & Hb & Ht & Ha & Hn).
      destruct (event_waiting file w Hi Hb Hr Him (Hg 0)) as (t1 & Hw1 & Hd1).
      destruct (scheduleResize_frame file w) as (_ & _ & Er & _ & _ & _).
      cbv zeta in Er. rewrite Hn in Hw1.
      apply (IH 0 (step w (VaultModify file)) t1); auto; try lia.
      * cbn [step]. now rewrite Er.
      * cbn [step]. rewrite Hd1. lia.
    + destruct (scheduleResize_frame file0 w) as (_ & _ & Er & _ & En & _).
      cbv zeta in Er, En.
      apply Hsame; auto.
      * now apply other_event_waiting.
      * cbn [step]. now rewrite Er.
  - (* a pause *)
    destruct Hrapid as [Hlt Hrap].
    destruct (elapse_now ms w) as [En Er].
    apply (IH (since + ms) (step w (Elapse ms)) t); auto.
    + cbn [step]. apply elapse_waiting; [exact Hw|]. lia.
    + cbn [step]. now rewrite Er.
    + cbn [step]. rewrite En. lia.
  - (* a paste at full size *)
    destruct (paste_waiting file t n imageBlob fullPath w Hw)
      as (Hw' & Er & En).
    apply Hsame; auto. cbn [step]. now rewrite Er.
  - (* the settings were changed *)
    apply Hsame; auto.
    destruct Hw as (Hi & Hb & Ht & Ha & Hn).
    split; [now apply (stable_settings Inv stable_Inv)|]. now split.
  - (* the host changed the vault *)
    apply Hsame; auto.
    destruct Hw as (Hi & Hb & Ht & Ha & Hn).
    split; [now apply (stable_vault Inv stable_Inv)|]. now split.
Qed.

(** A burst in a world the plugin can be in. *)
Lemma burst_coalesces (file : TFile) (first : bool) (more : list input)
    (D : nat) (w : World) :
  Inv w -> Backed w ->
  ready w = true -> isImageFile (name file) = true ->
  rapid file 0 more ->
  (forall k, path file ∉ processing (run w (take k (event first file :: more)))) ->
  500 <= D ->
  length (debounce_timers (path file) (run w (event first file :: more))) = 1
  /\ invoked (path file) (trace (run w (event first file :: more)))
     = invoked (path file) (trace w)
  /\ invoked (path file)
       (trace (run w ((event first file :: more) ++ [Elapse D])))
     = (invoked (path file) (trace w) ++ [file])%list
  /\ debounce_timers (path file)
       (run w ((event first file :: more) ++ [Elapse D])) = [].
Proof.
  intros Hi Hb Hr Him Hrapid Hg HD.
  rewrite run_app.
  change (run w (event first file :: more))
    with (run (step w (event first file)) more).
  rewrite step_event.
  destruct (event_waiting file w Hi Hb Hr Him (Hg 0)) as (t1 & Hw1 & Hd1).
  destruct (scheduleResize_frame file w) as (_ & _ & Er & _ & _ & _).
  cbv zeta in Er.
  destruct (rapid_waiting file (invoked (path file) (trace w)) more Him 0
              (snd (scheduleResize file w)) t1 Hrapid)
    as (t' & Hw' & Hd'); auto; try lia.
  { now rewrite Er. }
  { intros k. specialize (Hg (S k)).
    change (run w (take (S k) (event first file :: more)))
      with (run (step w (event first file)) (take k more)) in Hg.
    now rewrite step_event in Hg. }
  set (w1 := run (snd (scheduleResize file w)) more) in *.
  change (run w1 [Elapse D]) with (elapse D w1).
  destruct (elapse_due file t' _ D w1 Hw') as (_ & _ & Hnone & Hn); [lia|].
  destruct Hw' as (Hi' & _ & Ht' & Ha' & Hn').
  split; [|split; [exact Hn'|split; [exact Hn|exact Hnone]]].
  destruct (Inv_one_timer w1 (path file) Hi') as [Hle _].
  assert (Hin : t' ∈ debounce_timers (path file) w1).
  { apply list_elem_of_filter. split; [|exact Ht'].
    apply is_debounce_true. now exists file. }
  destruct (debounce_timers (path file) w1) as [|x [|y l]]; simpl in *;
    [now apply elem_of_nil in Hin|reflexivity|lia].
Qed.

(** C6: there is at most one armed debounce timer per path at any time,
    the one the pending map holds: this is so in every state the plugin
    can reach.  An accepted event cancels the prior timer of the path
    before it arms and records the new one, and it leaves every other
    timer armed.  So, in whatever state the plugin has reached, and
    whatever other timers are armed or fire in between, N events for one
    path that pass the gates (the path is not in the guard set), each
    less than 500 ms after the one before, leave exactly one debounce
    timer armed for the path and invoke nothing for it; and once the
    quiet period has passed the processing callback has been invoked for
    the path exactly once, and no debounce timer is left for it. *)
Theorem debounce_one_timer_per_path :
  (forall (s : ImageResizerSettings) (v : gmap string entry)
          (inputs : list input) (p : string),
     length (debounce_timers p (run (initial s v) inputs)) <= 1 /\
     forall t, t ∈ debounce_timers p (run (initial s v) inputs) ->
               pending (run (initial s v) inputs) !! p = Some (handle t)) /\
  (forall (file : TFile) (w : World),
     Inv w -> open_for file w ->
     debounce_timers (path file) (snd (scheduleResize file w))
     = [{| handle := nextHandle w; deadline := now w + 500;
           action := DebounceFire file |}] /\
     pending (snd (scheduleResize file w)) !! path file
     = Some (nextHandle w) /\
     forall t, t ∈ debounce_timers (path file) w ->
               t ∉ timers (snd (scheduleResize file w))) /\
  (forall (s : ImageResizerSettings) (v : gmap string entry)
          (history : list input) (file : TFile) (t : Timer),
     let w := run (initial s v) history in
     t ∈ timers w ->
     (forall f, action t = DebounceFire f -> path f <> path file) ->
     t ∈ timers (snd (scheduleResize file w))) /\
  (forall (s : ImageResizerSettings) (v : gmap string entry)
          (history : list input) (file : TFile) (first : bool)
          (more : list input) (D : nat),
     let w := run (initial s v) history in
     let events := event first file :: more in
     ready w = true -> isImageFile (name file) = true ->
     rapid file 0 more ->
     (forall k, path file ∉ processing (run w (take k events))) ->
     500 <= D ->
     length (debounce_timers (path file) (run w events)) = 1 /\
     invoked (path file) (trace (run w events))
     = invoked (path file) (trace w) /\
     invoked (path file) (trace (run w (events ++ [Elapse D])))
     = (invoked (path file) (trace w) ++ [file])%list /\
     debounce_timers (path file) (run w (events ++ [Elapse D])) = []).
Proof.
  split; [|split; [|split]].
  - intros s v inputs p. apply Inv_one_timer, run_Inv, initial_Inv.
  - intros file w. apply scheduleResize_replaces.
  - intros s v history file t w Ht Hother.
    apply scheduleResize_keeps; auto.
    + apply run_Inv, initial_Inv.
    + apply run_Backed; [apply initial_Inv|apply initial_Backed].
  - intros s v history file first more D w events Hr Him Hrapid Hg HD.
    apply burst_coalesces; auto.
    + apply run_Inv, initial_Inv.
    + apply run_Backed; [apply initial_Inv|apply initial_Backed].
Qed.

End Coalescing.

Lemma debounce_one_timer_per_path_witness :
  let w :=
    Main.run (H := Sample.browser)
      (Main.initial Resizer.DEFAULT_SETTINGS Sample.files)
      [Main.LayoutReady; Main.VaultCreate Sample.b_jpg; Main.Elapse 500] in
  let events :=
    [Main.VaultCreate Sample.a_png; Main.Elapse 100;
     Main.VaultModify Sample.c_png; Main.Elapse 300;
     Main.VaultModify Sample.a_png; Main.Elapse 300;
     Main.VaultModify Sample.a_png] in
  Behaviour.invoked "img/a.png"
    (Main.trace (Main.run (H := Sample.browser) w (events ++ [Main.Elapse 500])))
  = (Behaviour.invoked "img/a.png" (Main.trace w) ++ [Sample.a_png])%list.
Proof.
  cbv zeta.
  destruct (debounce_one_timer_per_path (H := Sample.browser))
    as (_ & _ & _ & Hburst).
  refine (proj1 (proj2 (proj2
            (Hburst Resizer.DEFAULT_SETTINGS Sample.files
               [Main.LayoutReady; Main.VaultCreate Sample.b_jpg;
                Main.Elapse 500]
               Sample.a_png true
               [Main.Elapse 100; Main.VaultModify Sample.c_png;
                Main.Elapse 300; Main.VaultModify Sample.a_png;
                Main.Elapse 300; Main.VaultModify Sample.a_png]
               500 _ _ _ _ _)))).
  - vm_compute. reflexivity.
  - vm_compute. reflexivity.
  - simpl. split; [lia|]. right. split; [discriminate|].
    split; [lia|]. left. split; [reflexivity|].
    split; [lia|]. left. split; [reflexivity|exact I].
  - intros k.
    do 8 (destruct k as [|k];
          [apply (bool_decide_unpack _); vm_compute; exact I|]).
    apply (bool_decide_unpack _). vm_compute. exact I.
  - lia.
Defined.
